(** * heatmap.py: weekly occupancy timeline, pipeline and renderer

    A shallow embedding of [heatmap.py]: the pandas pipeline (cleaning,
    geocoding, jitter, weekly bins, aggregation, radius scaling, timeline
    dict) and the Leaflet script it injects (colour scale, [renderBin],
    transport controls), followed by the properties proved of them.

    Numbers.  On the Python side floats are modelled by exact rationals
    ([Q], compared with [==]): the statements there are about the
    arithmetic the code writes down, with the decimal rounding of
    [round(x, n)] (half to even) written out.  On the browser side the
    tests of the script depend on binary rounding, so a JavaScript Number
    is a rational that is a binary64 value, and subtraction, division and
    multiplication round to nearest, ties to even ([Double]); a decimal
    literal of the page, such as a rate of the timeline or [0.01], is
    read through [Double.lit].  [Math.round] rounds half up.  Integers
    are [Z].

    Strings are [string] (sequences of 8-bit characters); the postal codes
    and week labels of the data set are ASCII.

    Effects.  The Python script is a function to the list of its effects
    and the exception that ends it, if any.  The browser script is a
    state-passing function over its own variables that logs the calls it
    makes on the Leaflet circles, the DOM and the timers.

    Collaborators.  pandas' parsers and periods, pgeocode and hashlib are
    parameters of the models; instances for running them are given at the
    end of the first part. *)

From Stdlib Require Import ZArith QArith Qround Qabs Qminmax Qpower Lqa Lia.
From Stdlib Require Import SpecFloat.
From Stdlib Require Import List Bool Ascii String Sorted Permutation.
Import ListNotations.

Local Open Scope Z_scope.
Local Open Scope Q_scope.

(* ------------------------------------------------------------------ *)
(** ** Numeric primitives of the two host languages *)

Module Num.

(** Round to the nearest integer, ties to the even one (Python [round]). *)
Definition round_half_even (q : Q) : Z :=
  let f := Qfloor q in
  match Qcompare (q - inject_Z f) (1 # 2) with
  | Lt => f
  | Gt => (f + 1)%Z
  | Eq => if Z.even f then f else (f + 1)%Z
  end.

(** [10 ** n] as a rational. *)
Definition pow10 (n : nat) : Q := inject_Z (10 ^ Z.of_nat n).

(** Python [round(x, ndigits)]. *)
Definition py_round (x : Q) (ndigits : nat) : Q :=
  inject_Z (round_half_even (x * pow10 ndigits)) / pow10 ndigits.

(** Python [min(a, b)] and [max(a, b)]: the first argument wins ties. *)
Definition py_min (a b : Q) : Q := if Qlt_le_dec b a then b else a.
Definition py_max (a b : Q) : Q := if Qlt_le_dec a b then b else a.

(** JavaScript [Math.round]: ties go up. *)
Definition js_round (x : Q) : Z := Qfloor (x + (1 # 2)).

(** JavaScript [Math.min] and [Math.abs]. *)
Definition js_min (a b : Q) : Q := if Qlt_le_dec b a then b else a.
Definition js_abs (x : Q) : Q := Qabs x.

End Num.

(* ------------------------------------------------------------------ *)
(** ** JavaScript Numbers

    A Number is an IEEE 754 binary64 value: 53 significant bits, no bit
    below [2^-1074].  A finite Number is kept as the rational it is; an
    arithmetic operation gives the exact result rounded to the nearest
    binary64 value, ties to the even significand.  The exponent is not
    bounded above: beyond [2^1024] a Number is [Infinity], which no rate
    of the timeline and no radius reaches. *)

Module Double.
Import Num.

Definition pow2 (e : Z) : Q := Qpower 2 e.

(** The binary exponent of a positive number: the [e] with
    [2^e <= x < 2^(e+1)]. *)
Definition ilog2 (x : Q) : Z :=
  let g := (Z.log2 (Qnum x) - Z.log2 (Zpos (Qden x)))%Z in
  if Qle_bool (pow2 g) x then g else (g - 1)%Z.

(** The exponent of the unit in the last place. *)
Definition quantum (x : Q) : Z := Z.max (ilog2 (Qabs x) - 52) (-1074).

(** Rounding to nearest, ties to even. *)
Definition round (x : Q) : Q :=
  if Qeq_bool x 0 then 0
  else inject_Z (round_half_even (x / pow2 (quantum x))) * pow2 (quantum x).

(** The Number a decimal literal denotes, in the script or in the JSON
    that [json.dumps] wrote. *)
Definition lit (x : Q) : Q := round x.

(** [a - b], [a * b] and [a / b] on Numbers. *)
Definition sub (a b : Q) : Q := round (a - b).
Definition mul (a b : Q) : Q := round (a * b).
Definition div (a b : Q) : Q := round (a / b).

#[global] Arguments round x : simpl never.
#[global] Arguments lit x : simpl never.
#[global] Arguments sub a b : simpl never.
#[global] Arguments mul a b : simpl never.
#[global] Arguments div a b : simpl never.

End Double.

(** The same operations in the formalisation of IEEE 754 that comes with
    the prover, to compare [Double] with. *)
Module IEEE.

Definition prec : Z := 53.
Definition emax : Z := 1024.

(** The quotient of two integers, correctly rounded. *)
Definition of_Q (x : Q) : spec_float :=
  match Qnum x with
  | Z0 => S754_zero false
  | Zpos n => SFdiv prec emax (S754_finite false n 0) (S754_finite false (Qden x) 0)
  | Zneg n => SFdiv prec emax (S754_finite true n 0) (S754_finite false (Qden x) 0)
  end.

Definition value (f : spec_float) : option Q :=
  match f with
  | S754_zero _ => Some 0
  | S754_finite s m e =>
      Some ((if s then - inject_Z (Zpos m) else inject_Z (Zpos m)) * Double.pow2 e)
  | _ => None
  end.

(** The float [f] is the Number [x]. *)
Definition same (f : spec_float) (x : Q) : bool :=
  match value f with
  | Some v => Qeq_bool v x
  | None => false
  end.

End IEEE.

(* ------------------------------------------------------------------ *)
(** ** String operations used on the postal-code column *)

Module Text.
Local Open Scope nat_scope.

(** [str.upper()] on one character. *)
Definition upper_char (c : ascii) : ascii :=
  let n := nat_of_ascii c in
  if (97 <=? n) && (n <=? 122) then ascii_of_nat (n - 32) else c.

Fixpoint upper (s : string) : string :=
  match s with
  | EmptyString => EmptyString
  | String c r => String (upper_char c) (upper r)
  end.

(** [str.replace(" ", "", regex=False)]. *)
Fixpoint remove_spaces (s : string) : string :=
  match s with
  | EmptyString => EmptyString
  | String c r =>
      if Ascii.eqb c " "%char then remove_spaces r
      else String c (remove_spaces r)
  end.

(** The slice [s[:n]]. *)
Definition take (n : nat) (s : string) : string := substring 0 n s.

Fixpoint mem_char (c : ascii) (cls : string) : bool :=
  match cls with
  | EmptyString => false
  | String d r => Ascii.eqb c d || mem_char c r
  end.

(** The three character classes of [pattern]:
    [[ABCEGHJ-NPRSTVXY]], [\d] and [[ABCEGHJ-NPRSTV-Z]]. *)
Definition lead_letter (c : ascii) : bool := mem_char c "ABCEGHJKLMNPRSTVXY".
Definition digit (c : ascii) : bool := mem_char c "0123456789".
Definition inner_letter (c : ascii) : bool := mem_char c "ABCEGHJKLMNPRSTVWXYZ".

(** [str.fullmatch(pattern)]. *)
Definition fullmatch_pattern (s : string) : bool :=
  match s with
  | String a (String b (String c (String d (String e (String f EmptyString))))) =>
      lead_letter a && digit b && inner_letter c && digit d
      && inner_letter e && digit f
  | _ => false
  end.

End Text.

(* ------------------------------------------------------------------ *)
(** ** Insertion-ordered dictionaries

    A Python [dict] and a JavaScript object with non-numeric keys both
    keep their keys in insertion order; assigning to a present key keeps
    its place. *)

Module Dict.

Definition t (V : Type) : Type := list (string * V).

Fixpoint get {V} (d : t V) (k : string) : option V :=
  match d with
  | [] => None
  | (k', v) :: r => if String.eqb k k' then Some v else get r k
  end.

Fixpoint set {V} (d : t V) (k : string) (v : V) : t V :=
  match d with
  | [] => [(k, v)]
  | (k', v') :: r =>
      if String.eqb k k' then (k', v) :: r else (k', v') :: set r k v
  end.

Definition keys {V} (d : t V) : list string := map fst d.

Definition mem {V} (d : t V) (k : string) : bool :=
  match get d k with Some _ => true | None => false end.

End Dict.

(* ------------------------------------------------------------------ *)
(** ** 1) Load + clean *)

Module Normalizer.
Import Text.

(** A cell of a numeric column as [read_csv] delivers it. *)
Inductive cell : Type :=
| Num (q : Q)
| Txt (s : string)
| NaN.

(** One row of the four columns read from the CSV file. *)
Record RawRow : Type := mkRaw {
  raw_code : option string;   (* LOCATION_POSTAL_CODE, [None] = NA *)
  raw_date : option string;   (* OCCUPANCY_DATE *)
  raw_cap  : cell;            (* ACTUAL_CAPACITY *)
  raw_occ  : cell             (* OCCUPIED_CAPACITY *)
}.

(** A row of [df] after section 1; [date] is the parsed timestamp, an
    integer count since the epoch. *)
Record Row : Type := mkRow {
  code : string;
  FSA  : string;
  cap  : Q;
  occ  : Q;
  date : Z
}.

Section Clean.
(** [pd.to_numeric] and [pd.to_datetime] on a string, [None] where
    [errors="coerce"] gives NaN / NaT.  [parse_date] is the conversion
    of one cell of the column at hand: pandas settles the date format of
    a column from its first value, so the conversion belongs to one run
    and is not carried over to another column. *)
Variable parse_number : string -> option Q.
Variable parse_date   : string -> option Z.

Definition to_numeric (c : cell) : option Q :=
  match c with
  | Num q => Some q
  | Txt s => parse_number s
  | NaN => None
  end.

Definition to_datetime (c : option string) : option Z :=
  match c with
  | Some s => parse_date s
  | None => None
  end.

(** Lines 40-46: drop NA codes, upper-case, remove spaces, keep full
    matches of [pattern]. *)
Definition clean_code (r : RawRow) : option string :=
  match raw_code r with
  | None => None
  | Some s =>
      let s' := remove_spaces (upper s) in
      if fullmatch_pattern s' then Some s' else None
  end.

(** Lines 40-53 on one row: [None] when the row is dropped. *)
Definition clean_row (r : RawRow) : option Row :=
  match clean_code r with
  | None => None
  | Some c =>
      match to_numeric (raw_cap r), to_numeric (raw_occ r) with
      | Some k, Some o =>
          match to_datetime (raw_date r) with
          | Some d => Some (mkRow c (take 3 c) k o d)
          | None => None
          end
      | _, _ => None
      end
  end.

Fixpoint clean (rows : list RawRow) : list Row :=
  match rows with
  | [] => []
  | r :: rest =>
      match clean_row r with
      | Some x => x :: clean rest
      | None => clean rest
      end
  end.
End Clean.

End Normalizer.

(* ------------------------------------------------------------------ *)
(** ** 2) Geocode postal codes (with FSA fallback) and jitter *)

Module Resolver.
Import Text Normalizer.

(** A row of [df] once the columns [lat] and [lon] are merged in. *)
Record Point : Type := mkPoint {
  p_row : Row;
  lat   : Q;
  lon   : Q
}.

Definition p_code (p : Point) : string := code (p_row p).

Definition with_latlon (p : Point) (la lo : Q) : Point :=
  mkPoint (p_row p) la lo.

(** [Series.unique()]: first occurrences, in order. *)
Fixpoint unique (xs : list string) : list string :=
  match xs with
  | [] => []
  | x :: r => x :: filter (fun y => negb (String.eqb y x)) (unique r)
  end.

Section Geocode.
(** [nomi.query_postal_code] on one code: latitude and longitude,
    each [None] where pgeocode answers NaN. *)
Variable query_postal_code : string -> option Q * option Q.

Definition is_missing (g : option Q * option Q) : bool :=
  match g with
  | (Some _, Some _) => false
  | _ => true
  end.

(** One line of [geo_map] after the FSA fallback (lines 61-73). *)
Definition geo_entry (c : string) : option Q * option Q :=
  let g := query_postal_code c in
  if is_missing g then query_postal_code (take 3 c) else g.

Definition geo_map (df : list Row) : Dict.t (option Q * option Q) :=
  map (fun c => (c, geo_entry c)) (unique (map code df)).

(** The left merge on the postal code followed by
    [dropna(subset=["lat", "lon"])], for a frame with at least one
    row. *)
Fixpoint merge_geo (gm : Dict.t (option Q * option Q)) (df : list Row)
  : list Point :=
  match df with
  | [] => []
  | r :: rest =>
      match Dict.get gm (code r) with
      | Some (Some la, Some lo) => mkPoint r la lo :: merge_geo gm rest
      | _ => merge_geo gm rest
      end
  end.

(** The frame after line 76, when the merge goes through. *)
Definition geo_frame (df : list Row) : list Point :=
  merge_geo (geo_map df) df.

(** Lines 58-76.  [None]: the merge of line 75 raises [ValueError].
    On a frame without rows [unique_codes] is empty, the key column of
    [geo_map] is then a float column, and pandas refuses to merge it
    with the string column of [df]. *)
Definition geocode (df : list Row) : option (list Point) :=
  match df with
  | [] => None
  | _ :: _ => Some (geo_frame df)
  end.
End Geocode.

Section Jitter.
(** [int(hashlib.md5(code.encode()).hexdigest()[:8], 16)]. *)
Variable md5_word : string -> Z.

Definition jitter (c : string) : Q * Q :=
  let h := md5_word c in
  ((inject_Z (h mod 1000) / 999 - (5 # 10)) * (4 # 1000),
   (inject_Z ((h / 1000) mod 1000) / 999 - (5 # 10)) * (4 # 1000)).

(** Same [(lat, lon, code)] triple. *)
Definition same_spot (p q : Point) : bool :=
  Qeq_bool (lat p) (lat q) && Qeq_bool (lon p) (lon q)
  && String.eqb (p_code p) (p_code q).

(** [df.duplicated(subset=["lat", "lon", POST_COL], keep=False)]:
    the triple of the row occurs at least twice in [df]. *)
Definition dupe (df : list Point) (p : Point) : bool :=
  (2 <=? List.length (filter (same_spot p) df))%nat.

Definition jitter_row (df : list Point) (p : Point) : Point :=
  if dupe df p
  then with_latlon p (lat p + fst (jitter (p_code p)))
                     (lon p + snd (jitter (p_code p)))
  else p.

(** The offset [jitter_row] adds to a row. *)
Definition offset_of (df : list Point) (p : Point) : Q * Q :=
  (lat (jitter_row df p) - lat p, lon (jitter_row df p) - lon p).

(** Lines 79-86. *)
Definition jitter_dupes (df : list Point) : list Point :=
  if existsb (dupe df) df then map (jitter_row df) df else df.
End Jitter.

End Resolver.

(* ------------------------------------------------------------------ *)
(** ** 3) Weekly binning and aggregation *)

Module Binner.
Import Normalizer Resolver.

(** Insertion into a list sorted by [leb], and the sort it gives.
    [sorted] and pandas' group ordering are stable sorts on a total
    order; the keys sorted here are pairwise distinct. *)
Section Sort.
Context {A : Type} (leb : A -> A -> bool).

Fixpoint insert_sorted (x : A) (l : list A) : list A :=
  match l with
  | [] => [x]
  | y :: r => if leb x y then x :: l else y :: insert_sorted x r
  end.

Fixpoint sort (l : list A) : list A :=
  match l with
  | [] => []
  | x :: r => insert_sorted x (sort r)
  end.
End Sort.

(** Python's [sorted] on a list of [str]. *)
Definition sorted (l : list string) : list string := sort String.leb l.

(** A row of [df] with its ["BIN"] column. *)
Record Binned : Type := mkBinned {
  b_point : Point;
  BIN     : string
}.

(** The grouping key [["BIN", POST_COL, "lat", "lon"]]. *)
Definition key : Type := (string * string * Q * Q)%type.

Definition key_of (r : Binned) : key :=
  (BIN r, p_code (b_point r), lat (b_point r), lon (b_point r)).

Definition key_eqb (k1 k2 : key) : bool :=
  let '(b1, c1, la1, lo1) := k1 in
  let '(b2, c2, la2, lo2) := k2 in
  String.eqb b1 b2 && String.eqb c1 c2 && Qeq_bool la1 la2 && Qeq_bool lo1 lo2.

(** Lexicographic order on keys: the order of the groups. *)
Definition key_leb (k1 k2 : key) : bool :=
  let '(b1, c1, la1, lo1) := k1 in
  let '(b2, c2, la2, lo2) := k2 in
  match String.compare b1 b2 with
  | Lt => true
  | Gt => false
  | Eq =>
      match String.compare c1 c2 with
      | Lt => true
      | Gt => false
      | Eq =>
          match Qcompare la1 la2 with
          | Lt => true
          | Gt => false
          | Eq => Qle_bool lo1 lo2
          end
      end
  end.

Fixpoint unique_keys (ks : list key) : list key :=
  match ks with
  | [] => []
  | k :: r => k :: filter (fun k' => negb (key_eqb k' k)) (unique_keys r)
  end.

(** The aggregate ["mean"] of a non-empty group. *)
Definition sum (xs : list Q) : Q := fold_right Qplus 0 xs.
Definition mean (xs : list Q) : Q := sum xs / inject_Z (Z.of_nat (List.length xs)).

(** A row of [agg] (lines 102-109). *)
Record Sample : Type := mkSample {
  s_bin     : string;
  s_code    : string;
  s_lat     : Q;
  s_lon     : Q;
  total_cap : Q;
  occupied  : Q;
  rate      : Q
}.

(** One group; [None] when [total_cap] is [0], where the rate is NaN
    and [dropna] removes the row. *)
Definition aggregate (df : list Binned) (k : key) : option Sample :=
  let members := filter (fun r => key_eqb (key_of r) k) df in
  let tc := mean (map (fun r => cap (p_row (b_point r))) members) in
  let oc := mean (map (fun r => occ (p_row (b_point r))) members) in
  let '(b, c, la, lo) := k in
  if Qeq_bool tc 0 then None
  else Some (mkSample b c la lo tc oc (oc / tc)).

Fixpoint dropna (l : list (option Sample)) : list Sample :=
  match l with
  | [] => []
  | Some s :: r => s :: dropna r
  | None :: r => dropna r
  end.

(** [Series.isin]. *)
Definition isin (b : string) (bins : list string) : bool :=
  existsb (String.eqb b) bins.

Section Weeks.
(** [dt.to_period("W").astype(str)] on a timestamp, and the ordinal of
    [pd.Period(label, freq="W")]. *)
Variable week_label : Z -> string.
Variable period_of  : string -> Z.

Definition add_bin (df : list Point) : list Binned :=
  map (fun p => mkBinned p (week_label (date (p_row p)))) df.

Definition bins_all (df : list Binned) : list string :=
  sorted (unique (map BIN df)).

Definition start_period : Z := period_of "2024-01-01".

(** Line 95. *)
Definition bins (df : list Binned) : list string :=
  sorted (filter (fun b => (start_period <=? period_of b)%Z) (bins_all df)).
End Weeks.

(** Lines 102-108: group, average, rate, drop undefined rates. *)
Definition agg_all (df : list Binned) : list Sample :=
  dropna (map (aggregate df) (sort key_leb (unique_keys (map key_of df)))).

(** Line 109. *)
Definition agg (df : list Binned) (bins : list string) : list Sample :=
  filter (fun s => isin (s_bin s) bins) (agg_all df).

End Binner.

(* ------------------------------------------------------------------ *)
(** ** 4) Radius scaling by total capacity (metres) *)

Module Mapper.
Import Num.

Definition CAP_MIN_R : Q := 80.
Definition CAP_MAX_R : Q := 500.
Definition GREEN_MIN_M : Q := (75 # 100) * (1609344 # 1000).
Definition GREEN_MAX_M : Q := 2 * (1609344 # 1000).

(** [Series.min()] and [Series.max()] of a column; [None] on an empty
    column (pandas answers NaN there). *)
Fixpoint series_min (xs : list Q) : option Q :=
  match xs with
  | [] => None
  | x :: r => match series_min r with
              | None => Some x
              | Some m => Some (if Qlt_le_dec x m then x else m)
              end
  end.

Fixpoint series_max (xs : list Q) : option Q :=
  match xs with
  | [] => None
  | x :: r => match series_max r with
              | None => Some x
              | Some m => Some (if Qlt_le_dec m x then x else m)
              end
  end.

(** The globals [cap_min], [cap_max] after the guard
    [if cap_max <= cap_min: cap_max = cap_min + 1]. *)
Definition cap_bounds (total_cap : list Q) : option (Q * Q) :=
  match series_min total_cap, series_max total_cap with
  | Some cap_min, Some cap_max =>
      if Qle_bool cap_max cap_min
      then Some (cap_min, cap_min + 1)
      else Some (cap_min, cap_max)
  | _, _ => None
  end.

Section Scale.
Variables cap_min cap_max : Q.

Definition unit_pos (cap : Q) : Q :=
  py_max 0 (py_min 1 ((cap - cap_min) / (cap_max - cap_min))).

Definition cap_radius (cap : Q) : Q :=
  py_round (CAP_MIN_R + unit_pos cap * (CAP_MAX_R - CAP_MIN_R)) 1.

Definition green_radius (cap : Q) : Q :=
  py_round (GREEN_MIN_M + unit_pos cap * (GREEN_MAX_M - GREEN_MIN_M)) 1.
End Scale.

End Mapper.

(* ------------------------------------------------------------------ *)
(** ** 5) Per-shelter weekly timeline dict *)

Module Timeline.
Import Num.

(** The value stored per shelter and week: the object [d] of the
    script. *)
Record Frame : Type := mkFrame {
  lat      : Q;
  lon      : Q;
  rate     : Q;
  radius_m : Q;
  green_r  : Q
}.

(** A row of [agg] with its two radius columns. *)
Record Scaled : Type := mkScaled {
  sample   : Binner.Sample;
  s_radius : Q;
  s_green  : Q
}.

(** Lines 116-131. *)
Definition scale (agg : list Binner.Sample) : list Scaled :=
  match Mapper.cap_bounds (map Binner.total_cap agg) with
  | None => []
  | Some (cap_min, cap_max) =>
      map (fun s => mkScaled s
                      (Mapper.cap_radius cap_min cap_max (Binner.total_cap s))
                      (Mapper.green_radius cap_min cap_max (Binner.total_cap s)))
          agg
  end.

Definition frame_of (r : Scaled) : Frame :=
  mkFrame (py_round (Binner.s_lat (sample r)) 6)
          (py_round (Binner.s_lon (sample r)) 6)
          (py_round (Binner.rate (sample r)) 4)
          (s_radius r)
          (s_green r).

Definition shelter_dict : Type := Dict.t (Dict.t Frame).

(** One turn of the loop of lines 138-148. *)
Definition add_row (shelter_data : shelter_dict) (r : Scaled) : shelter_dict :=
  let sid := Binner.s_code (sample r) in
  let weeks := match Dict.get shelter_data sid with
               | Some w => w
               | None => []
               end in
  Dict.set shelter_data sid (Dict.set weeks (Binner.s_bin (sample r)) (frame_of r)).

Definition shelter_data (agg : list Scaled) : shelter_dict :=
  fold_left add_row agg [].

(** Every week under which a timeline stores a frame satisfies [P]. *)
Definition weeks_within (P : string -> Prop) (sd : shelter_dict) : Prop :=
  forall sid weeks b,
    Dict.get sd sid = Some weeks -> In b (Dict.keys weeks) -> P b.

End Timeline.

(* ------------------------------------------------------------------ *)
(** ** The script from section 3 to the save *)

Module Pipeline.
Import Resolver Binner Timeline.

(** What is handed to the browser: the data embedded in [map.html]. *)
Record Document : Type := mkDocument {
  center       : Q * Q;
  SHELTER_DATA : shelter_dict;
  BINS         : list string
}.

Inductive effect : Type :=
| PrintBins (first last : string) (weeks : nat)
| PrintNoShapefile
| SaveMap (doc : Document)
| PrintSaved.

(** The exceptions that end a run: the [ValueError] the script raises
    itself (line 97), and the two [ValueError]s raised inside the
    libraries, by [DataFrame.merge] (line 75) and by [folium.Map] for a
    NaN location (line 156); the messages of the libraries are not
    modelled. *)
Inductive exn : Type :=
| ValueError (msg : string)
| MergeValueError
| LocationValueError.

(** The means of lines 153-154; [None] when [agg] is empty and the
    means are NaN. *)
Definition center_of (agg : list Sample) : option (Q * Q) :=
  match agg with
  | [] => None
  | _ => Some (mean (map s_lat agg), mean (map s_lon agg))
  end.

Section Run.
Variable week_label : Z -> string.
Variable period_of  : string -> Z.
(** Whether the shapefile of the choropleth is present. *)
Variable geo_file_exists : bool.

(** Lines 91-432 on the geocoded, jittered frame: the effects in
    order, and the exception if one ends the run.  With no row left in
    [agg] the centre is NaN and [folium.Map] raises, after the print of
    line 99.  The choropleth layer itself is not modelled. *)
Definition run (df : list Point) : list effect * option exn :=
  let dfb := add_bin week_label df in
  let bs := bins period_of dfb in
  match bs with
  | [] => ([], Some (ValueError "No weekly bins found after start_period."))
  | first :: _ =>
      let a := agg dfb bs in
      let printed := [PrintBins first (last bs first) (List.length bs)] in
      match center_of a with
      | None => (printed, Some LocationValueError)
      | Some c =>
          let doc := mkDocument c (shelter_data (scale a)) bs in
          (printed
             ++ (if geo_file_exists then [] else [PrintNoShapefile])
             ++ [SaveMap doc; PrintSaved],
           None)
      end
  end.
End Run.

(** That an effect writes the map. *)
Definition is_save (e : effect) : Prop :=
  match e with
  | SaveMap _ => True
  | _ => False
  end.

Section Script.
Variable parse_number : string -> option Q.
Variable parse_date   : string -> option Z.
Variable query_postal_code : string -> option Q * option Q.
Variable md5_word : string -> Z.
Variable week_label : Z -> string.
Variable period_of  : string -> Z.
Variable geo_file_exists : bool.

(** The whole script on the rows read from the CSV file. *)
Definition script (rows : list Normalizer.RawRow) : list effect * option exn :=
  match geocode query_postal_code
                (Normalizer.clean parse_number parse_date rows) with
  | None => ([], Some MergeValueError)
  | Some df => run week_label period_of geo_file_exists (jitter_dupes md5_word df)
  end.
End Script.

End Pipeline.

(* ------------------------------------------------------------------ *)
(** ** 7) The injected script: colour scale, renderer, transport *)

Module Renderer.
Import Num Timeline.

Definition OVERSHOOT : Q := 35 # 100.
Definition ANIM_MS   : Q := 650.
Definition STEP_MS   : Q := 1400.

Definition PALETTE : list string :=
  ["#386D9C"; "#4C6D8D"; "#606C7D"; "#9B6A4E"; "#AF693F";
   "#C3682F"; "#D7671F"; "#EB6710"; "#FF6600"]%string.

(** Indexing of a JavaScript array: [None] is [undefined]. *)
Definition index {A} (l : list A) (i : Z) : option A :=
  if (i <? 0)%Z then None else nth_error l (Z.to_nat i).

Definition PALETTE_length : Z := Z.of_nat (List.length PALETTE).

(** A rate is written as the decimal the timeline holds for it; the
    Number the script computes with is [Double.lit rate]. *)

(** The position in the palette before [Math.round]:
    [Math.min((rate - 0.8) / 0.2, 1.0) * (PALETTE.length - 1)]. *)
Definition palette_pos (rate : Q) : Q :=
  Double.mul
    (js_min (Double.div (Double.sub (Double.lit rate) (Double.lit (8 # 10)))
                        (Double.lit (2 # 10)))
            1)
    (inject_Z (PALETTE_length - 1)).

Definition rateColor (rate : Q) : option string :=
  if Qlt_le_dec (Double.lit rate) (Double.lit (5 # 10)) then Some "#2e8b57"%string
  else if Qlt_le_dec (Double.lit rate) (Double.lit (8 # 10))
  then Some "#386D9C"%string
  else
    let snapped := js_round (palette_pos rate) in
    index PALETTE (Z.min snapped (PALETTE_length - 1)).

(** [Math.round(d.rate * 100)], the number shown in the tooltip. *)
Definition percent (rate : Q) : Z :=
  js_round (Double.mul (Double.lit rate) 100).

#[global] Arguments palette_pos rate : simpl never.
#[global] Arguments rateColor rate : simpl never.
#[global] Arguments percent rate : simpl never.

(** [easeOut] and the radius [step] gives the circle [el] milliseconds
    into a pulse; the flag tells whether another frame is requested. *)
Definition easeOut (t : Q) : Q := 1 - (1 - t) * (1 - t) * (1 - t).

Definition pulse_step (targetR el : Q) : Q * bool :=
  let peakB := targetR * (1 + OVERSHOOT) in
  let PHASE1 := ANIM_MS * (40 # 100) in
  let PHASE2 := ANIM_MS * (60 # 100) in
  let rb :=
    if Qlt_le_dec el PHASE1
    then targetR + (peakB - targetR) * easeOut (el / PHASE1)
    else if Qlt_le_dec el (PHASE1 + PHASE2)
    then peakB + (targetR - peakB) * easeOut ((el - PHASE1) / PHASE2)
    else targetR in
  (rb, if Qlt_le_dec el (PHASE1 + PHASE2) then true else false).

(** The two circles of a shelter. *)
Inductive which : Type := blue | green.

(** Calls made on the Leaflet circles, the DOM and the timers; the
    objects themselves live in the browser. *)
Inductive call : Type :=
| AddCircle (sid : string) (w : which) (lat lon radius : Q)
            (fillColor : option string)
| SetLatLng (sid : string) (w : which) (lat lon : Q)
| SetStyle (sid : string) (fillColor : option string)
| SetTooltip (sid : string) (percent : Z)
| SetRadius (sid : string) (w : which) (radius : Q)
| Pulse (sid : string) (w : which) (targetR : Q)
| SliderValue (idx : Z)
| LabelText (bin : option string)
| PlayText (playing : bool)
| SetTimeout
| ClearTimeout.

(** The variables of the script.  [circles] keeps which shelters own a
    circle pair, in insertion order; [playTimer] tells whether a tick
    is pending; [ui] whether [buildUI] has created the controls. *)
Record State : Type := mkState {
  currentBin : Z;
  playing    : bool;
  playTimer  : bool;
  circles    : Dict.t unit;
  prevRate   : Dict.t Q;
  ui         : bool
}.

Section Script.
Variable SHELTER_DATA : shelter_dict.
Variable BINS : list string.

Definition BINS_length : Z := Z.of_nat (List.length BINS).

(** [(SHELTER_DATA[sid] || {})[bin]]. *)
Definition frame_at (sid : string) (bin : option string) : option Frame :=
  match Dict.get SHELTER_DATA sid, bin with
  | Some weeks, Some b => Dict.get weeks b
  | _, _ => None
  end.

(** [Math.abs(d.rate - prev)], and the test of line 341. *)
Definition delta (rate prev : Q) : Q :=
  js_abs (Double.sub (Double.lit rate) (Double.lit prev)).

Definition changed (rate prev : Q) : bool :=
  if Qlt_le_dec (Double.lit (1 # 100)) (delta rate prev) then true else false.

(** The body of the loop of [renderBin] for one shelter. *)
Definition render_one (bin : option string)
           (acc : Dict.t Q * list call) (sid : string)
  : Dict.t Q * list call :=
  let '(prevs, log) := acc in
  match frame_at sid bin with
  | None => acc
  | Some d =>
      let prev := match Dict.get prevs sid with
                  | Some p => p
                  | None => rate d
                  end in
      let col := rateColor (rate d) in
      let radius := radius_m d in
      (Dict.set prevs sid (rate d),
       log ++ [SetLatLng sid blue (lat d) (lon d);
               SetLatLng sid green (lat d) (lon d);
               SetStyle sid col;
               SetTooltip sid (percent (rate d));
               SetRadius sid green (green_r d);
               if changed (rate d) prev
               then Pulse sid blue radius
               else SetRadius sid blue radius])
  end.

Definition renderBin (st : State) (idx : Z) : State * list call :=
  let bin := index BINS idx in
  let dom := if ui st then [SliderValue idx; LabelText bin] else [] in
  let '(prevs, log) :=
    fold_left (render_one bin) (Dict.keys (circles st)) (prevRate st, dom) in
  (mkState idx (playing st) (playTimer st) (circles st) prevs (ui st), log).

Definition stopPlay (st : State) : State * list call :=
  (mkState (currentBin st) false false (circles st) (prevRate st) (ui st),
   ClearTimeout :: (if ui st then [PlayText false] else [])).

Definition startPlay (st : State) : State * list call :=
  (mkState (currentBin st) true true (circles st) (prevRate st) (ui st),
   [PlayText true; SetTimeout]).

(** [tick], run when the pending timer fires. *)
Definition tick (st : State) : State * list call :=
  let next := if (BINS_length <=? currentBin st + 1)%Z
              then 0%Z else (currentBin st + 1)%Z in
  let '(st1, log) := renderBin st next in
  (mkState (currentBin st1) (playing st1) true (circles st1)
           (prevRate st1) (ui st1),
   log ++ [SetTimeout]).

(** What the browser delivers to the script. *)
Inductive event : Type :=
| SliderInput (value : Z)
| PrevClick
| NextClick
| PlayClick
| TimerFire.

Definition and_then (st : State) (log : list call)
           (k : State -> State * list call) : State * list call :=
  let '(st', log') := k st in (st', log ++ log').

(** The listeners of [buildUI] and the timer callback.  A timer that
    was cleared does not fire. *)
Definition handle (st : State) (ev : event) : State * list call :=
  match ev with
  | SliderInput v =>
      let '(st1, l1) := stopPlay st in
      and_then st1 l1 (fun s => renderBin s v)
  | PrevClick =>
      let '(st1, l1) := stopPlay st in
      and_then st1 l1 (fun s => renderBin s (Z.max 0 (currentBin s - 1)))
  | NextClick =>
      let '(st1, l1) := stopPlay st in
      and_then st1 l1 (fun s => renderBin s (Z.min (BINS_length - 1) (currentBin s + 1)))
  | PlayClick => if playing st then stopPlay st else startPlay st
  | TimerFire => if playTimer st then tick st else (st, [])
  end.

(** The loop of [init] over [SHELTER_DATA]; [None] when a shelter has
    no week, where [d] is [undefined] and the script throws. *)
Fixpoint init_circles (sd : shelter_dict)
         (acc : Dict.t unit * Dict.t Q * list call)
  : option (Dict.t unit * Dict.t Q * list call) :=
  match sd with
  | [] => Some acc
  | (sid, weeks) :: rest =>
      match Dict.keys weeks with
      | [] => None
      | firstBin :: _ =>
          match Dict.get weeks firstBin with
          | None => None
          | Some d =>
              let '(cs, prevs, log) := acc in
              init_circles rest
                (Dict.set cs sid tt,
                 Dict.set prevs sid (rate d),
                 log ++ [AddCircle sid green (lat d) (lon d) (green_r d)
                                   (Some "#2e8b57"%string);
                         AddCircle sid blue (lat d) (lon d) (radius_m d)
                                   (rateColor (rate d))])
          end
      end
  end.

Definition init : option (State * list call) :=
  match init_circles SHELTER_DATA ([], [], []) with
  | None => None
  | Some (cs, prevs, log) =>
      let '(st, log') := renderBin (mkState 0 false false cs prevs false) 0 in
      Some (mkState (currentBin st) (playing st) (playTimer st)
                    (circles st) (prevRate st) true,
            log ++ log')
  end.

Fixpoint run (st : State) (evs : list event) : State * list call :=
  match evs with
  | [] => (st, [])
  | ev :: rest =>
      let '(st1, l1) := handle st ev in
      let '(st2, l2) := run st1 rest in
      (st2, l1 ++ l2)
  end.

(** The week index is a valid position in [BINS]. *)
Definition in_range (st : State) : Prop :=
  (0 <= currentBin st <= BINS_length - 1)%Z.

(** An event the page can deliver: the value of the range input lies
    between its [min] and [max] attributes, 0 and [BINS.length - 1]. *)
Definition deliverable (ev : event) : Prop :=
  match ev with
  | SliderInput v => (0 <= v <= BINS_length - 1)%Z
  | _ => True
  end.
End Script.

#[global] Arguments delta rate prev : simpl never.
#[global] Arguments changed rate prev : simpl never.

(** *** Vocabulary for statements about the call log *)

(** The shelter a call is made for, if any. *)
Definition call_sid (c : call) : option string :=
  match c with
  | AddCircle sid _ _ _ _ _ => Some sid
  | SetLatLng sid _ _ _ => Some sid
  | SetStyle sid _ => Some sid
  | SetTooltip sid _ => Some sid
  | SetRadius sid _ _ => Some sid
  | Pulse sid _ _ => Some sid
  | _ => None
  end.

(** The calls of one turn of the loop, for frame [d] and last rate
    [prev]. *)
Definition shelter_calls (sid : string) (d : Frame) (prev : Q) : list call :=
  [SetLatLng sid blue (lat d) (lon d);
   SetLatLng sid green (lat d) (lon d);
   SetStyle sid (rateColor (rate d));
   SetTooltip sid (percent (rate d));
   SetRadius sid green (green_r d);
   if changed (rate d) prev
   then Pulse sid blue (radius_m d)
   else SetRadius sid blue (radius_m d)].

Definition last_rate (prevs : Dict.t Q) (sid : string) (d : Frame) : Q :=
  match Dict.get prevs sid with
  | Some p => p
  | None => rate d
  end.

End Renderer.

(* ------------------------------------------------------------------ *)
(** ** The collaborators on concrete input

    The pipeline calls [hashlib.md5], [pd.to_numeric], [pd.to_datetime]
    and the weekly [pd.Period].  The models above take them as
    parameters.  Here they are given for running the models: MD5 as
    RFC 1321 defines it, and the pandas conversions on the plain decimal
    and [YYYY-MM-DD] strings (pandas accepts further formats; these
    functions answer [None] on them).  Timestamps count days since
    1970-01-01. *)

Module MD5.
Local Open Scope Z_scope.

Definition wrap (x : Z) : Z := x mod 2 ^ 32.

Definition rotl (x c : Z) : Z :=
  wrap (Z.lor (Z.shiftl x c) (Z.shiftr x (32 - c))).

Definition lnot32 (x : Z) : Z := Z.lxor x (2 ^ 32 - 1).

(** [floor(2^32 * abs(sin(i + 1)))] for [i] from 0 to 63. *)
Definition K : list Z :=
  [3614090360; 3905402710; 606105819; 3250441966; 4118548399; 1200080426;
   2821735955; 4249261313; 1770035416; 2336552879; 4294925233; 2304563134;
   1804603682; 4254626195; 2792965006; 1236535329; 4129170786; 3225465664;
   643717713; 3921069994; 3593408605; 38016083; 3634488961; 3889429448;
   568446438; 3275163606; 4107603335; 1163531501; 2850285829; 4243563512;
   1735328473; 2368359562; 4294588738; 2272392833; 1839030562; 4259657740;
   2763975236; 1272893353; 4139469664; 3200236656; 681279174; 3936430074;
   3572445317; 76029189; 3654602809; 3873151461; 530742520; 3299628645;
   4096336452; 1126891415; 2878612391; 4237533241; 1700485571; 2399980690;
   4293915773; 2240044497; 1873313359; 4264355552; 2734768916; 1309151649;
   4149444226; 3174756917; 718787259; 3951481745].

(** The rotation of each round. *)
Definition R : list Z :=
  [7; 12; 17; 22; 7; 12; 17; 22; 7; 12; 17; 22; 7; 12; 17; 22;
   5; 9; 14; 20; 5; 9; 14; 20; 5; 9; 14; 20; 5; 9; 14; 20;
   4; 11; 16; 23; 4; 11; 16; 23; 4; 11; 16; 23; 4; 11; 16; 23;
   6; 10; 15; 21; 6; 10; 15; 21; 6; 10; 15; 21; 6; 10; 15; 21].

(** [code.encode()] on an ASCII string. *)
Definition encode (s : string) : list Z :=
  map (fun c => Z.of_nat (nat_of_ascii c)) (list_ascii_of_string s).

(** The [k] low bytes of [n], least significant first. *)
Fixpoint le_bytes (k : nat) (n : Z) : list Z :=
  match k with
  | O => []
  | S k' => n mod 256 :: le_bytes k' (n / 256)
  end.

(** Padding to a multiple of 64 bytes: a one bit, zeros, the length in
    bits on 8 bytes. *)
Definition pad (msg : list Z) : list Z :=
  let len := Z.of_nat (List.length msg) in
  msg ++ [128] ++ repeat 0 (Z.to_nat ((55 - len) mod 64)) ++ le_bytes 8 (8 * len).

(** The bytes as 32-bit little-endian words. *)
Fixpoint words (bs : list Z) : list Z :=
  match bs with
  | b0 :: b1 :: b2 :: b3 :: r =>
      (b0 + 256 * b1 + 65536 * b2 + 16777216 * b3) :: words r
  | _ => []
  end.

Definition state : Type := (Z * Z * Z * Z)%type.

Definition round (M : list Z) (st : state) (i : nat) : state :=
  let '(a, b, c, d) := st in
  let iz := Z.of_nat i in
  let '(f, g) :=
    if iz <? 16 then (Z.lor (Z.land b c) (Z.land (lnot32 b) d), iz)
    else if iz <? 32 then (Z.lor (Z.land d b) (Z.land (lnot32 d) c), (5 * iz + 1) mod 16)
    else if iz <? 48 then (Z.lxor b (Z.lxor c d), (3 * iz + 5) mod 16)
    else (Z.lxor c (Z.lor b (lnot32 d)), (7 * iz) mod 16) in
  let f' := wrap (f + a + nth i K 0 + nth (Z.to_nat g) M 0) in
  (d, wrap (b + rotl f' (nth i R 0)), b, c).

Definition block (st : state) (M : list Z) : state :=
  let '(a, b, c, d) := st in
  let '(a', b', c', d') := fold_left (round M) (List.seq 0 64) st in
  (wrap (a + a'), wrap (b + b'), wrap (c + c'), wrap (d + d')).

Fixpoint blocks (fuel : nat) (ws : list Z) (st : state) : state :=
  match fuel, ws with
  | S fuel', _ :: _ => blocks fuel' (skipn 16 ws) (block st (firstn 16 ws))
  | _, _ => st
  end.

Definition digest (msg : list Z) : list Z :=
  let ws := words (pad msg) in
  let '(a, b, c, d) :=
    blocks (List.length ws) ws (1732584193, 4023233417, 2562383102, 271733878) in
  le_bytes 4 a ++ le_bytes 4 b ++ le_bytes 4 c ++ le_bytes 4 d.

Definition hex_char (n : Z) : ascii :=
  nth (Z.to_nat n) (list_ascii_of_string "0123456789abcdef") "0"%char.

Fixpoint hex (bs : list Z) : string :=
  match bs with
  | [] => EmptyString
  | b :: r => String (hex_char (b / 16)) (String (hex_char (b mod 16)) (hex r))
  end.

(** [hashlib.md5(data).hexdigest()]. *)
Definition hexdigest (s : string) : string := hex (digest (encode s)).

Definition hex_value (c : ascii) : option Z :=
  let n := Z.of_nat (nat_of_ascii c) in
  if (48 <=? n) && (n <=? 57) then Some (n - 48)
  else if (97 <=? n) && (n <=? 102) then Some (n - 87)
  else if (65 <=? n) && (n <=? 70) then Some (n - 55)
  else None.

(** [int(s, 16)] on a string of hex digits; [None] where Python raises. *)
Fixpoint int16_from (acc : Z) (s : string) : option Z :=
  match s with
  | EmptyString => Some acc
  | String c r =>
      match hex_value c with
      | Some v => int16_from (16 * acc + v) r
      | None => None
      end
  end.

Definition int16 (s : string) : option Z :=
  match s with
  | EmptyString => None
  | _ => int16_from 0 s
  end.

(** [int(hashlib.md5(code.encode()).hexdigest()[:8], 16)].  The digest
    is made of hex digits, so the conversion succeeds. *)
Definition md5_word (code : string) : Z :=
  match int16 (Text.take 8 (hexdigest code)) with
  | Some h => h
  | None => 0
  end.

End MD5.

Module Calendar.
Local Open Scope Z_scope.

(** Days since 1970-01-01 of a date of the proleptic Gregorian calendar,
    and back. *)
Definition days_from_civil (y m d : Z) : Z :=
  let y' := if m <=? 2 then y - 1 else y in
  let era := y' / 400 in
  let yoe := y' - era * 400 in
  let doy := (153 * (if 2 <? m then m - 3 else m + 9) + 2) / 5 + d - 1 in
  let doe := yoe * 365 + yoe / 4 - yoe / 100 + doy in
  era * 146097 + doe - 719468.

Definition civil_from_days (z : Z) : Z * Z * Z :=
  let z' := z + 719468 in
  let era := z' / 146097 in
  let doe := z' - era * 146097 in
  let yoe := (doe - doe / 1460 + doe / 36524 - doe / 146096) / 365 in
  let doy := doe - (365 * yoe + yoe / 4 - yoe / 100) in
  let mp := (5 * doy + 2) / 153 in
  let d := doy - (153 * mp + 2) / 5 + 1 in
  let m := if mp <? 10 then mp + 3 else mp - 9 in
  (yoe + era * 400 + (if m <=? 2 then 1 else 0), m, d).

Definition digit_value (c : ascii) : option Z :=
  let n := Z.of_nat (nat_of_ascii c) in
  if (48 <=? n) && (n <=? 57) then Some (n - 48) else None.

Fixpoint natural_from (acc : Z) (s : string) : option Z :=
  match s with
  | EmptyString => Some acc
  | String c r =>
      match digit_value c with
      | Some v => natural_from (10 * acc + v) r
      | None => None
      end
  end.

(** A non-empty string of decimal digits. *)
Definition natural (s : string) : option Z :=
  match s with
  | EmptyString => None
  | _ => natural_from 0 s
  end.

(** [pd.to_datetime] on [YYYY-MM-DD]. *)
Definition parse_date (s : string) : option Z :=
  match String.length s, get 4 s, get 7 s,
        natural (substring 0 4 s), natural (substring 5 2 s),
        natural (substring 8 2 s) with
  | 10%nat, Some "-"%char, Some "-"%char, Some y, Some m, Some d =>
      let z := days_from_civil y m d in
      let '(y', m', d') := civil_from_days z in
      if (y' =? y) && (m' =? m) && (d' =? d) then Some z else None
  | _, _, _, _, _, _ => None
  end.

(** [pd.to_numeric] on an optional sign, digits and an optional
    fraction. *)
Definition parse_number (s : string) : option Q :=
  let '(sign, body) :=
    match s with
    | String "-"%char r => ((-1)%Q, r)
    | _ => (1%Q, s)
    end in
  match index 0 "." body with
  | None => option_map (fun n => sign * inject_Z n)%Q (natural body)
  | Some i =>
      let frac := substring (S i) (String.length body - S i) body in
      match natural (substring 0 i body), natural frac with
      | Some a, Some b =>
          Some (sign * (inject_Z a
                        + inject_Z b / inject_Z (10 ^ Z.of_nat (String.length frac))))%Q
      | _, _ => None
      end
  end.

Definition digit_char (n : Z) : ascii := ascii_of_nat (48 + Z.to_nat n).

Definition two_digits (n : Z) : string :=
  String (digit_char (n / 10 mod 10)) (String (digit_char (n mod 10)) EmptyString).

Definition iso_date (z : Z) : string :=
  let '(y, m, d) := civil_from_days z in
  (two_digits (y / 100) ++ two_digits y ++ "-" ++ two_digits m ++ "-"
   ++ two_digits d)%string.

(** The Monday of the week of a day: 1970-01-01 was a Thursday. *)
Definition monday (z : Z) : Z := z - (z + 3) mod 7.

(** [dt.to_period("W").astype(str)]: the week from Monday to Sunday. *)
Definition week_label (z : Z) : string :=
  (iso_date (monday z) ++ "/" ++ iso_date (monday z + 6))%string.

(** The ordinal of [pd.Period(s, freq="W")] up to a constant, for a date
    or a week label; 0 where the string does not start with a date. *)
Definition period_of (s : string) : Z :=
  match parse_date (Text.take 10 s) with
  | Some z => (z + 3) / 7
  | None => 0
  end.

End Calendar.

(* ------------------------------------------------------------------ *)
(** ** A small data set

    Eight rows as they may stand in the CSV file, a geocoder that knows
    one full code and one FSA, and a two-week timeline for one shelter. *)

Module Demo.
Import Normalizer Timeline Renderer.
Local Open Scope string_scope.

Definition rows : list RawRow :=
  [mkRaw (Some "m5v 2t6") (Some "2024-01-02") (Num 50) (Num 40);
   mkRaw (Some "M5V2T6") (Some "2024-01-03") (Txt "70") (Num 60);
   mkRaw (Some "M4C1B5") (Some "2024-01-09") (Num 30) (Num 12);
   mkRaw (Some "M4C1B5") (Some "2023-12-20") (Num 30) (Num 10);
   mkRaw (Some "D1A1A1") (Some "2024-01-09") (Num 30) (Num 12);
   mkRaw None (Some "2024-01-09") (Num 30) (Num 12);
   mkRaw (Some "M4C1B5") (Some "yesterday") (Num 30) (Num 12);
   mkRaw (Some "M6G1A1") (Some "2024-01-09") NaN (Num 12)].

(** Rows of 2023 only. *)
Definition old_rows : list RawRow :=
  [mkRaw (Some "M4C1B5") (Some "2023-12-20") (Num 30) (Num 10);
   mkRaw (Some "M4C1B5") (Some "2023-12-27") (Num 30) (Num 11)].

Definition query_postal_code (c : string) : option Q * option Q :=
  if String.eqb c "M5V" then (Some (436289 # 10000), Some (-793944 # 10000))
  else if String.eqb c "M4C1B5" then (Some (4369 # 100), Some (-7931 # 100))
  else (None, None).

Definition clean := Normalizer.clean Calendar.parse_number Calendar.parse_date.

Definition points (rs : list RawRow) : list Resolver.Point :=
  Resolver.geo_frame query_postal_code (clean rs).

(** The frame after geocoding: two rows of M5V2T6 on one spot, two of
    M4C1B5 on another. *)
Definition twin1 : Resolver.Point :=
  Resolver.mkPoint (mkRow "M5V2T6" "M5V" 50 40 19724)
                   (436289 # 10000) (-793944 # 10000).
Definition twin2 : Resolver.Point :=
  Resolver.mkPoint (mkRow "M5V2T6" "M5V" 70 60 19725)
                   (436289 # 10000) (-793944 # 10000).
Definition frame : list Resolver.Point :=
  [twin1; twin2;
   Resolver.mkPoint (mkRow "M4C1B5" "M4C" 30 12 19731) (4369 # 100) (-7931 # 100);
   Resolver.mkPoint (mkRow "M4C1B5" "M4C" 30 10 19711) (4369 # 100) (-7931 # 100)].

(** A frame with a row that shares its spot with no other. *)
Definition lone : Resolver.Point :=
  Resolver.mkPoint (mkRow "M6G1A1" "M6G" 20 5 19731) (4366 # 100) (-7942 # 100).
Definition mixed_frame : list Resolver.Point := [twin1; lone; twin2].

Definition script :=
  Pipeline.script Calendar.parse_number Calendar.parse_date query_postal_code
                  MD5.md5_word Calendar.week_label Calendar.period_of true.

(** Shelter Y: rate 0.70 in week W1 and 0.95 in week W2. *)
Definition W1_frame : Frame := mkFrame 0 0 (70 # 100) 100 2000.
Definition W2_frame : Frame := mkFrame 0 0 (95 # 100) 120 2100.

Definition SHELTER_DATA : shelter_dict :=
  [("Y", [("W1", W1_frame); ("W2", W2_frame)])].

Definition BINS : list string := ["W1"; "W2"].

(** The state [init] leaves: week 0 shown, the rate of W1 stored; and
    the calls it makes. *)
Definition started : State :=
  mkState 0 false false [("Y", tt)] [("Y", 70 # 100)] true.

Definition boot_log : list call :=
  [AddCircle "Y" green 0 0 2000 (Some "#2e8b57");
   AddCircle "Y" blue 0 0 100 (Some "#386D9C");
   SetLatLng "Y" blue 0 0;
   SetLatLng "Y" green 0 0;
   SetStyle "Y" (Some "#386D9C");
   SetTooltip "Y" 70;
   SetRadius "Y" green 2000;
   SetRadius "Y" blue 100].

End Demo.

(* ------------------------------------------------------------------ *)
(** ** Vocabulary for statements about the timeline *)

Module Shape.
Import Timeline.

(** What a week map must be for the script: not empty, its keys pairwise
    distinct. *)
Definition good_weeks (weeks : Dict.t Frame) : Prop :=
  weeks <> [] /\ NoDup (Dict.keys weeks).

(** The week-bin column of a grouping key. *)
Definition bin_of (k : Binner.key) : string := fst (fst (fst k)).

(** Two rows are in week order: the bin of the first is not after the bin
    of the second, as Python compares strings. *)
Definition week_le (b1 b2 : string) : Prop := String.leb b1 b2 = true.



(** What binary rounding can add to or take from a difference of two
    Numbers below 2. *)
Definition slack : Q := 1 # 1000000000000000.

End Shape.

(* ------------------------------------------------------------------ *)
(** ** A timeline with a gap *)

Module Gap.
Import Timeline Renderer.
Local Open Scope string_scope.

(** Shelter Y has both weeks, shelter Z only the first. *)
Definition SHELTER_DATA : shelter_dict :=
  [("Y", [("W1", Demo.W1_frame); ("W2", Demo.W2_frame)]);
   ("Z", [("W1", Demo.W1_frame)])].

(** The state [init] leaves on it. *)
Definition started : State :=
  mkState 0 false false [("Y", tt); ("Z", tt)]
          [("Y", 70 # 100); ("Z", 70 # 100)] true.

End Gap.

(* ------------------------------------------------------------------ *)
(** ** Timelines with a step of one percentage point *)

Module Step.
Import Timeline Renderer.
Local Open Scope string_scope.

Definition frame (rate : Q) : Frame := mkFrame 0 0 rate 100 2000.

(** Shelter Y goes from 0.70 to 0.71, shelter Z from 0.20 to 0.21. *)
Definition SHELTER_DATA : shelter_dict :=
  [("Y", [("W1", frame (70 # 100)); ("W2", frame (71 # 100))]);
   ("Z", [("W1", frame (20 # 100)); ("W2", frame (21 # 100))])].

(** The state [init] leaves on it. *)
Definition started : State :=
  mkState 0 false false [("Y", tt); ("Z", tt)]
          [("Y", 70 # 100); ("Z", 20 # 100)] true.

End Step.

(* ================================================================== *)
(** * Properties *)

(* ------------------------------------------------------------------ *)
(** ** Rounding *)

Module NumFacts.
Import Num.

Lemma floor_bounds (q : Q) : inject_Z (Qfloor q) <= q < inject_Z (Qfloor q) + 1.
Proof.
  split; [apply Qfloor_le|].
  generalize (Qlt_floor q). rewrite inject_Z_plus. trivial.
Qed.

Lemma round_half_even_mono (a b : Q) :
  a <= b -> (round_half_even a <= round_half_even b)%Z.
Proof.
  intros Hab. unfold round_half_even.
  pose proof (Qfloor_resp_le _ _ Hab) as Hf.
  pose proof (floor_bounds a) as [Ha1 Ha2].
  pose proof (floor_bounds b) as [Hb1 Hb2].
  destruct (Z.eq_dec (Qfloor a) (Qfloor b)) as [E | N].
  - rewrite E in *.
    destruct (Qcompare_spec (a - inject_Z (Qfloor b)) (1 # 2));
      destruct (Qcompare_spec (b - inject_Z (Qfloor b)) (1 # 2));
      destruct (Z.even (Qfloor b)); try lia; exfalso; lra.
  - destruct (Qcompare_spec (a - inject_Z (Qfloor a)) (1 # 2));
      destruct (Qcompare_spec (b - inject_Z (Qfloor b)) (1 # 2));
      destruct (Z.even (Qfloor a)); destruct (Z.even (Qfloor b)); lia.
Qed.

Lemma pow10_pos (n : nat) : 0 < pow10 n.
Proof.
  unfold pow10. change 0 with (inject_Z 0). rewrite <- Zlt_Qlt.
  apply Z.pow_pos_nonneg; lia.
Qed.

Lemma py_round_mono (x y : Q) (n : nat) :
  x <= y -> py_round x n <= py_round y n.
Proof.
  intros H. unfold py_round.
  pose proof (pow10_pos n) as Hp.
  apply Qmult_le_compat_r.
  - rewrite <- Zle_Qle. apply round_half_even_mono.
    apply Qmult_le_compat_r; [exact H | apply Qlt_le_weak, Hp].
  - apply Qlt_le_weak, Qinv_lt_0_compat, Hp.
Qed.

Lemma py_round_eq (x y : Q) (n : nat) :
  x == y -> py_round x n == py_round y n.
Proof.
  intros H. apply Qle_antisym; apply py_round_mono; rewrite H; apply Qle_refl.
Qed.

Lemma py_min_spec (a b : Q) : py_min a b <= a /\ py_min a b <= b
                              /\ (py_min a b == a \/ py_min a b == b).
Proof. unfold py_min. destruct (Qlt_le_dec b a); repeat split; try lra; auto with qarith. Qed.

Lemma py_max_spec (a b : Q) : a <= py_max a b /\ b <= py_max a b
                              /\ (py_max a b == a \/ py_max a b == b).
Proof. unfold py_max. destruct (Qlt_le_dec a b); repeat split; try lra; auto with qarith. Qed.

Lemma round_half_even_close (q : Q) :
  Qabs (inject_Z (round_half_even q) - q) <= 1 # 2.
Proof.
  unfold round_half_even. pose proof (floor_bounds q) as [H1 H2].
  apply Qabs_Qle_condition.
  destruct (Qcompare_spec (q - inject_Z (Qfloor q)) (1 # 2)) as [E | L | G].
  - destruct (Z.even (Qfloor q)); rewrite ?inject_Z_plus;
      change (inject_Z 1) with 1; split; lra.
  - split; lra.
  - rewrite inject_Z_plus. change (inject_Z 1) with 1. split; lra.
Qed.

End NumFacts.

(* ------------------------------------------------------------------ *)
(** ** Binary64 rounding *)

Module DoubleFacts.
Import Num Double NumFacts.

Lemma pow2_pos (e : Z) : 0 < pow2 e.
Proof. apply Qpower_0_lt. reflexivity. Qed.

Lemma pow2_add (a b : Z) : pow2 (a + b) == pow2 a * pow2 b.
Proof. apply Qpower_plus. discriminate. Qed.

Lemma pow2_sub (a b : Z) : pow2 (a - b) == pow2 a / pow2 b.
Proof. apply Qpower_minus. discriminate. Qed.

Lemma pow2_le (a b : Z) : (a <= b)%Z -> pow2 a <= pow2 b.
Proof. intros H. apply Qpower_le_compat_l; [exact H | discriminate]. Qed.

Lemma pow2_lt (a b : Z) : (a < b)%Z -> pow2 a < pow2 b.
Proof. intros H. apply Qpower_lt_compat_l; [exact H | reflexivity]. Qed.

Lemma pow2_lt_inv (a b : Z) : pow2 a < pow2 b -> (a < b)%Z.
Proof. intros H. apply (Qpower_lt_compat_l_inv 2); [exact H | reflexivity]. Qed.

Lemma pow2_Z (n : Z) : (0 <= n)%Z -> pow2 n == inject_Z (2 ^ n).
Proof. intros H. unfold pow2. rewrite Zpower_Qpower by exact H. reflexivity. Qed.

Lemma pow2_succ (a : Z) : pow2 (a + 1) == 2 * pow2 a.
Proof. rewrite pow2_add. change (pow2 1) with 2. ring. Qed.

(** The bounds [Z.log2] gives for a positive integer, as rationals. *)
Lemma log2_bounds (n : Z) :
  (0 < n)%Z ->
  pow2 (Z.log2 n) <= inject_Z n < pow2 (Z.log2 n + 1).
Proof.
  intros Hn. destruct (Z.log2_spec n Hn) as [L U].
  pose proof (Z.log2_nonneg n) as Hl.
  rewrite !pow2_Z by lia. rewrite <- Zle_Qle, <- Zlt_Qlt.
  replace (Z.log2 n + 1)%Z with (Z.succ (Z.log2 n)) by lia. split; assumption.
Qed.

Lemma ilog2_spec (x : Q) :
  0 < x -> pow2 (ilog2 x) <= x < pow2 (ilog2 x + 1).
Proof.
  intros Hx. destruct x as [n d]. unfold ilog2. cbn [Qnum Qden].
  assert (Hn : (0 < n)%Z) by (unfold Qlt in Hx; simpl in Hx; lia).
  pose proof (log2_bounds n Hn) as [NL NU].
  pose proof (log2_bounds (Zpos d) eq_refl) as [DL DU].
  set (a := Z.log2 n) in *. set (b := Z.log2 (Zpos d)) in *.
  assert (Hd : 0 < inject_Z (Zpos d)) by reflexivity.
  assert (E : n # d == inject_Z n / inject_Z (Zpos d)) by apply Qmake_Qdiv.
  pose proof (pow2_pos a) as Pa. pose proof (pow2_pos b) as Pb.
  pose proof (pow2_succ a) as Sa. pose proof (pow2_succ b) as Sb.
  set (N := inject_Z n) in *. set (D := inject_Z (Zpos d)) in *.
  (* 2^(a-b-1) <= n/d < 2^(a-b+1) *)
  assert (Lo : pow2 (a - b - 1) <= n # d).
  { rewrite E. replace (a - b - 1)%Z with (a - (b + 1))%Z by lia.
    rewrite pow2_sub, Sb. apply Qle_shift_div_l; [exact Hd|].
    setoid_replace (pow2 a / (2 * pow2 b) * D) with (pow2 a * (D / (2 * pow2 b)))
      by (field; lra).
    assert (D / (2 * pow2 b) <= 1) by (apply Qle_shift_div_r; lra).
    nra. }
  assert (Hi : n # d < pow2 (a - b + 1)).
  { rewrite E. replace (a - b + 1)%Z with (a + 1 - b)%Z by lia.
    rewrite pow2_sub, Sa. apply Qlt_shift_div_r; [exact Hd|].
    setoid_replace (2 * pow2 a / pow2 b * D) with (2 * pow2 a * (D / pow2 b))
      by (field; lra).
    assert (1 <= D / pow2 b) by (apply Qle_shift_div_l; lra).
    nra. }
  destruct (Qle_bool (pow2 (a - b)) (n # d)) eqn:B.
  - apply Qle_bool_iff in B. split; assumption.
  - assert (B' : n # d < pow2 (a - b)).
    { apply Qnot_le_lt. intros C. apply Qle_bool_iff in C. congruence. }
    replace (a - b - 1 + 1)%Z with (a - b)%Z by lia. split; assumption.
Qed.

Lemma ilog2_unique (x : Q) (e : Z) :
  pow2 e <= x < pow2 (e + 1) -> ilog2 x = e.
Proof.
  intros [L U].
  assert (Hx : 0 < x) by (pose proof (pow2_pos e); lra).
  destruct (ilog2_spec x Hx) as [L' U'].
  assert (pow2 e < pow2 (ilog2 x + 1)) by lra.
  assert (pow2 (ilog2 x) < pow2 (e + 1)) by lra.
  apply pow2_lt_inv in H, H0. lia.
Qed.

Lemma ilog2_mono (x y : Q) : 0 < x -> x <= y -> (ilog2 x <= ilog2 y)%Z.
Proof.
  intros Hx Hxy.
  destruct (ilog2_spec x Hx) as [L _].
  destruct (ilog2_spec y) as [_ U]; [lra|].
  assert (H : pow2 (ilog2 x) < pow2 (ilog2 y + 1)) by lra.
  apply pow2_lt_inv in H. lia.
Qed.

Lemma ilog2_comp (x y : Q) : 0 < x -> x == y -> ilog2 x = ilog2 y.
Proof.
  intros Hx E. symmetry. apply ilog2_unique. rewrite <- E. apply ilog2_spec, Hx.
Qed.


(** *** Rounding to an integer *)

Lemma round_half_even_comp (x y : Q) :
  x == y -> round_half_even x = round_half_even y.
Proof.
  intros E. apply Z.le_antisymm; apply round_half_even_mono; rewrite E; apply Qle_refl.
Qed.

Lemma round_half_even_int (z : Z) : round_half_even (inject_Z z) = z.
Proof.
  unfold round_half_even. rewrite Qfloor_Z.
  destruct (Qcompare_spec (inject_Z z - inject_Z z) (1 # 2)) as [E | L | G];
    [exfalso; lra | reflexivity | exfalso; lra].
Qed.

Lemma round_half_even_opp (x : Q) :
  round_half_even (- x) = (- round_half_even x)%Z.
Proof.
  pose proof (floor_bounds x) as [A1 A2]. pose proof (floor_bounds (- x)) as [B1 B2].
  destruct (Qeq_dec x (inject_Z (Qfloor x))) as [E | N].
  - rewrite (round_half_even_comp x _ E).
    rewrite (round_half_even_comp (- x) (inject_Z (- Qfloor x))).
    + rewrite !round_half_even_int. reflexivity.
    + rewrite inject_Z_opp, <- E. reflexivity.
  - assert (F : Qfloor (- x) = (- Qfloor x - 1)%Z).
    { assert (inject_Z (Qfloor x) < x) by (apply Qle_lteq in A1; destruct A1; [assumption | exfalso; apply N; symmetry; assumption]).
      assert (U : inject_Z (- Qfloor x - 1) <= - x).
      { unfold Zminus. rewrite inject_Z_plus, !inject_Z_opp. change (inject_Z 1) with 1. lra. }
      assert (V : - x < inject_Z (- Qfloor x - 1 + 1)).
      { replace (- Qfloor x - 1 + 1)%Z with (- Qfloor x)%Z by lia.
        rewrite inject_Z_opp. lra. }
      apply Qfloor_resp_le in U. rewrite Qfloor_Z in U.
      assert (W : (Qfloor (- x) < - Qfloor x - 1 + 1)%Z).
      { rewrite Zlt_Qlt. eapply Qle_lt_trans; [apply Qfloor_le | exact V]. }
      lia. }
    unfold round_half_even. rewrite F.
    assert (K : inject_Z (- Qfloor x - 1) == - inject_Z (Qfloor x) - 1).
    { unfold Zminus. rewrite inject_Z_plus, !inject_Z_opp. reflexivity. }
    destruct (Qcompare_spec (- x - inject_Z (- Qfloor x - 1)) (1 # 2)) as [E1 | L1 | G1];
      destruct (Qcompare_spec (x - inject_Z (Qfloor x)) (1 # 2)) as [E2 | L2 | G2];
      rewrite K in *; try (exfalso; lra); try lia.
    replace (- Qfloor x - 1)%Z with (- (Qfloor x + 1))%Z by lia.
    rewrite Z.even_opp. replace (Qfloor x + 1)%Z with (Z.succ (Qfloor x)) by lia.
    rewrite Z.even_succ, <- Z.negb_even.
    destruct (Z.even (Qfloor x)); simpl; lia.
Qed.


(** *** Rounding to binary64 *)

Lemma round_zero (x : Q) : x == 0 -> round x = 0.
Proof.
  intros E. unfold round. apply Qeq_bool_iff in E. rewrite E. reflexivity.
Qed.

Lemma round_nonzero (x : Q) :
  ~ x == 0 ->
  round x = inject_Z (round_half_even (x / pow2 (quantum x))) * pow2 (quantum x).
Proof.
  intros N. unfold round. destruct (Qeq_bool x 0) eqn:B; [|reflexivity].
  apply Qeq_bool_iff in B. contradiction.
Qed.



Lemma quantum_opp (x : Q) : quantum (- x) = quantum x.
Proof.
  unfold quantum. destruct x as [n d]. unfold Qabs, Qopp. cbn [Qnum Qden].
  rewrite Z.abs_opp. reflexivity.
Qed.

Lemma round_opp (x : Q) : round (- x) == - round x.
Proof.
  destruct (Qeq_dec x 0) as [Z | N].
  - rewrite (round_zero x Z), (round_zero (- x)); [reflexivity | lra].
  - rewrite (round_nonzero x N), (round_nonzero (- x)) by lra.
    rewrite quantum_opp.
    rewrite (round_half_even_comp (- x / pow2 (quantum x)) (- (x / pow2 (quantum x)))).
    + rewrite round_half_even_opp, inject_Z_opp. ring.
    + pose proof (pow2_pos (quantum x)). field. lra.
Qed.

Lemma quantum_pos (x : Q) :
  0 < x -> quantum x = Z.max (ilog2 x - 52) (-1074).
Proof.
  intros Hx. unfold quantum. f_equal. f_equal. apply ilog2_comp.
  - rewrite Qabs_pos; lra.
  - apply Qabs_pos. lra.
Qed.

(** The scaled number lies in the binade of its exponent. *)
Lemma scaled_bounds (x : Q) :
  0 < x ->
  pow2 (ilog2 x - quantum x) <= x / pow2 (quantum x)
                             < pow2 (ilog2 x + 1 - quantum x).
Proof.
  intros Hx. destruct (ilog2_spec x Hx) as [L U].
  pose proof (pow2_pos (quantum x)) as Hq.
  rewrite !pow2_sub. split.
  - apply Qle_shift_div_l; [exact Hq|].
    setoid_replace (pow2 (ilog2 x) / pow2 (quantum x) * pow2 (quantum x))
      with (pow2 (ilog2 x)) by (field; lra). exact L.
  - apply Qlt_shift_div_r; [exact Hq|].
    setoid_replace (pow2 (ilog2 x + 1) / pow2 (quantum x) * pow2 (quantum x))
      with (pow2 (ilog2 x + 1)) by (field; lra). exact U.
Qed.

Lemma round_upper (x : Q) :
  0 < x -> round x <= pow2 (Z.max (ilog2 x + 1) (quantum x)).
Proof.
  intros Hx. rewrite round_nonzero by lra.
  destruct (scaled_bounds x Hx) as [_ U].
  set (q := quantum x) in *. set (e := ilog2 x) in *.
  set (m := Z.max (e + 1 - q) 0).
  assert (Hm : x / pow2 q <= inject_Z (2 ^ m)).
  { rewrite <- pow2_Z by lia. apply Qlt_le_weak. eapply Qlt_le_trans; [exact U|].
    apply pow2_le. lia. }
  apply round_half_even_mono in Hm. rewrite round_half_even_int in Hm.
  rewrite Zle_Qle in Hm. rewrite <- pow2_Z in Hm by lia.
  replace (Z.max (e + 1) q) with (m + q)%Z by lia.
  rewrite pow2_add. apply Qmult_le_compat_r; [exact Hm|].
  apply Qlt_le_weak, pow2_pos.
Qed.

Lemma round_lower (x : Q) :
  0 < x -> (quantum x <= ilog2 x)%Z -> pow2 (ilog2 x) <= round x.
Proof.
  intros Hx Hq. rewrite round_nonzero by lra.
  destruct (scaled_bounds x Hx) as [L _].
  set (q := quantum x) in *. set (e := ilog2 x) in *.
  rewrite pow2_Z in L by lia.
  apply round_half_even_mono in L. rewrite round_half_even_int in L.
  rewrite Zle_Qle in L. rewrite <- pow2_Z in L by lia.
  replace e with (e - q + q)%Z at 1 by lia.
  rewrite pow2_add. apply Qmult_le_compat_r; [exact L|].
  apply Qlt_le_weak, pow2_pos.
Qed.

Lemma round_nonneg (x : Q) : 0 <= x -> 0 <= round x.
Proof.
  intros Hx. destruct (Qeq_dec x 0) as [Z | N].
  - rewrite (round_zero x Z). apply Qle_refl.
  - rewrite round_nonzero by exact N.
    pose proof (pow2_pos (quantum x)) as Hq.
    assert (H : inject_Z 0 <= x / pow2 (quantum x)).
    { apply Qle_shift_div_l; [exact Hq|]. change (inject_Z 0) with 0. lra. }
    apply round_half_even_mono in H. rewrite round_half_even_int in H.
    rewrite Zle_Qle in H. change (inject_Z 0) with 0 in H.
    apply Qmult_le_0_compat; lra.
Qed.

Lemma round_mono_pos (x y : Q) : 0 < x -> x <= y -> round x <= round y.
Proof.
  intros Hx Hxy. assert (Hy : 0 < y) by lra.
  pose proof (ilog2_mono x y Hx Hxy) as He.
  pose proof (quantum_pos x Hx) as Qx. pose proof (quantum_pos y Hy) as Qy.
  destruct (Z.eq_dec (quantum x) (quantum y)) as [E | N].
  - rewrite (round_nonzero x), (round_nonzero y) by lra. rewrite E.
    pose proof (pow2_pos (quantum y)) as Hq.
    apply Qmult_le_compat_r; [|lra].
    rewrite <- Zle_Qle. apply round_half_even_mono.
    apply Qmult_le_compat_r; [exact Hxy|]. apply Qlt_le_weak, Qinv_lt_0_compat, Hq.
  - eapply Qle_trans; [apply round_upper, Hx|].
    eapply Qle_trans; [|apply round_lower; [exact Hy | lia]].
    apply pow2_le. lia.
Qed.

Lemma round_mono (x y : Q) : x <= y -> round x <= round y.
Proof.
  intros Hxy.
  destruct (Qlt_le_dec 0 x) as [Px | Nx].
  - apply round_mono_pos; assumption.
  - destruct (Qlt_le_dec y 0) as [Ny | Py].
    + (* both negative *)
      assert (H : round (- y) <= round (- x)) by (apply round_mono_pos; lra).
      rewrite !round_opp in H. lra.
    + assert (A : 0 <= round (- x)) by (apply round_nonneg; lra).
      rewrite round_opp in A.
      pose proof (round_nonneg y Py). lra.
Qed.





(** The rounding error is at most half a unit in the last place. *)
Lemma round_error (x : Q) :
  ~ x == 0 -> Qabs (round x - x) <= pow2 (quantum x - 1).
Proof.
  intros N. rewrite round_nonzero by exact N.
  pose proof (pow2_pos (quantum x)) as Pq. set (q := quantum x) in *.
  pose proof (round_half_even_close (x / pow2 q)) as H.
  apply Qabs_Qle_condition in H. destruct H as [H1 H2].
  set (z := inject_Z (round_half_even (x / pow2 q))) in *.
  assert (E : pow2 (q - 1) == pow2 q * (1 # 2)).
  { rewrite pow2_sub. change (pow2 1) with 2. field. }
  assert (K : z * pow2 q - x == (z - x / pow2 q) * pow2 q) by (field; lra).
  rewrite E, K. apply Qabs_Qle_condition. split; nra.
Qed.

Lemma round_error_below (x : Q) (k : Z) :
  Qabs x < pow2 k -> (-1021 <= k)%Z ->
  Qabs (round x - x) <= pow2 (k - 54).
Proof.
  intros Hx Hk. destruct (Qeq_dec x 0) as [Z0 | N].
  - rewrite (round_zero x Z0).
    setoid_replace (0 - x) with 0 by lra. apply Qlt_le_weak, pow2_pos.
  - eapply Qle_trans; [apply round_error, N|]. apply pow2_le.
    assert (Ha : 0 < Qabs x).
    { destruct (Qlt_le_dec 0 x) as [P | P].
      - rewrite Qabs_pos; lra.
      - rewrite Qabs_neg; [|exact P].
        apply Qle_lteq in P. destruct P as [P | P]; [lra | contradiction]. }
    destruct (ilog2_spec (Qabs x) Ha) as [L _].
    assert (He : (ilog2 (Qabs x) < k)%Z) by (apply pow2_lt_inv; lra).
    unfold quantum. lia.
Qed.

End DoubleFacts.

(* ------------------------------------------------------------------ *)
(** ** Radius scaling *)

Module MapperFacts.
Import Num NumFacts Mapper.

Lemma series_min_le (xs : list Q) (m : Q) :
  series_min xs = Some m -> forall c, In c xs -> m <= c.
Proof.
  revert m. induction xs as [| x r IH]; intros m Hm c Hc; [destruct Hc|].
  simpl in Hm. destruct (series_min r) as [m'|] eqn:Er.
  - injection Hm as <-. destruct Hc as [<- | Hc].
    + destruct (Qlt_le_dec x m'); lra.
    + specialize (IH m' eq_refl c Hc). destruct (Qlt_le_dec x m'); lra.
  - injection Hm as <-. destruct r; [|simpl in Er; destruct (series_min r); discriminate].
    destruct Hc as [<- | []]. apply Qle_refl.
Qed.

Lemma series_max_ge (xs : list Q) (m : Q) :
  series_max xs = Some m -> forall c, In c xs -> c <= m.
Proof.
  revert m. induction xs as [| x r IH]; intros m Hm c Hc; [destruct Hc|].
  simpl in Hm. destruct (series_max r) as [m'|] eqn:Er.
  - injection Hm as <-. destruct Hc as [<- | Hc].
    + destruct (Qlt_le_dec m' x); lra.
    + specialize (IH m' eq_refl c Hc). destruct (Qlt_le_dec m' x); lra.
  - injection Hm as <-. destruct r; [|simpl in Er; destruct (series_max r); discriminate].
    destruct Hc as [<- | []]. apply Qle_refl.
Qed.

(** After the guard of line 118 the denominator is positive. *)
Lemma cap_bounds_lt (caps : list Q) (lo hi : Q) :
  cap_bounds caps = Some (lo, hi) -> lo < hi.
Proof.
  unfold cap_bounds.
  destruct (series_min caps) as [m|]; [|discriminate].
  destruct (series_max caps) as [M|]; [|discriminate].
  destruct (Qle_bool M m) eqn:E; intros H; injection H as <- <-.
  - lra.
  - apply Qnot_le_lt. intros C. apply Qle_bool_iff in C. congruence.
Qed.

Lemma cap_bounds_min (caps : list Q) (lo hi : Q) :
  cap_bounds caps = Some (lo, hi) -> series_min caps = Some lo.
Proof.
  unfold cap_bounds.
  destruct (series_min caps) as [m|]; [|discriminate].
  destruct (series_max caps) as [M|]; [|discriminate].
  destruct (Qle_bool M m); intros H; injection H as <- <-; reflexivity.
Qed.

Section Scale.
Variables lo hi : Q.
Hypothesis lo_lt_hi : lo < hi.

Lemma unit_pos_range (c : Q) : 0 <= unit_pos lo hi c <= 1.
Proof.
  unfold unit_pos.
  set (v := (c - lo) / (hi - lo)).
  pose proof (py_min_spec 1 v) as (H1 & H2 & H3).
  pose proof (py_max_spec 0 (py_min 1 v)) as (H4 & H5 & [H6 | H6]); lra.
Qed.

Lemma unit_pos_mono (c1 c2 : Q) :
  c1 <= c2 -> unit_pos lo hi c1 <= unit_pos lo hi c2.
Proof.
  intros H. unfold unit_pos.
  assert (Hv : (c1 - lo) / (hi - lo) <= (c2 - lo) / (hi - lo)).
  { apply Qmult_le_compat_r; [lra|].
    apply Qlt_le_weak, Qinv_lt_0_compat. lra. }
  set (v1 := (c1 - lo) / (hi - lo)) in *.
  set (v2 := (c2 - lo) / (hi - lo)) in *.
  pose proof (py_min_spec 1 v1) as (A1 & A2 & A3).
  pose proof (py_min_spec 1 v2) as (B1 & B2 & B3).
  pose proof (py_max_spec 0 (py_min 1 v1)) as (C1 & C2 & C3).
  pose proof (py_max_spec 0 (py_min 1 v2)) as (D1 & D2 & D3).
  destruct A3, B3, C3, D3; lra.
Qed.

Lemma unit_pos_at_min (c : Q) : c == lo -> unit_pos lo hi c == 0.
Proof.
  intros E. unfold unit_pos.
  assert (Hv : (c - lo) / (hi - lo) == 0).
  { setoid_replace (c - lo) with 0 by lra. unfold Qdiv. lra. }
  set (v := (c - lo) / (hi - lo)) in *.
  pose proof (py_min_spec 1 v) as (A1 & A2 & A3).
  pose proof (py_max_spec 0 (py_min 1 v)) as (C1 & C2 & C3).
  destruct A3, C3; lra.
Qed.

Lemma cap_radius_mono (c1 c2 : Q) :
  c1 <= c2 -> cap_radius lo hi c1 <= cap_radius lo hi c2.
Proof.
  intros H. unfold cap_radius. apply py_round_mono.
  pose proof (unit_pos_mono c1 c2 H).
  unfold CAP_MIN_R, CAP_MAX_R. lra.
Qed.

Lemma green_radius_mono (c1 c2 : Q) :
  c1 <= c2 -> green_radius lo hi c1 <= green_radius lo hi c2.
Proof.
  intros H. unfold green_radius. apply py_round_mono.
  pose proof (unit_pos_mono c1 c2 H).
  assert (0 <= GREEN_MAX_M - GREEN_MIN_M) by (vm_compute; discriminate).
  nra.
Qed.

Lemma cap_radius_range (c : Q) :
  CAP_MIN_R <= cap_radius lo hi c <= CAP_MAX_R.
Proof.
  pose proof (unit_pos_range c) as [H0 H1]. unfold cap_radius.
  split.
  - apply Qle_trans with (py_round CAP_MIN_R 1); [vm_compute; discriminate|].
    apply py_round_mono. unfold CAP_MIN_R, CAP_MAX_R. lra.
  - apply Qle_trans with (py_round CAP_MAX_R 1); [|vm_compute; discriminate].
    apply py_round_mono. unfold CAP_MIN_R, CAP_MAX_R. lra.
Qed.

Lemma green_radius_range (c : Q) :
  py_round GREEN_MIN_M 1 <= green_radius lo hi c <= py_round GREEN_MAX_M 1.
Proof.
  pose proof (unit_pos_range c) as [H0 H1]. unfold green_radius.
  assert (Hd : GREEN_MAX_M - GREEN_MIN_M == 2011680 # 1000) by reflexivity.
  split; apply py_round_mono; rewrite Hd.
  - lra.
  - setoid_replace GREEN_MAX_M with (GREEN_MIN_M + (2011680 # 1000)) by reflexivity.
    lra.
Qed.
End Scale.

(** C4, as the specification states it, fails: on the capacities 10 and
    20 the halo radius of the smallest shelter is 1207.0 m, below the
    configured minimum of 0.75 miles (1207.008 m), and that of the
    largest is 3218.7 m, above the configured maximum of 2 miles
    (3218.688 m).  Both come from the rounding to one decimal. *)
Lemma halo_radius_leaves_configured_bounds :
  cap_bounds [10; 20] = Some (10, 20) /\
  green_radius 10 20 10 == 1207 /\
  green_radius 10 20 10 < GREEN_MIN_M /\
  green_radius 10 20 20 == 32187 # 10 /\
  GREEN_MAX_M < green_radius 10 20 20.
Proof. repeat split. Qed.

(** C4 (amended): with [cap_min], [cap_max] taken from one data set,
    both radius mappings are monotone non-decreasing in the capacity;
    every primary radius lies in [80, 500]; every halo radius lies
    between the configured bounds rounded to one decimal, 1207.0 and
    3218.7 metres; and the halo radius is never below the primary lower
    bound, as the configured halo minimum is not. *)
Theorem radius_monotone_and_bounded :
  forall (caps : list Q) (lo hi c1 c2 : Q),
    cap_bounds caps = Some (lo, hi) ->
    c1 < c2 ->
    cap_radius lo hi c1 <= cap_radius lo hi c2 /\
    green_radius lo hi c1 <= green_radius lo hi c2 /\
    (forall c : Q,
        (CAP_MIN_R <= cap_radius lo hi c <= CAP_MAX_R) /\
        (1207 <= green_radius lo hi c <= 32187 # 10) /\
        CAP_MIN_R <= green_radius lo hi c) /\
    CAP_MIN_R <= GREEN_MIN_M.
Proof.
  intros caps lo hi c1 c2 Hb Hc.
  pose proof (cap_bounds_lt _ _ _ Hb) as Hlt.
  split; [apply cap_radius_mono; auto with qarith|].
  split; [apply green_radius_mono; auto with qarith|].
  split; [|vm_compute; discriminate].
  intros c.
  pose proof (green_radius_range lo hi c) as [G1 G2].
  assert (E1 : py_round GREEN_MIN_M 1 == 1207) by reflexivity.
  assert (E2 : py_round GREEN_MAX_M 1 == 32187 # 10) by reflexivity.
  rewrite E1 in G1. rewrite E2 in G2.
  split; [apply cap_radius_range|].
  split; [split; assumption|].
  unfold CAP_MIN_R. lra.
Qed.

Lemma radius_monotone_and_bounded_witness :
  cap_bounds [10; 20; 35] = Some (10, 35) /\
  12 < 30 /\
  cap_radius 10 35 12 <= cap_radius 10 35 30 /\
  green_radius 10 35 12 <= green_radius 10 35 30.
Proof.
  split; [reflexivity|]. split; [reflexivity|].
  destruct (radius_monotone_and_bounded [10; 20; 35] 10 35 12 30)
    as (H1 & H2 & _); [reflexivity | reflexivity |].
  split; assumption.
Defined.

End MapperFacts.

(* ------------------------------------------------------------------ *)
(** ** The degenerate capacity range *)

Module DegenerateRange.
Import Num NumFacts Mapper MapperFacts Timeline.

Lemma scale_rows (agg : list Binner.Sample) (lo hi : Q) (r : Scaled) :
  cap_bounds (map Binner.total_cap agg) = Some (lo, hi) ->
  In r (scale agg) ->
  In (sample r) agg /\
  s_radius r = cap_radius lo hi (Binner.total_cap (sample r)) /\
  s_green r = green_radius lo hi (Binner.total_cap (sample r)).
Proof.
  intros Hb Hr. unfold scale in Hr. rewrite Hb in Hr.
  apply in_map_iff in Hr. destruct Hr as (s & <- & Hs). simpl. auto.
Qed.

Lemma scale_covers (agg : list Binner.Sample) (lo hi : Q) :
  cap_bounds (map Binner.total_cap agg) = Some (lo, hi) ->
  map sample (scale agg) = agg.
Proof.
  intros Hb. unfold scale. rewrite Hb. rewrite map_map. simpl. apply map_id.
Qed.

(** C6: when the largest observed capacity equals the smallest, the
    guard sets [cap_max] to [cap_min + 1], so the denominator of the
    interpolation is 1.  Every row of [agg] is then scaled, once and in
    its place, and the radius column of every row is the minimum primary
    radius: each sample of the data set is mapped to 80. *)
Theorem degenerate_range_gives_min_radius :
  forall (agg : list Binner.Sample) (m M : Q),
    series_min (map Binner.total_cap agg) = Some m ->
    series_max (map Binner.total_cap agg) = Some M ->
    M == m ->
    cap_bounds (map Binner.total_cap agg) = Some (m, m + 1) /\
    (m + 1) - m == 1 /\
    map sample (scale agg) = agg /\
    (forall r : Scaled, In r (scale agg) -> s_radius r == CAP_MIN_R) /\
    (forall s : Binner.Sample,
        In s agg ->
        cap_radius m (m + 1) (Binner.total_cap s) == CAP_MIN_R /\
        exists r : Scaled,
          In r (scale agg) /\ sample r = s /\ s_radius r == CAP_MIN_R).
Proof.
  intros agg m M Hm HM E.
  assert (Hb : cap_bounds (map Binner.total_cap agg) = Some (m, m + 1)).
  { unfold cap_bounds. rewrite Hm, HM.
    assert (Qle_bool M m = true) as -> by (apply Qle_bool_iff; lra).
    reflexivity. }
  split; [exact Hb|]. split; [lra|].
  split; [apply (scale_covers agg m (m + 1) Hb)|].
  assert (Hall : forall r : Scaled, In r (scale agg) -> s_radius r == CAP_MIN_R);
    [| split; [exact Hall|];
       intros s Hs;
       assert (Hr : In (mkScaled s (cap_radius m (m + 1) (Binner.total_cap s))
                                 (green_radius m (m + 1) (Binner.total_cap s)))
                       (scale agg))
         by (unfold scale; rewrite Hb; apply in_map_iff; exists s; auto);
       split; [apply (Hall _ Hr)|];
       eexists; split; [exact Hr|]; split; [reflexivity | apply (Hall _ Hr)]].
  intros r Hr.
  destruct (scale_rows _ _ _ _ Hb Hr) as (Hin & -> & _).
  set (c := Binner.total_cap (sample r)).
  assert (Hc : In c (map Binner.total_cap agg)) by (apply in_map; exact Hin).
  pose proof (series_min_le _ _ Hm c Hc).
  pose proof (series_max_ge _ _ HM c Hc).
  assert (Hlt : m < m + 1) by lra.
  assert (Hu : unit_pos m (m + 1) c == 0) by (apply unit_pos_at_min; lra).
  unfold cap_radius.
  rewrite (py_round_eq _ CAP_MIN_R 1).
  - reflexivity.
  - rewrite Hu. unfold CAP_MIN_R, CAP_MAX_R. lra.
Qed.

End DegenerateRange.

(* ------------------------------------------------------------------ *)
(** ** Dictionaries *)

Module DictFacts.
Import Dict.

Lemma get_set_same {V} (d : t V) (k : string) (v : V) :
  get (set d k v) k = Some v.
Proof.
  induction d as [| [k' v'] r IH]; simpl.
  - now rewrite String.eqb_refl.
  - destruct (String.eqb k k') eqn:E; simpl; rewrite E; auto.
Qed.

Lemma get_set_other {V} (d : t V) (k k' : string) (v : V) :
  k <> k' -> get (set d k v) k' = get d k'.
Proof.
  intros N. induction d as [| [k0 v0] r IH]; simpl.
  - destruct (String.eqb_spec k' k); [congruence | reflexivity].
  - destruct (String.eqb_spec k k0) as [-> | N0]; simpl.
    + destruct (String.eqb_spec k' k0); [congruence | reflexivity].
    + destruct (String.eqb_spec k' k0); [reflexivity | exact IH].
Qed.

Lemma keys_set {V} (d : t V) (k : string) (v : V) :
  keys (set d k v) = if mem d k then keys d else keys d ++ [k].
Proof.
  unfold mem. induction d as [| [k0 v0] r IH]; simpl; [reflexivity|].
  destruct (String.eqb_spec k k0) as [-> | N]; simpl; [reflexivity|].
  unfold keys in *. rewrite IH. destruct (get r k); reflexivity.
Qed.

Lemma get_in_keys {V} (d : t V) (k : string) :
  In k (keys d) <-> get d k <> None.
Proof.
  induction d as [| [k0 v0] r IH]; simpl; [tauto|].
  destruct (String.eqb_spec k k0) as [-> | N].
  - split; [discriminate | auto].
  - rewrite <- IH. split; [intros [E | H]; [congruence | exact H] | auto].
Qed.

(** Assignment keeps the keys of a dictionary pairwise distinct. *)
Lemma set_NoDup {V} (d : t V) (k : string) (v : V) :
  NoDup (keys d) -> NoDup (keys (set d k v)).
Proof.
  intros H. rewrite keys_set. unfold mem.
  destruct (get d k) eqn:E; [exact H|].
  apply NoDup_app; [exact H | repeat constructor; intros [] |].
  intros x Hx [<- | []]. apply get_in_keys in Hx. congruence.
Qed.

End DictFacts.

(* ------------------------------------------------------------------ *)
(** ** The colour scale *)

Module ColourFacts.
Import Num NumFacts Double DoubleFacts Renderer Shape.


Lemma js_round_mono (x y : Q) : x <= y -> (js_round x <= js_round y)%Z.
Proof. intros H. unfold js_round. apply Qfloor_resp_le. lra. Qed.

Lemma js_min_mono (x y c : Q) : x <= y -> js_min x c <= js_min y c.
Proof.
  intros H. unfold js_min.
  destruct (Qlt_le_dec c x), (Qlt_le_dec c y); lra.
Qed.

(** *** The literals of [rateColor] *)

Lemma lit_half : lit (5 # 10) == 5 # 10.
Proof. vm_compute. reflexivity. Qed.

Lemma lit_08_above : 8 # 10 < lit (8 # 10).
Proof. vm_compute. reflexivity. Qed.

Lemma lit_02_pos : 0 < lit (2 # 10).
Proof. vm_compute. reflexivity. Qed.

Lemma lit_mono (x y : Q) : x <= y -> lit x <= lit y.
Proof. apply round_mono. Qed.



(** *** The palette position *)

Lemma palette_pos_mono (r1 r2 : Q) :
  lit r1 <= lit r2 -> palette_pos r1 <= palette_pos r2.
Proof.
  intros H. unfold palette_pos, mul, div, sub.
  change (inject_Z (PALETTE_length - 1)) with 8.
  pose proof lit_02_pos as P2.
  apply round_mono.
  apply Qmult_le_compat_r; [|discriminate].
  apply js_min_mono, round_mono.
  apply Qmult_le_compat_r; [|apply Qlt_le_weak, Qinv_lt_0_compat, P2].
  apply round_mono. lra.
Qed.

Lemma palette_pos_comp (r1 r2 : Q) :
  lit r1 == lit r2 -> palette_pos r1 == palette_pos r2.
Proof.
  intros E. apply Qle_antisym; apply palette_pos_mono; rewrite E; apply Qle_refl.
Qed.

Lemma round_8 : round 8 == 8.
Proof. vm_compute. reflexivity. Qed.

Lemma palette_pos_range (rate : Q) :
  lit (8 # 10) <= lit rate -> 0 <= palette_pos rate <= 8.
Proof.
  intros H. unfold palette_pos, mul, div, sub.
  change (inject_Z (PALETTE_length - 1)) with 8.
  pose proof lit_02_pos as P2.
  set (d := round (round (lit rate - lit (8 # 10)) / lit (2 # 10))).
  assert (Hd : 0 <= d).
  { apply round_nonneg. apply Qle_shift_div_l; [exact P2|].
    setoid_replace (0 * lit (2 # 10)) with 0 by ring.
    apply round_nonneg. lra. }
  assert (Hm : 0 <= js_min d 1 <= 1).
  { unfold js_min. destruct (Qlt_le_dec 1 d); lra. }
  split.
  - apply round_nonneg. nra.
  - pose proof round_8 as R8.
    apply Qle_trans with (round 8); [apply round_mono; lra | lra].
Qed.

Lemma palette_index_range (rate : Q) :
  lit (8 # 10) <= lit rate -> (0 <= js_round (palette_pos rate) <= 8)%Z.
Proof.
  intros H. pose proof (palette_pos_range rate H) as [H0 H8].
  unfold js_round. split.
  - change 0%Z with (Qfloor 0). apply Qfloor_resp_le. lra.
  - change 8%Z with (Qfloor (8 + (1 # 2))). apply Qfloor_resp_le. lra.
Qed.

Lemma index_in_range {A} (l : list A) (i : Z) :
  (0 <= i < Z.of_nat (List.length l))%Z -> exists a, index l i = Some a.
Proof.
  intros H. unfold index.
  destruct (Z.ltb_spec i 0); [lia|].
  destruct (nth_error l (Z.to_nat i)) eqn:E; [eauto|].
  apply nth_error_None in E. lia.
Qed.

Lemma last_index : (PALETTE_length - 1)%Z = 8%Z.
Proof. reflexivity. Qed.

Lemma palette_entry (i : Z) :
  (0 <= i <= 8)%Z -> exists c, index PALETTE i = Some c /\ In c PALETTE.
Proof.
  intros Hi. destruct (index_in_range PALETTE i) as [c Hc].
  { change (Z.of_nat (List.length PALETTE)) with 9%Z. lia. }
  exists c. split; [exact Hc|].
  unfold index in Hc. destruct (Z.ltb_spec i 0); [lia|].
  eapply nth_error_In, Hc.
Qed.

(** The three bands of [rateColor], by its own tests. *)
Lemma rateColor_green (rate : Q) :
  lit rate < lit (5 # 10) -> rateColor rate = Some "#2e8b57"%string.
Proof.
  intros H. unfold rateColor.
  destruct (Qlt_le_dec (lit rate) (lit (5 # 10))); [reflexivity | lra].
Qed.

Lemma rateColor_moderate (rate : Q) :
  lit (5 # 10) <= lit rate -> lit rate < lit (8 # 10) ->
  rateColor rate = Some "#386D9C"%string.
Proof.
  intros H1 H2. unfold rateColor.
  destruct (Qlt_le_dec (lit rate) (lit (5 # 10))); [lra|].
  destruct (Qlt_le_dec (lit rate) (lit (8 # 10))); [reflexivity | lra].
Qed.

Lemma rateColor_palette (rate : Q) :
  lit (8 # 10) <= lit rate ->
  rateColor rate
  = index PALETTE (Z.min (js_round (palette_pos rate)) (PALETTE_length - 1)).
Proof.
  intros H. unfold rateColor.
  pose proof lit_half. pose proof lit_08_above.
  destruct (Qlt_le_dec (lit rate) (lit (5 # 10))); [lra|].
  destruct (Qlt_le_dec (lit rate) (lit (8 # 10))); [lra|]. reflexivity.
Qed.

(** *** The script against the exact position

    Just below a rate halfway between two palette entries the script
    gives the lower entry, just above it the upper one; between two such
    rates the index cannot move, the position being monotone. *)
















End ColourFacts.

(* ------------------------------------------------------------------ *)
(** ** The pulse *)

Module PulseFacts.
Import Renderer.

(** A pulse starts at the target radius, peaks at the overshoot after
    40% of its duration and from the end of its duration on sets the
    target radius and asks for no further frame. *)
Lemma pulse_starts_at_target (targetR : Q) :
  fst (pulse_step targetR 0) == targetR /\ snd (pulse_step targetR 0) = true.
Proof.
  unfold pulse_step.
  destruct (Qlt_le_dec 0 (ANIM_MS * (40 # 100))) as [_ | G];
    [|exfalso; unfold ANIM_MS in G; lra].
  destruct (Qlt_le_dec 0 (ANIM_MS * (40 # 100) + ANIM_MS * (60 # 100))) as [_ | G];
    [|exfalso; unfold ANIM_MS in G; lra].
  cbn [fst snd]. split; [|reflexivity].
  unfold easeOut, OVERSHOOT, ANIM_MS. field.
Qed.

Lemma pulse_peaks (targetR : Q) :
  fst (pulse_step targetR (ANIM_MS * (40 # 100))) == targetR * (1 + OVERSHOOT).
Proof.
  unfold pulse_step.
  destruct (Qlt_le_dec (ANIM_MS * (40 # 100)) (ANIM_MS * (40 # 100))) as [L | _];
    [exfalso; lra|].
  destruct (Qlt_le_dec (ANIM_MS * (40 # 100))
                       (ANIM_MS * (40 # 100) + ANIM_MS * (60 # 100))) as [_ | G];
    [|exfalso; unfold ANIM_MS in G; lra].
  cbn [fst]. unfold easeOut, OVERSHOOT, ANIM_MS. field.
Qed.

Lemma pulse_settles (targetR el : Q) :
  ANIM_MS <= el -> pulse_step targetR el = (targetR, false).
Proof.
  intros H. unfold pulse_step, ANIM_MS in *.
  destruct (Qlt_le_dec el (650 * (40 # 100))) as [L | _]; [exfalso; lra|].
  destruct (Qlt_le_dec el (650 * (40 # 100) + 650 * (60 # 100))) as [L | _];
    [exfalso; lra | reflexivity].
Qed.

End PulseFacts.

(* ------------------------------------------------------------------ *)
(** ** Rendering one week *)

Module RenderFacts.
Import Num Timeline Renderer DictFacts Shape.


Section Script.
Variable SHELTER_DATA : shelter_dict.
Variable BINS : list string.

Local Abbreviation render_one := (render_one SHELTER_DATA).
Local Abbreviation frame_at := (frame_at SHELTER_DATA).
Local Abbreviation renderBin := (renderBin SHELTER_DATA BINS).

Lemma render_one_hit bin prevs log sid d :
  frame_at sid bin = Some d ->
  render_one bin (prevs, log) sid
  = (Dict.set prevs sid (rate d),
     log ++ shelter_calls sid d (last_rate prevs sid d)).
Proof. intros H. unfold render_one. rewrite H. reflexivity. Qed.

(** A turn for shelter [k] leaves the last rate of every other
    shelter alone and only adds calls for [k]. *)
Lemma render_one_frame bin prevs log k :
  exists ext,
    snd (render_one bin (prevs, log) k) = log ++ ext /\
    (forall c, In c ext -> call_sid c = Some k) /\
    (forall sid, sid <> k ->
                 Dict.get (fst (render_one bin (prevs, log) k)) sid
                 = Dict.get prevs sid).
Proof.
  destruct (frame_at k bin) as [d|] eqn:E.
  - rewrite (render_one_hit _ _ _ _ _ E). eexists. split; [reflexivity|].
    split.
    + intros c Hc. cbn [shelter_calls In] in Hc.
      destruct (changed (rate d) (last_rate prevs k d));
        repeat (destruct Hc as [<- | Hc]; [reflexivity|]); destruct Hc.
    + intros sid N. simpl. apply get_set_other. congruence.
  - exists []. unfold Renderer.render_one. rewrite E. simpl.
    rewrite app_nil_r. repeat split; auto. intros c [].
Qed.

Lemma fold_render_frame bin ks prevs log :
  exists ext,
    snd (fold_left (render_one bin) ks (prevs, log)) = log ++ ext /\
    (forall c, In c ext -> exists k, In k ks /\ call_sid c = Some k) /\
    (forall sid, ~ In sid ks ->
                 Dict.get (fst (fold_left (render_one bin) ks (prevs, log))) sid
                 = Dict.get prevs sid).
Proof.
  revert prevs log. induction ks as [| k r IH]; intros prevs log.
  - exists []. simpl. rewrite app_nil_r. repeat split; auto. intros c [].
  - cbn [fold_left].
    destruct (render_one_frame bin prevs log k) as (e1 & H1 & H2 & H3).
    destruct (render_one bin (prevs, log) k) as [p1 l1] eqn:E1.
    cbn [fst snd] in *. subst l1.
    destruct (IH p1 (log ++ e1)) as (e2 & G1 & G2 & G3).
    exists (e1 ++ e2). rewrite G1, app_assoc. split; [reflexivity|].
    split.
    + intros c Hc. apply in_app_or in Hc. destruct Hc as [Hc | Hc].
      * exists k. split; [left; reflexivity | auto].
      * destruct (G2 c Hc) as (k' & ? & ?). exists k'. split; [right|]; assumption.
    + intros sid N. rewrite G3 by (intros ?; apply N; right; assumption).
      apply H3. intros ->. apply N. left. reflexivity.
Qed.

(** With pairwise distinct keys, the calls of the loop for a shelter
    that has a frame are those of its own turn, taken with the last
    rate stored before the loop. *)
Lemma fold_render_shelter bin ks prevs log sid d :
  NoDup ks -> In sid ks ->
  frame_at sid bin = Some d ->
  (forall c, In c log -> call_sid c <> Some sid) ->
  let res := fold_left (render_one bin) ks (prevs, log) in
  (forall c, call_sid c = Some sid ->
             (In c (snd res) <-> In c (shelter_calls sid d (last_rate prevs sid d))))
  /\ Dict.get (fst res) sid = Some (rate d).
Proof.
  intros ND Hin Hd Hlog res. subst res.
  destruct (in_split _ _ Hin) as (l1 & l2 & ->).
  apply NoDup_remove_2 in ND.
  assert (N1 : ~ In sid l1) by (intros ?; apply ND, in_or_app; auto).
  assert (N2 : ~ In sid l2) by (intros ?; apply ND, in_or_app; auto).
  rewrite fold_left_app. cbn [fold_left].
  destruct (fold_render_frame bin l1 prevs log) as (e1 & H1 & H2 & H3).
  destruct (fold_left (render_one bin) l1 (prevs, log)) as [p1 g1] eqn:E1.
  simpl in H1, H3. subst g1.
  rewrite (render_one_hit _ _ _ _ _ Hd).
  assert (Hp : last_rate p1 sid d = last_rate prevs sid d).
  { unfold last_rate. rewrite (H3 sid N1). reflexivity. }
  rewrite Hp.
  set (own := shelter_calls sid d (last_rate prevs sid d)).
  destruct (fold_render_frame bin l2 (Dict.set p1 sid (rate d))
                              ((log ++ e1) ++ own))
    as (e2 & G1 & G2 & G3).
  rewrite G1, (G3 sid N2), get_set_same. split; [|reflexivity].
  intros c Hc. rewrite !in_app_iff. split.
  - intros [[[H | H] | H] | H]; auto.
    + elim (Hlog c H Hc).
    + destruct (H2 c H) as (k & Hk & Ek). congruence.
    + destruct (G2 c H) as (k & Hk & Ek). congruence.
  - auto.
Qed.

Lemma renderBin_currentBin st idx :
  currentBin (fst (renderBin st idx)) = idx.
Proof.
  unfold Renderer.renderBin.
  destruct (fold_left _ _ _) as [p l]. reflexivity.
Qed.

Lemma renderBin_shelter st idx sid d :
  NoDup (Dict.keys (circles st)) ->
  In sid (Dict.keys (circles st)) ->
  frame_at sid (index BINS idx) = Some d ->
  (forall c, call_sid c = Some sid ->
             (In c (snd (renderBin st idx))
              <-> In c (shelter_calls sid d (last_rate (prevRate st) sid d))))
  /\ Dict.get (prevRate (fst (renderBin st idx))) sid = Some (rate d).
Proof.
  intros ND Hin Hd. unfold Renderer.renderBin.
  pose proof (fold_render_shelter (index BINS idx) _ (prevRate st)
                (if ui st then [SliderValue idx; LabelText (index BINS idx)] else [])
                sid d ND Hin Hd) as H.
  destruct (fold_left _ _ _) as [p l]. cbn [fst snd prevRate] in *. apply H.
  intros c Hc. destruct (ui st); simpl in Hc.
  - destruct Hc as [<- | [<- | []]]; discriminate.
  - destruct Hc.
Qed.
End Script.

Lemma changed_true (r p : Q) :
  changed r p = true <-> Double.lit (1 # 100) < delta r p.
Proof.
  unfold changed. destruct (Qlt_le_dec (Double.lit (1 # 100)) (delta r p)).
  - tauto.
  - split; [discriminate | intros; lra].
Qed.

Lemma changed_false (r p : Q) :
  changed r p = false <-> delta r p <= Double.lit (1 # 100).
Proof.
  unfold changed. destruct (Qlt_le_dec (Double.lit (1 # 100)) (delta r p)).
  - split; [discriminate | intros; lra].
  - tauto.
Qed.

(** A rate compared with itself: the difference is the Number 0. *)
Lemma delta_same (r : Q) : delta r r == 0.
Proof.
  unfold delta, Double.sub.
  rewrite (DoubleFacts.round_zero (Double.lit r - Double.lit r)) by ring.
  reflexivity.
Qed.

Lemma changed_same (r : Q) : changed r r = false.
Proof.
  apply changed_false. rewrite delta_same. vm_compute. discriminate.
Qed.

(** The difference the script computes is within [slack] of the exact
    one, for rates below 2, and so is the Number [0.01] of 0.01. *)
Lemma delta_close (r p : Q) :
  Qabs r < 2 -> Qabs p < 2 ->
  Qabs (r - p) - slack + (1 # 10000000000000000) <= delta r p
    <= Qabs (r - p) + slack - (1 # 10000000000000000).
Proof.
  intros Hr Hp.
  pose proof (DoubleFacts.round_error_below r 1 Hr ltac:(lia)) as Er.
  pose proof (DoubleFacts.round_error_below p 1 Hp ltac:(lia)) as Ep.
  change (1 - 54)%Z with (-53)%Z in Er, Ep.
  fold (Double.lit r) in Er. fold (Double.lit p) in Ep.
  set (a := Double.lit r) in *. set (b := Double.lit p) in *.
  assert (P53 : Double.pow2 (-53) == 1 # 9007199254740992) by reflexivity.
  assert (P51 : Double.pow2 (-51) == 1 # 2251799813685248) by reflexivity.
  rewrite P53 in Er, Ep.
  apply Qabs_Qle_condition in Er, Ep.
  apply Qabs_Qlt_condition in Hr, Hp.
  assert (Hab : Qabs (a - b) < Double.pow2 3).
  { change (Double.pow2 3) with 8. apply Qabs_Qlt_condition. split; lra. }
  pose proof (DoubleFacts.round_error_below (a - b) 3 Hab ltac:(lia)) as Es.
  change (3 - 54)%Z with (-51)%Z in Es. rewrite P51 in Es.
  apply Qabs_Qle_condition in Es.
  unfold delta, js_abs, Double.sub. fold a b.
  set (s := Double.round (a - b)) in *.
  unfold slack.
  assert (D : Qabs (s - (r - p)) <= 3 # 4503599627370496)
    by (apply Qabs_Qle_condition; split; lra).
  pose proof (Qabs_triangle_reverse s (r - p)) as T1.
  pose proof (Qabs_triangle_reverse (r - p) s) as T2.
  rewrite (Qabs_Qminus (r - p) s) in T2.
  split; lra.
Qed.

Lemma lit_001_close :
  (1 # 100) - (1 # 10000000000000000) < Double.lit (1 # 100)
                                      < (1 # 100) + (1 # 10000000000000000).
Proof. split; vm_compute; reflexivity. Qed.

Lemma changed_far (r p : Q) :
  Qabs r < 2 -> Qabs p < 2 ->
  (1 # 100) + slack <= Qabs (r - p) -> changed r p = true.
Proof.
  intros Hr Hp H. apply changed_true.
  pose proof (delta_close r p Hr Hp) as [L _]. pose proof lit_001_close. lra.
Qed.

Lemma changed_near (r p : Q) :
  Qabs r < 2 -> Qabs p < 2 ->
  Qabs (r - p) <= (1 # 100) - slack -> changed r p = false.
Proof.
  intros Hr Hp H. apply changed_false.
  pose proof (delta_close r p Hr Hp) as [_ U]. pose proof lit_001_close. lra.
Qed.

Ltac pick_call H :=
  cbn [shelter_calls In] in H;
  repeat (destruct H as [H | H]; [try discriminate H|]); try contradiction.

(** What [renderBin] does for one shelter, on a state whose circle keys
    are pairwise distinct: with [prev] the rate stored for the shelter
    and [delta] the Number [Math.abs(d.rate - prev)], the calls made for
    the shelter and the rate stored afterwards.  For rates below 2 the
    test is decided by the exact difference as soon as that is not
    within [slack] of 0.01. *)
Lemma renderBin_effects :
  forall (SHELTER_DATA : shelter_dict) (BINS : list string)
         (st : State) (idx : Z) (sid : string) (d : Frame),
    NoDup (Dict.keys (circles st)) ->
    In sid (Dict.keys (circles st)) ->
    frame_at SHELTER_DATA sid (index BINS idx) = Some d ->
    let prev := last_rate (prevRate st) sid d in
    let delta := Renderer.delta (rate d) prev in
    let log := snd (renderBin SHELTER_DATA BINS st idx) in
    ((exists w r, In (Pulse sid w r) log) <-> Double.lit (1 # 100) < delta) /\
    (Double.lit (1 # 100) < delta ->
     In (Pulse sid blue (radius_m d)) log /\
     forall r, ~ In (SetRadius sid blue r) log) /\
    (delta <= Double.lit (1 # 100) ->
     In (SetRadius sid blue (radius_m d)) log /\
     forall w r, ~ In (Pulse sid w r) log) /\
    (Qabs (rate d) < 2 -> Qabs prev < 2 ->
     Qabs (rate d - prev) <= (1 # 100) - slack ->
     In (SetRadius sid blue (radius_m d)) log) /\
    (Qabs (rate d) < 2 -> Qabs prev < 2 ->
     (1 # 100) + slack <= Qabs (rate d - prev) ->
     In (Pulse sid blue (radius_m d)) log) /\
    In (SetRadius sid green (green_r d)) log /\
    (forall r, In (SetRadius sid green r) log -> r = green_r d) /\
    (forall r, ~ In (Pulse sid green r) log) /\
    Dict.get (prevRate (fst (renderBin SHELTER_DATA BINS st idx))) sid
    = Some (rate d).
Proof.
  intros SD BINS st idx sid d ND Hin Hd prev delta log.
  destruct (renderBin_shelter SD BINS st idx sid d ND Hin Hd) as [Hcalls Hprev].
  fold prev in Hcalls. fold log in Hcalls.
  assert (Hpulse : Double.lit (1 # 100) < delta ->
                   In (Pulse sid blue (radius_m d)) log /\
                   forall r, ~ In (SetRadius sid blue r) log).
  { intros Hlt. apply changed_true in Hlt. split.
    - apply Hcalls; [reflexivity|]. unfold shelter_calls. rewrite Hlt.
      cbn [In]. tauto.
    - intros r H. apply Hcalls in H; [|reflexivity].
      unfold shelter_calls in H. rewrite Hlt in H. pick_call H. }
  assert (Hset : delta <= Double.lit (1 # 100) ->
                 In (SetRadius sid blue (radius_m d)) log /\
                 forall w r, ~ In (Pulse sid w r) log).
  { intros Hle. apply changed_false in Hle. split.
    - apply Hcalls; [reflexivity|]. unfold shelter_calls. rewrite Hle.
      cbn [In]. tauto.
    - intros w r H. apply Hcalls in H; [|reflexivity].
      unfold shelter_calls in H. rewrite Hle in H. pick_call H. }
  split; [|split; [exact Hpulse|split; [exact Hset|]]].
  - split.
    + intros (w & r & H).
      destruct (Qlt_le_dec (Double.lit (1 # 100)) delta) as [L | G]; [exact L|].
      destruct (Hset G) as [_ No]. elim (No w r H).
    + intros Hlt. exists blue, (radius_m d). apply Hpulse, Hlt.
  - split; [intros B1 B2 E; apply Hset, changed_false, changed_near; assumption|].
    split; [intros B1 B2 E; apply Hpulse, changed_true, changed_far; assumption|].
    split; [|split; [|split; [|exact Hprev]]].
    + apply Hcalls; [reflexivity|]. cbn [shelter_calls In]. tauto.
    + intros r H. apply Hcalls in H; [|reflexivity].
      unfold shelter_calls in H.
      destruct (changed (rate d) prev); pick_call H;
        injection H as <-; reflexivity.
    + intros r H. apply Hcalls in H; [|reflexivity].
      unfold shelter_calls in H.
      destruct (changed (rate d) prev); pick_call H.
Qed.

End RenderFacts.

(* ------------------------------------------------------------------ *)
(** ** Transport controls *)

Module TransportFacts.
Import Timeline Renderer RenderFacts DictFacts.

Section Script.
Variable SHELTER_DATA : shelter_dict.
Variable BINS : list string.

Local Abbreviation renderBin := (renderBin SHELTER_DATA BINS).
Local Abbreviation handle := (handle SHELTER_DATA BINS).
Local Abbreviation tick := (tick SHELTER_DATA BINS).
Local Abbreviation N := (BINS_length BINS).
Local Abbreviation in_range := (in_range BINS).
Local Abbreviation deliverable := (deliverable BINS).


Lemma renderBin_circles st idx :
  circles (fst (renderBin st idx)) = circles st.
Proof.
  unfold Renderer.renderBin. destruct (fold_left _ _ _). reflexivity.
Qed.

Lemma stop_then_render st idx :
  currentBin (fst (let '(st1, l1) := stopPlay st in
                   and_then st1 l1 (fun s => renderBin s (idx s))))
  = idx (fst (stopPlay st)).
Proof.
  unfold stopPlay, and_then. cbn [fst].
  match goal with
  | |- context [Renderer.renderBin ?a ?b ?c ?d] =>
      pose proof (renderBin_currentBin a b c d) as H;
      destruct (Renderer.renderBin a b c d)
  end.
  exact H.
Qed.

Lemma handle_currentBin st ev :
  currentBin (fst (handle st ev))
  = match ev with
    | SliderInput v => v
    | PrevClick => Z.max 0 (currentBin st - 1)
    | NextClick => Z.min (N - 1) (currentBin st + 1)
    | PlayClick => currentBin st
    | TimerFire =>
        if playTimer st
        then (if (N <=? currentBin st + 1)%Z then 0 else currentBin st + 1)%Z
        else currentBin st
    end.
Proof.
  destruct ev; unfold Renderer.handle.
  - apply (stop_then_render st (fun _ => value)).
  - apply (stop_then_render st (fun s => Z.max 0 (currentBin s - 1))).
  - apply (stop_then_render st (fun s => Z.min (N - 1) (currentBin s + 1))).
  - destruct (playing st); reflexivity.
  - destruct (playTimer st); [|reflexivity].
    unfold Renderer.tick.
    match goal with
    | |- context [Renderer.renderBin ?a ?b ?c ?d] =>
        pose proof (renderBin_currentBin a b c d) as H;
        destruct (Renderer.renderBin a b c d)
    end.
    exact H.
Qed.

Lemma handle_in_range st ev :
  BINS <> [] -> in_range st -> deliverable ev -> in_range (fst (handle st ev)).
Proof.
  intros Hne Hst Hev. unfold in_range in *. rewrite handle_currentBin.
  assert (1 <= N)%Z.
  { unfold BINS_length. destruct BINS; [congruence | simpl List.length; lia]. }
  destruct ev; simpl in Hev; try lia.
  destruct (playTimer st); [|lia].
  destruct (Z.leb_spec N (currentBin st + 1)); lia.
Qed.

Lemma run_in_range st evs :
  BINS <> [] -> in_range st -> Forall deliverable evs ->
  in_range (fst (run SHELTER_DATA BINS st evs)).
Proof.
  intros Hne Hst Hevs. revert st Hst.
  induction Hevs as [| ev r Hev _ IH]; intros st Hst; [exact Hst|].
  simpl.
  pose proof (handle_in_range st ev Hne Hst Hev) as H1.
  destruct (Renderer.handle SHELTER_DATA BINS st ev) as [st1 l1]. simpl in H1.
  specialize (IH st1 H1).
  destruct (run SHELTER_DATA BINS st1 r) as [st2 l2]. exact IH.
Qed.

End Script.

(** C8: with at least one week in [BINS] and the week index in
    [0, BINS.length - 1], every transport operation leaves it there: the
    back button gives [max(0, i - 1)], the forward button
    [min(BINS.length - 1, i + 1)], a slider input within the slider's
    range gives the slider value, and a tick of auto-play gives [i + 1],
    or 0 when [i] is the last week; the same holds after any sequence of
    such events. *)
Theorem transport_keeps_week_in_range :
  forall (SHELTER_DATA : shelter_dict) (BINS : list string)
         (st : State) (evs : list event),
    BINS <> [] ->
    in_range BINS st ->
    Forall (deliverable BINS) evs ->
    in_range BINS (fst (run SHELTER_DATA BINS st evs)) /\
    (forall ev, deliverable BINS ev ->
                in_range BINS (fst (handle SHELTER_DATA BINS st ev))) /\
    currentBin (fst (handle SHELTER_DATA BINS st PrevClick))
    = Z.max 0 (currentBin st - 1) /\
    currentBin (fst (handle SHELTER_DATA BINS st NextClick))
    = Z.min (BINS_length BINS - 1) (currentBin st + 1) /\
    (playTimer st = true ->
     (currentBin st = BINS_length BINS - 1 ->
      currentBin (fst (handle SHELTER_DATA BINS st TimerFire)) = 0)%Z /\
     (currentBin st < BINS_length BINS - 1 ->
      currentBin (fst (handle SHELTER_DATA BINS st TimerFire))
      = currentBin st + 1)%Z).
Proof.
  intros SD BINS st evs Hne Hst Hevs.
  split; [|split; [|split; [|split]]].
  - apply run_in_range; assumption.
  - intros ev Hev. apply handle_in_range; assumption.
  - apply handle_currentBin.
  - apply handle_currentBin.
  - intros Ht. rewrite handle_currentBin, Ht. split; intros H.
    + destruct (Z.leb_spec (BINS_length BINS) (currentBin st + 1)); lia.
    + destruct (Z.leb_spec (BINS_length BINS) (currentBin st + 1)); lia.
Qed.

End TransportFacts.

(* ------------------------------------------------------------------ *)
(** ** Jitter *)

Module JitterFacts.
Import Normalizer Resolver.

Section Jitter.
Variable md5_word : string -> Z.

Local Abbreviation jitter := (jitter md5_word).
Local Abbreviation jitter_row := (jitter_row md5_word).
Local Abbreviation jitter_dupes := (jitter_dupes md5_word).
Local Abbreviation offset_of := (offset_of md5_word).

Lemma component_bound (n : Z) :
  Qabs ((inject_Z (n mod 1000) / 999 - (5 # 10)) * (4 # 1000)) <= 2 # 1000.
Proof.
  pose proof (Z.mod_pos_bound n 1000 eq_refl) as [H0 H1].
  assert (B0 : 0 <= inject_Z (n mod 1000)).
  { change 0 with (inject_Z 0). rewrite <- Zle_Qle. exact H0. }
  assert (B1 : inject_Z (n mod 1000) <= 999).
  { change 999 with (inject_Z 999). rewrite <- Zle_Qle. lia. }
  set (x := inject_Z (n mod 1000)) in *.
  assert (E : x / 999 == x * (1 # 999)) by (unfold Qdiv; reflexivity).
  apply Qabs_Qle_condition. rewrite E. split; lra.
Qed.

Lemma jitter_bound (c : string) :
  Qabs (fst (jitter c)) <= 2 # 1000 /\ Qabs (snd (jitter c)) <= 2 # 1000.
Proof. split; apply component_bound. Qed.

Lemma same_spot_refl (p : Point) : same_spot p p = true.
Proof.
  unfold same_spot. rewrite !Qeq_bool_refl, String.eqb_refl. reflexivity.
Qed.

Lemma same_spot_true (p q : Point) :
  same_spot p q = true <->
  lat p == lat q /\ lon p == lon q /\ p_code p = p_code q.
Proof.
  unfold same_spot. rewrite !andb_true_iff, !Qeq_bool_iff, String.eqb_eq. tauto.
Qed.

Lemma Qeq_bool_left (a b c : Q) : a == b -> Qeq_bool a c = Qeq_bool b c.
Proof.
  intros E. destruct (Qeq_bool b c) eqn:H.
  - apply Qeq_bool_iff. apply Qeq_bool_iff in H. rewrite E. exact H.
  - destruct (Qeq_bool a c) eqn:H'; [|reflexivity].
    apply Qeq_bool_iff in H'. rewrite E in H'. apply Qeq_bool_iff in H'. congruence.
Qed.

(** Rows with the same triple are compared alike with every row. *)
Lemma same_spot_class (p q r : Point) :
  same_spot p q = true -> same_spot p r = same_spot q r.
Proof.
  intros H. apply same_spot_true in H. destruct H as (E1 & E2 & E3).
  unfold same_spot. rewrite (Qeq_bool_left _ _ _ E1), (Qeq_bool_left _ _ _ E2), E3.
  reflexivity.
Qed.

Lemma dupe_class (df : list Point) (p q : Point) :
  same_spot p q = true -> dupe df p = dupe df q.
Proof.
  intros H. unfold dupe. f_equal. f_equal.
  apply filter_ext. intros r. apply same_spot_class, H.
Qed.

Lemma jitter_row_dupe (df : list Point) (p : Point) :
  dupe df p = true ->
  lat (jitter_row df p) = lat p + fst (jitter (p_code p)) /\
  lon (jitter_row df p) = lon p + snd (jitter (p_code p)) /\
  p_row (jitter_row df p) = p_row p.
Proof.
  intros H. unfold Resolver.jitter_row. rewrite H. simpl. auto.
Qed.

Lemma jitter_row_single (df : list Point) (p : Point) :
  dupe df p = false -> jitter_row df p = p.
Proof. intros H. unfold Resolver.jitter_row. rewrite H. reflexivity. Qed.

Lemma jitter_row_code (df : list Point) (p : Point) :
  p_code (jitter_row df p) = p_code p.
Proof.
  unfold Resolver.jitter_row. destruct (dupe df p); reflexivity.
Qed.

(** The guard [if dupe.any()] changes nothing: the frame after lines
    79-86 is the row-wise image of the frame before. *)
Lemma jitter_dupes_map (df : list Point) :
  jitter_dupes df = map (jitter_row df) df.
Proof.
  unfold Resolver.jitter_dupes. destruct (existsb (dupe df) df) eqn:E; [reflexivity|].
  assert (H : forall p, In p df -> dupe df p = false).
  { intros p Hp. destruct (dupe df p) eqn:D; [|reflexivity].
    assert (existsb (dupe df) df = true) by (apply existsb_exists; eauto).
    congruence. }
  assert (G : forall l, (forall p, In p l -> dupe df p = false) ->
                        map (jitter_row df) l = l).
  { induction l as [| p r IH]; intros Hl; simpl; [reflexivity|].
    rewrite jitter_row_single by (apply Hl; left; reflexivity).
    f_equal. apply IH. intros q Hq. apply Hl. right. exact Hq. }
  symmetry. apply G, H.
Qed.

Lemma jitter_dupes_nth (df : list Point) (i : nat) (p : Point) :
  nth_error df i = Some p ->
  nth_error (jitter_dupes df) i = Some (jitter_row df p).
Proof.
  intros H. rewrite jitter_dupes_map. apply map_nth_error, H.
Qed.

(** A predicate holds at two positions of a list exactly when the list
    filtered by it has at least two elements. *)
Lemma filter_hit {A} (f : A -> bool) (l : list A) (k : nat) (a : A) :
  nth_error l k = Some a -> f a = true -> (1 <= List.length (filter f l))%nat.
Proof.
  intros Hk Hf.
  assert (Hin : In a (filter f l)).
  { apply filter_In. split; [eapply nth_error_In; eauto | exact Hf]. }
  destruct (filter f l); [destruct Hin | simpl; lia].
Qed.

Lemma filter_two {A} (f : A -> bool) (l : list A) :
  (2 <= List.length (filter f l))%nat <->
  exists i j a b, (i < j)%nat /\ nth_error l i = Some a /\ nth_error l j = Some b
                  /\ f a = true /\ f b = true.
Proof.
  induction l as [| x r IH].
  - simpl. split; [lia|]. intros (i & j & a & b & _ & H & _). destruct i; discriminate.
  - split.
    + simpl. destruct (f x) eqn:Fx.
      * intros H. simpl in H.
        destruct (filter f r) as [| b t] eqn:Er; [simpl in H; lia|].
        assert (Hb : In b (filter f r)) by (rewrite Er; left; reflexivity).
        apply filter_In in Hb. destruct Hb as [Hb Fb].
        apply In_nth_error in Hb. destruct Hb as [k Hk].
        exists 0%nat, (S k), x, b. repeat split; auto. lia.
      * intros H. apply IH in H. destruct H as (i & j & a & b & L & Hi & Hj & Fa & Fb).
        exists (S i), (S j), a, b. repeat split; auto. lia.
    + intros (i & j & a & b & L & Hi & Hj & Fa & Fb).
      destruct j as [| j]; [lia|]. simpl in Hj.
      destruct i as [| i].
      * simpl in Hi. injection Hi as ->. simpl. rewrite Fa. simpl.
        pose proof (filter_hit f r j b Hj Fb). lia.
      * simpl in Hi.
        assert (2 <= List.length (filter f r))%nat.
        { apply IH. exists i, j, a, b. repeat split; auto. lia. }
        simpl. destruct (f x); simpl; lia.
Qed.

Lemma dupe_two (df : list Point) (i j : nat) (p q : Point) :
  i <> j -> nth_error df i = Some p -> nth_error df j = Some q ->
  same_spot p q = true -> dupe df p = true.
Proof.
  intros N Hi Hj S. unfold dupe. apply Nat.leb_le. apply filter_two.
  destruct (Nat.lt_ge_cases i j).
  - exists i, j, p, q. repeat split; auto. apply same_spot_refl.
  - exists j, i, q, p. repeat split; auto; [lia | apply same_spot_refl].
Qed.

Lemma dupe_alone (df : list Point) (i : nat) (p : Point) :
  nth_error df i = Some p ->
  (forall j q, nth_error df j = Some q -> same_spot p q = true -> j = i) ->
  dupe df p = false.
Proof.
  intros Hi Hu. unfold dupe. apply Nat.leb_gt.
  destruct (Nat.lt_ge_cases (List.length (filter (same_spot p) df)) 2) as [L | G];
    [exact L|].
  apply filter_two in G. destruct G as (a & b & x & y & L & Ha & Hb & Fx & Fy).
  pose proof (Hu a x Ha Fx). pose proof (Hu b y Hb Fy). lia.
Qed.

End Jitter.

(** C5: the offset added to a duplicated row depends on the postal code
    of the row alone: two duplicated rows with the same code, in the
    same frame or in the frames of two runs, get the same offset, which is
    [jitter] of the code; and neither component of it exceeds 0.002
    degrees in magnitude. *)
Theorem jitter_offset_fixed_by_code :
  forall (md5_word : string -> Z) (df1 df2 : list Point) (p1 p2 : Point),
    dupe df1 p1 = true ->
    dupe df2 p2 = true ->
    p_code p1 = p_code p2 ->
    fst (offset_of md5_word df1 p1) == fst (offset_of md5_word df2 p2) /\
    snd (offset_of md5_word df1 p1) == snd (offset_of md5_word df2 p2) /\
    fst (offset_of md5_word df1 p1) == fst (jitter md5_word (p_code p1)) /\
    snd (offset_of md5_word df1 p1) == snd (jitter md5_word (p_code p1)) /\
    Qabs (fst (offset_of md5_word df1 p1)) <= 2 # 1000 /\
    Qabs (snd (offset_of md5_word df1 p1)) <= 2 # 1000.
Proof.
  intros md5 df1 df2 p1 p2 D1 D2 E.
  destruct (jitter_row_dupe md5 df1 p1 D1) as (A1 & A2 & _).
  destruct (jitter_row_dupe md5 df2 p2 D2) as (B1 & B2 & _).
  destruct (jitter_bound md5 (p_code p1)) as [J1 J2].
  unfold offset_of. cbn [fst snd]. rewrite A1, A2, B1, B2, <- E.
  set (o := jitter md5 (p_code p1)) in *.
  assert (F : lat p1 + fst o - lat p1 == fst o) by ring.
  assert (S : lon p1 + snd o - lon p1 == snd o) by ring.
  repeat split; try (rewrite ?F, ?S; assumption); ring.
Qed.

(** C10: rows of the frame with the same [(lat, lon, code)] get the same
    offset and have the same coordinates after the jitter step as each
    other; when they are two different rows, the offset is [jitter] of
    their code.  A row whose triple no other row has is left as it is. *)
Theorem duplicate_group_moves_together :
  forall (md5_word : string -> Z) (df : list Point) (i : nat) (p : Point),
    nth_error df i = Some p ->
    (forall (j : nat) (q : Point),
        nth_error df j = Some q ->
        same_spot p q = true ->
        exists p' q',
          nth_error (jitter_dupes md5_word df) i = Some p' /\
          nth_error (jitter_dupes md5_word df) j = Some q' /\
          lat p' - lat p == lat q' - lat q /\
          lon p' - lon p == lon q' - lon q /\
          same_spot p' q' = true /\
          (i <> j ->
           lat p' == lat p + fst (jitter md5_word (p_code p)) /\
           lon p' == lon p + snd (jitter md5_word (p_code p)))) /\
    ((forall (j : nat) (q : Point),
         nth_error df j = Some q -> same_spot p q = true -> j = i) ->
     nth_error (jitter_dupes md5_word df) i = Some p).
Proof.
  intros md5 df i p Hi. split.
  - intros j q Hj S.
    exists (jitter_row md5 df p), (jitter_row md5 df q).
    split; [apply jitter_dupes_nth, Hi|].
    split; [apply jitter_dupes_nth, Hj|].
    pose proof (dupe_class df p q S) as Hd.
    pose proof S as S'. apply same_spot_true in S'. destruct S' as (E1 & E2 & E3).
    destruct (dupe df p) eqn:Dp.
    + destruct (jitter_row_dupe md5 df p Dp) as (A1 & A2 & _).
      destruct (jitter_row_dupe md5 df q (eq_sym Hd)) as (B1 & B2 & _).
      rewrite A1, A2, B1, B2, <- E3.
      split; [ring|]. split; [ring|]. split.
      * apply same_spot_true. rewrite !jitter_row_code, A1, A2, B1, B2, <- E3, E1, E2.
        repeat split; reflexivity.
      * intros _. split; reflexivity.
    + rewrite (jitter_row_single md5 df p Dp), (jitter_row_single md5 df q (eq_sym Hd)).
      split; [lra|]. split; [lra|]. split; [exact S|].
      intros N. pose proof (dupe_two df i j p q N Hi Hj S). congruence.
  - intros Hu. rewrite (jitter_dupes_nth md5 df i p Hi).
    rewrite (jitter_row_single md5 df p); [reflexivity|].
    eapply dupe_alone; eauto.
Qed.

End JitterFacts.

(* ------------------------------------------------------------------ *)
(** ** Cleaning *)

Module NormalizerFacts.
Import Text Normalizer.

Section Clean.
Variable parse_number : string -> option Q.
Variable parse_date   : string -> option Z.

Local Abbreviation clean_row := (clean_row parse_number parse_date).
Local Abbreviation clean := (clean parse_number parse_date).

Lemma clean_In (rows : list RawRow) (out : Row) :
  In out (clean rows) <-> exists raw, In raw rows /\ clean_row raw = Some out.
Proof.
  induction rows as [| r rest IH]; simpl.
  - split; [intros [] | intros (raw & [] & _)].
  - destruct (clean_row r) as [x|] eqn:E; simpl; rewrite IH; split.
    + intros [<- | (raw & H1 & H2)]; eauto.
    + intros (raw & [<- | H1] & H2); [left; congruence | eauto].
    + intros (raw & H1 & H2); eauto.
    + intros (raw & [<- | H1] & H2); [congruence | eauto].
Qed.

(** The rows kept are a sub-sequence of the rows read: nothing is
    reordered or added. *)
Lemma clean_length (rows : list RawRow) :
  (List.length (clean rows) <= List.length rows)%nat.
Proof.
  induction rows as [| r rest IH]; simpl; [lia|].
  destruct (clean_row r); simpl; lia.
Qed.

Lemma clean_row_fields (raw : RawRow) (out : Row) :
  clean_row raw = Some out ->
  exists s,
    raw_code raw = Some s /\
    fullmatch_pattern (remove_spaces (upper s)) = true /\
    code out = remove_spaces (upper s) /\
    FSA out = take 3 (code out) /\
    to_numeric parse_number (raw_cap raw) = Some (cap out) /\
    to_numeric parse_number (raw_occ raw) = Some (occ out) /\
    to_datetime parse_date (raw_date raw) = Some (date out).
Proof.
  unfold Normalizer.clean_row, clean_code.
  destruct (raw_code raw) as [s|]; [|discriminate].
  destruct (fullmatch_pattern (remove_spaces (upper s))) eqn:M; [|discriminate].
  destruct (to_numeric parse_number (raw_cap raw)) as [k|]; [|discriminate].
  destruct (to_numeric parse_number (raw_occ raw)) as [o|]; [|discriminate].
  destruct (to_datetime parse_date (raw_date raw)) as [d|]; [|discriminate].
  intros H. injection H as <-. exists s. simpl. auto 10.
Qed.

End Clean.

(** A character of one of the three classes of the pattern is an
    upper-case letter or a digit: [upper] keeps it and it is no space. *)
Lemma class_char_fixed (c : ascii) :
  lead_letter c || digit c || inner_letter c = true ->
  upper_char c = c /\ Ascii.eqb c " "%char = false.
Proof.
  destruct c as [[] [] [] [] [] [] [] []]; vm_compute; intros H;
    try discriminate H; split; reflexivity.
Qed.

Lemma fullmatch_fixed (s : string) :
  fullmatch_pattern s = true -> remove_spaces (upper s) = s.
Proof.
  destruct s as [| a [| b [| c [| d [| e [| f [| g r]]]]]]]; try discriminate.
  unfold fullmatch_pattern. rewrite !andb_true_iff.
  intros (((((Ha & Hb) & Hc) & Hd) & He) & Hf).
  assert (Fa := class_char_fixed a). assert (Fb := class_char_fixed b).
  assert (Fc := class_char_fixed c). assert (Fd := class_char_fixed d).
  assert (Fe := class_char_fixed e). assert (Ff := class_char_fixed f).
  rewrite Ha in Fa. rewrite Hb, orb_true_r in Fb. rewrite Hc, orb_true_r in Fc.
  rewrite Hd, orb_true_r in Fd. rewrite He, orb_true_r in Fe.
  rewrite Hf, orb_true_r in Ff.
  destruct (Fa eq_refl) as [Ua Sa]. destruct (Fb eq_refl) as [Ub Sb].
  destruct (Fc eq_refl) as [Uc Sc]. destruct (Fd eq_refl) as [Ud Sd].
  destruct (Fe eq_refl) as [Ue Se]. destruct (Ff eq_refl) as [Uf Sf].
  cbn [upper remove_spaces].
  rewrite Ua, Ub, Uc, Ud, Ue, Uf, Sa, Sb, Sc, Sd, Se, Sf. reflexivity.
Qed.

(** C9, as the specification states it, fails: the row with postal code
    [m5v 2t6] is accepted and its code comes out as [M5V2T6]. *)
Lemma clean_rewrites_the_code :
  let raw := mkRaw (Some "m5v 2t6"%string) (Some "2024-01-02"%string)
                   (Num 50) (Num 40) in
  clean Calendar.parse_number Calendar.parse_date [raw]
  = [mkRow "M5V2T6" "M5V" 50 40 19724] /\
  raw_code raw <> Some (code (mkRow "M5V2T6" "M5V" 50 40 19724)).
Proof. split; [reflexivity | discriminate]. Qed.

(** C9 (amended): every row the cleaning step keeps comes from a row
    read whose capacity, occupied value and date it carries as pandas'
    conversions give them, the number itself where the cell is numeric;
    its postal code is the code read, upper-cased and with the spaces
    removed, which is the code read when that already matches the
    pattern. *)
Theorem clean_keeps_values :
  forall (parse_number : string -> option Q) (parse_date : string -> option Z)
         (rows : list RawRow) (out : Row),
    In out (clean parse_number parse_date rows) ->
    exists (raw : RawRow) (s : string),
      In raw rows /\
      raw_code raw = Some s /\
      code out = remove_spaces (upper s) /\
      (fullmatch_pattern s = true -> code out = s) /\
      to_numeric parse_number (raw_cap raw) = Some (cap out) /\
      to_numeric parse_number (raw_occ raw) = Some (occ out) /\
      to_datetime parse_date (raw_date raw) = Some (date out) /\
      (forall q, raw_cap raw = Num q -> cap out = q) /\
      (forall q, raw_occ raw = Num q -> occ out = q).
Proof.
  intros pn pd rows out H.
  apply clean_In in H. destruct H as (raw & Hin & Hrow).
  destruct (clean_row_fields pn pd raw out Hrow)
    as (s & Hs & Hm & Hc & Hf & Hk & Ho & Hd).
  exists raw, s. repeat split; auto.
  - intros M. rewrite Hc. apply fullmatch_fixed, M.
  - intros q E. rewrite E in Hk. simpl in Hk. congruence.
  - intros q E. rewrite E in Ho. simpl in Ho. congruence.
Qed.

End NormalizerFacts.

(* ------------------------------------------------------------------ *)
(** ** Sorting *)

Module SortFacts.
Import Binner.

Section Sort.
Context {A : Type} (leb : A -> A -> bool).
Hypothesis leb_total : forall x y, leb x y = true \/ leb y x = true.
Hypothesis leb_trans : forall x y z, leb x y = true -> leb y z = true -> leb x z = true.

Local Abbreviation le := (fun x y => leb x y = true).

Lemma insert_perm (x : A) (l : list A) : Permutation (x :: l) (insert_sorted leb x l).
Proof.
  induction l as [| y r IH]; simpl; [reflexivity|].
  destruct (leb x y); [reflexivity|].
  rewrite perm_swap. apply perm_skip, IH.
Qed.

Lemma sort_perm (l : list A) : Permutation l (sort leb l).
Proof.
  induction l as [| x r IH]; simpl; [reflexivity|].
  rewrite <- insert_perm. apply perm_skip, IH.
Qed.

Lemma insert_sorted_strong (x : A) (l : list A) :
  StronglySorted le l -> StronglySorted le (insert_sorted leb x l).
Proof.
  induction 1 as [| y r Hr IH Hy]; simpl.
  - repeat constructor.
  - destruct (leb x y) eqn:E.
    + constructor; [constructor; assumption|].
      constructor; [exact E|].
      rewrite Forall_forall in *. intros z Hz. eapply leb_trans; eauto.
    + constructor; [exact IH|].
      assert (Hyx : leb y x = true) by (destruct (leb_total x y); congruence).
      rewrite Forall_forall in *. intros z Hz.
      apply (Permutation_in _ (Permutation_sym (insert_perm x r))) in Hz.
      destruct Hz as [<- | Hz]; auto.
Qed.

Lemma sort_strong (l : list A) : StronglySorted le (sort leb l).
Proof.
  induction l as [| x r IH]; simpl; [constructor|].
  apply insert_sorted_strong, IH.
Qed.

Lemma sort_In (l : list A) (x : A) : In x (sort leb l) <-> In x l.
Proof.
  split; apply Permutation_in; [symmetry|]; apply sort_perm.
Qed.

Lemma sort_NoDup (l : list A) : NoDup l -> NoDup (sort leb l).
Proof. apply Permutation_NoDup, sort_perm. Qed.

End Sort.

(** The order of Python on [str] is total and transitive. *)
Lemma ascii_compare_N (a b : ascii) :
  Ascii.compare a b = N.compare (N_of_ascii a) (N_of_ascii b).
Proof. reflexivity. Qed.

Lemma string_compare_lt_trans (s1 s2 s3 : string) :
  String.compare s1 s2 = Lt -> String.compare s2 s3 = Lt ->
  String.compare s1 s3 = Lt.
Proof.
  revert s2 s3. induction s1 as [| c1 r1 IH]; intros [| c2 r2] [| c3 r3];
    simpl; try discriminate; try reflexivity.
  rewrite !ascii_compare_N.
  destruct (N.compare_spec (N_of_ascii c1) (N_of_ascii c2)) as [E12 | L12 | G12];
    try discriminate;
    destruct (N.compare_spec (N_of_ascii c2) (N_of_ascii c3)) as [E23 | L23 | G23];
    try discriminate; intros H12 H23.
  - rewrite E12, E23, N.compare_refl. eapply IH; eauto.
  - rewrite E12, (proj2 (N.compare_lt_iff _ _) L23). reflexivity.
  - rewrite <- E23, (proj2 (N.compare_lt_iff _ _) L12). reflexivity.
  - assert (L13 : (N_of_ascii c1 < N_of_ascii c3)%N) by lia.
    rewrite (proj2 (N.compare_lt_iff _ _) L13). reflexivity.
Qed.

Lemma string_compare_refl (s : string) : String.compare s s = Eq.
Proof.
  pose proof (String.compare_antisym s s) as H.
  destruct (String.compare s s); try reflexivity; discriminate.
Qed.

Lemma string_leb_trans (s1 s2 s3 : string) :
  String.leb s1 s2 = true -> String.leb s2 s3 = true -> String.leb s1 s3 = true.
Proof.
  unfold String.leb.
  destruct (String.compare s1 s2) eqn:E12; try discriminate;
    destruct (String.compare s2 s3) eqn:E23; try discriminate; intros _ _.
  - apply String.compare_eq_iff in E12, E23. subst.
    rewrite string_compare_refl. reflexivity.
  - apply String.compare_eq_iff in E12. subst. rewrite E23. reflexivity.
  - apply String.compare_eq_iff in E23. subst. rewrite E12. reflexivity.
  - rewrite (string_compare_lt_trans _ _ _ E12 E23). reflexivity.
Qed.

Lemma sorted_strong (l : list string) :
  StronglySorted (fun a b => String.leb a b = true) (sorted l).
Proof. apply sort_strong; [apply String.leb_total | apply string_leb_trans]. Qed.

Lemma unique_In (l : list string) (x : string) :
  In x (Resolver.unique l) <-> In x l.
Proof.
  induction l as [| y r IH]; simpl; [tauto|].
  rewrite filter_In, IH, negb_true_iff, String.eqb_neq.
  destruct (string_dec x y) as [-> | N]; [tauto|].
  split; [intros [E | [H _]]; [congruence | auto] | intros [E | H]; [congruence | auto]].
Qed.

Lemma unique_NoDup (l : list string) : NoDup (Resolver.unique l).
Proof.
  induction l as [| y r IH]; simpl; constructor.
  - rewrite filter_In, negb_true_iff, String.eqb_neq. tauto.
  - apply NoDup_filter, IH.
Qed.

End SortFacts.

(* ------------------------------------------------------------------ *)
(** ** Weekly bins and what reaches the timeline *)

Module PipelineFacts.
Import Resolver Binner Timeline Pipeline SortFacts DictFacts.

Lemma isin_In (b : string) (l : list string) : isin b l = true <-> In b l.
Proof.
  unfold isin. rewrite existsb_exists. split.
  - intros (x & Hx & E). apply String.eqb_eq in E. congruence.
  - intros H. exists b. split; [exact H | apply String.eqb_refl].
Qed.

Section Weeks.
Variable week_label : Z -> string.
Variable period_of  : string -> Z.

Local Abbreviation bins := (bins period_of).
Local Abbreviation start_period := (start_period period_of).

Lemma bins_In (df : list Binned) (b : string) :
  In b (bins df) <-> In b (map BIN df) /\ (start_period <= period_of b)%Z.
Proof.
  unfold Binner.bins, bins_all, sorted.
  rewrite sort_In, filter_In, sort_In, unique_In, Z.leb_le. tauto.
Qed.

Lemma bins_NoDup (df : list Binned) : NoDup (bins df).
Proof.
  unfold Binner.bins, bins_all, sorted.
  apply sort_NoDup, NoDup_filter, sort_NoDup, unique_NoDup.
Qed.

Lemma bins_sorted (df : list Binned) :
  StronglySorted (fun a b => String.leb a b = true) (bins df).
Proof. apply sorted_strong. Qed.

Lemma agg_bin (df : list Binned) (bs : list string) (s : Sample) :
  In s (agg df bs) -> In (s_bin s) bs /\ In s (agg_all df).
Proof.
  unfold agg. rewrite filter_In, isin_In. tauto.
Qed.

End Weeks.


Lemma add_row_weeks (P : string -> Prop) (sd : shelter_dict) (r : Scaled) :
  weeks_within P sd -> P (s_bin (sample r)) -> weeks_within P (add_row sd r).
Proof.
  intros Hsd Hr sid weeks b Hget Hb. unfold add_row in Hget.
  destruct (string_dec (s_code (sample r)) sid) as [E | N].
  - rewrite E, get_set_same in Hget. injection Hget as <-.
    rewrite keys_set in Hb.
    destruct (Dict.get sd sid) as [w|] eqn:G.
    + destruct (Dict.mem w (s_bin (sample r))).
      * eapply Hsd; eauto.
      * apply in_app_or in Hb. destruct Hb as [Hb | [<- | []]]; [|exact Hr].
        eapply Hsd; eauto.
    + simpl in Hb. destruct Hb as [<- | []]. exact Hr.
  - rewrite get_set_other in Hget by exact N. eapply Hsd; eauto.
Qed.

Lemma build_weeks (P : string -> Prop) (rows : list Scaled) :
  (forall r, In r rows -> P (s_bin (sample r))) -> weeks_within P (shelter_data rows).
Proof.
  unfold shelter_data.
  assert (G : forall sd, weeks_within P sd ->
                         (forall r, In r rows -> P (s_bin (sample r))) ->
                         weeks_within P (fold_left add_row rows sd)).
  { induction rows as [| r rest IH]; intros sd Hsd Hrows; simpl; [exact Hsd|].
    apply IH.
    - apply add_row_weeks; [exact Hsd | apply Hrows; left; reflexivity].
    - intros x Hx. apply Hrows. right. exact Hx. }
  apply G. intros sid weeks b H. discriminate H.
Qed.

Lemma scale_sample (a : list Sample) (r : Scaled) :
  In r (scale a) -> In (sample r) a.
Proof.
  unfold scale. destruct (Mapper.cap_bounds _) as [[lo hi]|]; [|intros []].
  intros H. apply in_map_iff in H. destruct H as (s & <- & Hs). exact Hs.
Qed.


Lemma center_of_none (a : list Sample) : center_of a = None <-> a = [].
Proof. destruct a; simpl; split; congruence. Qed.

(** C7: when no observed week bin is at or after the start period, the
    run ends with the [ValueError] of line 97 and has had no effect, so
    no map is saved.  Otherwise the list [bins] is sorted, without
    repetition, and holds exactly the observed bins at or after the
    start period, and every row of [agg] has its bin in that list.  The
    run then goes one of two ways.  With a row in [agg] it saves one
    document, after printing only; the [BINS] of the document is that
    list and every week of its timeline is in it.  With no row in [agg]
    (every group of a kept week has capacity 0) it ends in [folium.Map]
    with the centre NaN, after printing only: nothing is saved. *)
Theorem empty_bins_abort_else_bins_filter :
  forall (week_label : Z -> string) (period_of : string -> Z)
         (geo_file_exists : bool) (df : list Point),
    let dfb := add_bin week_label df in
    let kept := fun b => In b (map BIN dfb)
                         /\ (start_period period_of <= period_of b)%Z in
    let out := run week_label period_of geo_file_exists df in
    let bs := bins period_of dfb in
    ((forall b, ~ kept b) ->
     out = ([], Some (ValueError "No weekly bins found after start_period."))) /\
    ((exists b, kept b) ->
     StronglySorted (fun a b => String.leb a b = true) bs /\
     NoDup bs /\
     (forall b, In b bs <-> kept b) /\
     (forall s, In s (agg dfb bs) -> In (s_bin s) bs) /\
     ((agg dfb bs <> [] /\
       exists (prints : list effect) (doc : Document),
         out = (prints ++ [SaveMap doc; PrintSaved], None) /\
         (forall e, In e prints -> ~ is_save e) /\
         BINS doc = bs /\
         SHELTER_DATA doc = shelter_data (scale (agg dfb bs)) /\
         weeks_within (fun b => In b bs) (SHELTER_DATA doc))
      \/
      (agg dfb bs = [] /\
       exists prints : list effect,
         out = (prints, Some LocationValueError) /\
         (forall e, In e prints -> ~ is_save e)))).
Proof.
  intros wl po geo df dfb kept out bs. subst out. unfold run. fold dfb. fold bs.
  pose proof (bins_In po dfb) as HIn.
  pose proof (bins_NoDup po dfb) as HND.
  pose proof (bins_sorted po dfb) as HS.
  fold bs in HIn, HND, HS.
  destruct bs as [| first rest] eqn:E.
  - split; [reflexivity|].
    intros (b & Hb). apply HIn in Hb. destruct Hb.
  - split.
    + intros Hno. elim (Hno first). apply HIn. left. reflexivity.
    + intros _. rewrite <- E in *. clear E.
      set (a := agg dfb bs).
      split; [exact HS|]. split; [exact HND|]. split; [exact HIn|].
      split; [intros s Hs; apply (agg_bin dfb bs s Hs)|].
      destruct (center_of a) as [c|] eqn:Hc.
      * left. split; [intros Ha; apply center_of_none in Ha; congruence|].
        exists ([PrintBins first (last bs first) (List.length bs)]
                  ++ (if geo then [] else [PrintNoShapefile])),
               (mkDocument c (shelter_data (scale a)) bs).
        split; [rewrite <- app_assoc; reflexivity|].
        split.
        { intros e He. apply in_app_or in He.
          destruct He as [[<- | []] | He]; [intros [] |].
          destruct geo; [destruct He|]. destruct He as [<- | []]. intros []. }
        cbn [BINS SHELTER_DATA].
        split; [reflexivity|]. split; [reflexivity|].
        apply build_weeks. intros r Hr. apply scale_sample in Hr.
        apply (agg_bin dfb bs _ Hr).
      * right. split; [apply center_of_none, Hc|].
        exists [PrintBins first (last bs first) (List.length bs)].
        split; [reflexivity|].
        intros e [<- | []]. intros [].
Qed.

End PipelineFacts.

(* ------------------------------------------------------------------ *)
(** ** Aggregation of one group *)

Module AggregateFacts.
Import Num Normalizer Resolver Binner Timeline Renderer.

Lemma key_eqb_refl (k : key) : key_eqb k k = true.
Proof.
  destruct k as [[[b c] la] lo]. unfold key_eqb.
  rewrite !String.eqb_refl, !Qeq_bool_refl. reflexivity.
Qed.

(** A frame in which all rows have the same key has one group, with the
    means of its columns. *)
Lemma agg_all_pair (r1 r2 : Binned) :
  key_of r2 = key_of r1 ->
  map (aggregate [r1; r2]) (sort key_leb (unique_keys (map key_of [r1; r2])))
  = [aggregate [r1; r2] (key_of r1)].
Proof.
  intros E. cbn [map unique_keys filter]. rewrite E, key_eqb_refl. reflexivity.
Qed.

(** C3, as the specification states it, fails in its last part: the two
    records give the rate 0.8333, and the colour of that rate is the
    second entry of the palette, not the first. *)
Lemma colour_of_08333_is_not_first :
  let df := [mkBinned (mkPoint (mkRow "X" "X" 50 40 19723) 0 0) "W1";
             mkBinned (mkPoint (mkRow "X" "X" 70 60 19724) 0 0) "W1"]%string in
  exists (f : Frame),
    shelter_data (scale (agg_all df)) = [("X", [("W1", f)])]%string /\
    rate f == 8333 # 10000 /\
    rateColor (rate f) = index PALETTE 1 /\
    rateColor (rate f) <> index PALETTE 0.
Proof.
  eexists. split; [vm_compute; reflexivity|].
  split; [reflexivity|].
  split; [vm_compute; reflexivity | vm_compute; discriminate].
Qed.

(** C3 (amended): two records of one shelter in one week bin, with
    capacities 50 and 70 and occupied values 40 and 60, form one row of
    [agg] with [total_cap] 60 and [occupied] 50, the means and not the
    sums 120 and 100, and rate 50/60; the timeline stores the rate
    0.8333, and its colour is the palette entry at index 1, [#4C6D8D]. *)
Theorem two_records_aggregate_by_mean :
  forall (bin sid fsa1 fsa2 : string) (la lo : Q) (d1 d2 : Z),
    let df := [mkBinned (mkPoint (mkRow sid fsa1 50 40 d1) la lo) bin;
               mkBinned (mkPoint (mkRow sid fsa2 70 60 d2) la lo) bin] in
    exists (s : Sample),
      agg_all df = [s] /\
      s_bin s = bin /\ s_code s = sid /\
      total_cap s == 60 /\
      occupied s == 50 /\
      Binner.rate s == 50 / 60 /\
      ~ total_cap s == 50 + 70 /\
      ~ occupied s == 40 + 60 /\
      (forall r, In r (scale (agg_all df)) ->
                 rate (frame_of r) == 8333 # 10000 /\
                 rateColor (rate (frame_of r)) = index PALETTE 1 /\
                 rateColor (rate (frame_of r)) = Some "#4C6D8D"%string).
Proof.
  intros bin sid fsa1 fsa2 la lo d1 d2 df.
  assert (Hagg : agg_all df
                 = [mkSample bin sid la lo (mean [50; 70]) (mean [40; 60])
                             (mean [40; 60] / mean [50; 70])]).
  { unfold agg_all. subst df. rewrite agg_all_pair by reflexivity.
    unfold aggregate.
    repeat (cbn [filter key_of b_point BIN p_code p_row code lat lon];
            rewrite key_eqb_refl).
    cbn [map cap occ p_row b_point]. reflexivity. }
  eexists. split; [exact Hagg|]. cbn [s_bin s_code total_cap occupied Binner.rate].
  repeat (split; [reflexivity|]).
  split; [intros H; vm_compute in H; discriminate|].
  split; [intros H; vm_compute in H; discriminate|].
  intros r Hr. rewrite Hagg in Hr. unfold scale in Hr.
  cbn [map total_cap] in Hr.
  assert (Hb : Mapper.cap_bounds [mean [50; 70]]
               = Some (mean [50; 70], mean [50; 70] + 1)) by reflexivity.
  rewrite Hb in Hr. destruct Hr as [<- | []].
  unfold frame_of. cbn [rate sample Binner.rate].
  assert (E : py_round (mean [40; 60] / mean [50; 70]) 4 = 8333 # 10000)
    by (vm_compute; reflexivity).
  rewrite E. split; [reflexivity|]. split; vm_compute; reflexivity.
Qed.

End AggregateFacts.

(* ------------------------------------------------------------------ *)
(** ** States the script reaches *)

Module ReachFacts.
Import Timeline Renderer RenderFacts TransportFacts DictFacts Shape.
Local Open Scope string_scope.

Section Script.
Variable SHELTER_DATA : shelter_dict.
Variable BINS : list string.

Lemma init_circles_NoDup sd cs prevs log cs' prevs' log' :
  init_circles sd (cs, prevs, log) = Some (cs', prevs', log') ->
  NoDup (Dict.keys cs) -> NoDup (Dict.keys cs').
Proof.
  revert cs prevs log. induction sd as [| [sid weeks] rest IH]; intros cs prevs log.
  - simpl. intros H. injection H as <- <- <-. trivial.
  - simpl. destruct (Dict.keys weeks) as [| firstBin ?]; [discriminate|].
    destruct (Dict.get weeks firstBin) as [d|]; [|discriminate].
    intros H ND. eapply IH; [exact H|]. apply set_NoDup, ND.
Qed.

(** After [init] the circle keys are pairwise distinct and week 0 is
    shown. *)
Lemma init_state (st : State) (log : list call) :
  init SHELTER_DATA BINS = Some (st, log) ->
  NoDup (Dict.keys (circles st)) /\ currentBin st = 0%Z
  /\ playing st = false /\ playTimer st = false.
Proof.
  unfold init.
  destruct (init_circles SHELTER_DATA ([], [], [])) as [[[cs prevs] l0]|] eqn:E;
    [|discriminate].
  pose proof (init_circles_NoDup _ _ _ _ _ _ _ E (NoDup_nil _)) as ND.
  pose proof (renderBin_circles SHELTER_DATA BINS
                (mkState 0 false false cs prevs false) 0) as Hc.
  pose proof (renderBin_currentBin SHELTER_DATA BINS
                (mkState 0 false false cs prevs false) 0) as Hi.
  unfold renderBin in *.
  destruct (fold_left _ _ _) as [p l]. simpl in *.
  intros H. injection H as <- <-. simpl. auto.
Qed.







(** With at least one week, the week index stays a position of [BINS]
    from [init] on. *)
Lemma reached_in_range (st0 : State) (log : list call) (evs : list event) :
  init SHELTER_DATA BINS = Some (st0, log) ->
  BINS <> [] ->
  Forall (deliverable BINS) evs ->
  in_range BINS (fst (run SHELTER_DATA BINS st0 evs)).
Proof.
  intros Hinit Hne Hevs. apply run_in_range; [exact Hne | | exact Hevs].
  destruct (init_state st0 log Hinit) as (_ & H0 & _).
  unfold in_range, BINS_length. rewrite H0.
  destruct BINS; [congruence | simpl List.length; lia].
Qed.

End Script.


(** C1: the boundary of the claim.  Shelter Y goes from rate 0.70 to
    0.71 and shelter Z from 0.20 to 0.21, each a step of exactly 0.01,
    which is not more than one percentage point.  Rendering the second
    week after [init], the script starts the pulse for Y, since the
    Number [0.71 - 0.7] is above the Number [0.01], and sets the radius
    directly for Z. *)
Theorem step_of_one_point_pulses :
  let log := snd (renderBin Step.SHELTER_DATA Demo.BINS Step.started 1) in
  option_map fst (init Step.SHELTER_DATA Demo.BINS) = Some Step.started /\
  Qabs ((71 # 100) - (70 # 100)) == 1 # 100 /\
  Double.lit (1 # 100) < Renderer.delta (71 # 100) (70 # 100) /\
  In (Pulse "Y" blue 100) log /\
  ~ In (SetRadius "Y" blue 100) log /\
  Qabs ((21 # 100) - (20 # 100)) == 1 # 100 /\
  Renderer.delta (21 # 100) (20 # 100) < Double.lit (1 # 100) /\
  In (SetRadius "Z" blue 100) log /\
  ~ In (Pulse "Z" blue 100) log.
Proof.
  intros log.
  assert (E : log = [SliderValue 1; LabelText (Some "W2"%string);
                     SetLatLng "Y" blue 0 0; SetLatLng "Y" green 0 0;
                     SetStyle "Y" (Some "#386D9C"%string); SetTooltip "Y" 71;
                     SetRadius "Y" green 2000; Pulse "Y" blue 100;
                     SetLatLng "Z" blue 0 0; SetLatLng "Z" green 0 0;
                     SetStyle "Z" (Some "#2e8b57"%string); SetTooltip "Z" 21;
                     SetRadius "Z" green 2000; SetRadius "Z" blue 100])
    by (vm_compute; reflexivity).
  rewrite E.
  split; [vm_compute; reflexivity|].
  split; [reflexivity|].
  split; [vm_compute; reflexivity|].
  split; [cbn [In]; tauto|].
  split; [intros H; cbn [In] in H;
          repeat (destruct H as [H | H]; [discriminate H|]); exact H|].
  split; [reflexivity|].
  split; [vm_compute; reflexivity|].
  split; [cbn [In]; tauto|].
  intros H; cbn [In] in H;
    repeat (destruct H as [H | H]; [discriminate H|]); exact H.
Qed.

End ReachFacts.

(* ------------------------------------------------------------------ *)
(** ** The theorems on the small data set *)

Module Scenarios.
Import Normalizer Resolver Binner Timeline Pipeline Renderer.
Local Open Scope string_scope.

(** The whole script on the eight rows. *)
Example script_on_rows :
  Demo.script Demo.rows
  = ([PrintBins "2024-01-01/2024-01-07" "2024-01-08/2024-01-14" 2;
      SaveMap
        (mkDocument
           (8714426560290000000000 # 199600200000000000000,
            -15838500804840000000000 # 199600200000000000000)
           [("M5V2T6",
             [("2024-01-01/2024-01-07",
               mkFrame (43629911 # 1000000) (-79392504 # 1000000)
                       (8333 # 10000) (5000 # 10) (32187 # 10))]);
            ("M4C1B5",
             [("2024-01-08/2024-01-14",
               mkFrame (43688905 # 1000000) (-79309750 # 1000000)
                       (4000 # 10000) (800 # 10) (12070 # 10))])]
           ["2024-01-01/2024-01-07"; "2024-01-08/2024-01-14"]);
      PrintSaved],
     None).
Proof. vm_compute. reflexivity. Qed.

Example geocode_on_rows : Demo.points Demo.rows = Demo.frame.
Proof. vm_compute. reflexivity. Qed.

Example jitter_on_mixed_frame :
  map (fun p => (p_code p, Resolver.lat p, Resolver.lon p))
      (jitter_dupes MD5.md5_word Demo.mixed_frame)
  = [("M5V2T6", (436289 # 10000) + (10100 # 9990000),
      (-793944 # 10000) + (18940 # 9990000));
     ("M6G1A1", 4366 # 100, -7942 # 100);
     ("M5V2T6", (436289 # 10000) + (10100 # 9990000),
      (-793944 # 10000) + (18940 # 9990000))].
Proof. vm_compute. reflexivity. Qed.

Example init_on_timeline :
  init Demo.SHELTER_DATA Demo.BINS = Some (Demo.started, Demo.boot_log).
Proof. vm_compute. reflexivity. Qed.

Example md5_of_empty_string :
  MD5.hexdigest "" = "d41d8cd98f00b204e9800998ecf8427e".
Proof. vm_compute. reflexivity. Qed.

Example md5_of_abc :
  MD5.hexdigest "abc" = "900150983cd24fb0d6963f7d28e17f72".
Proof. vm_compute. reflexivity. Qed.

Example md5_word_of_code : MD5.md5_word "M5V2T6" = 1458973752%Z.
Proof. vm_compute. reflexivity. Qed.



Lemma two_records_aggregate_by_mean_witness :
  exists s : Sample,
    agg_all [mkBinned (mkPoint (mkRow "X" "X" 50 40 19723) 0 0) "W1";
             mkBinned (mkPoint (mkRow "X" "X" 70 60 19724) 0 0) "W1"] = [s] /\
    total_cap s == 60 /\ occupied s == 50.
Proof.
  destruct (AggregateFacts.two_records_aggregate_by_mean
              "W1" "X" "X" "X" 0 0 19723 19724)
    as (s & H1 & _ & _ & H2 & H3 & _).
  exists s. auto.
Defined.

(** The two rows of M5V2T6 are duplicates of each other. *)
Lemma jitter_offset_fixed_by_code_witness :
  dupe Demo.frame Demo.twin1 = true /\
  dupe Demo.mixed_frame Demo.twin2 = true /\
  p_code Demo.twin1 = p_code Demo.twin2 /\
  fst (offset_of MD5.md5_word Demo.frame Demo.twin1)
  == fst (offset_of MD5.md5_word Demo.mixed_frame Demo.twin2) /\
  Qabs (fst (offset_of MD5.md5_word Demo.frame Demo.twin1)) <= 2 # 1000.
Proof.
  assert (D1 : dupe Demo.frame Demo.twin1 = true) by reflexivity.
  assert (D2 : dupe Demo.mixed_frame Demo.twin2 = true) by reflexivity.
  assert (E : p_code Demo.twin1 = p_code Demo.twin2) by reflexivity.
  pose proof (JitterFacts.jitter_offset_fixed_by_code
                MD5.md5_word Demo.frame Demo.mixed_frame Demo.twin1 Demo.twin2
                D1 D2 E) as (H1 & _ & _ & _ & H2 & _).
  split; [exact D1|]. split; [exact D2|]. split; [exact E|].
  split; [exact H1 | exact H2].
Defined.

Lemma degenerate_range_gives_min_radius_witness :
  let agg := [mkSample "W1" "A" 0 0 40 10 (1 # 4);
              mkSample "W1" "B" 1 1 40 30 (3 # 4)] in
  Mapper.series_min (map total_cap agg) = Some 40 /\
  Mapper.series_max (map total_cap agg) = Some 40 /\
  Mapper.cap_bounds (map total_cap agg) = Some (40, 40 + 1) /\
  (forall r, In r (scale agg) -> s_radius r == Mapper.CAP_MIN_R).
Proof.
  intros agg.
  assert (Hm : Mapper.series_min (map total_cap agg) = Some 40) by reflexivity.
  assert (HM : Mapper.series_max (map total_cap agg) = Some 40) by reflexivity.
  destruct (DegenerateRange.degenerate_range_gives_min_radius agg 40 40 Hm HM)
    as (H1 & _ & _ & H2 & _); [reflexivity|].
  auto.
Defined.

(** The rows of 2023 end the run with the error; the eight rows do not. *)
Lemma empty_bins_abort_else_bins_filter_witness :
  Demo.script Demo.old_rows
  = ([], Some (ValueError "No weekly bins found after start_period.")) /\
  exists prints doc,
    Demo.script Demo.rows = ((prints ++ [SaveMap doc; PrintSaved])%list, None) /\
    NoDup (BINS doc).
Proof.
  assert (E1 : Demo.script Demo.old_rows
               = Pipeline.run Calendar.week_label Calendar.period_of true
                   (jitter_dupes MD5.md5_word (Demo.points Demo.old_rows)))
    by (vm_compute; reflexivity).
  assert (E2 : Demo.script Demo.rows
               = Pipeline.run Calendar.week_label Calendar.period_of true
                   (jitter_dupes MD5.md5_word (Demo.points Demo.rows)))
    by (vm_compute; reflexivity).
  rewrite E1, E2.
  pose proof (PipelineFacts.empty_bins_abort_else_bins_filter
                Calendar.week_label Calendar.period_of true
                (jitter_dupes MD5.md5_word (Demo.points Demo.old_rows))) as T1.
  pose proof (PipelineFacts.empty_bins_abort_else_bins_filter
                Calendar.week_label Calendar.period_of true
                (jitter_dupes MD5.md5_word (Demo.points Demo.rows))) as T2.
  cbv zeta in T1, T2. apply proj1 in T1. apply proj2 in T2.
  split.
  - apply T1.
    intros b [Hb Hs]. vm_compute in Hb.
    destruct Hb as [<- | [<- | []]]; vm_compute in Hs; apply Hs; reflexivity.
  - assert (K : exists b : string,
                 In b (map BIN (add_bin Calendar.week_label
                                  (jitter_dupes MD5.md5_word (Demo.points Demo.rows))))
                 /\ (start_period Calendar.period_of <= Calendar.period_of b)%Z).
    { exists "2024-01-01/2024-01-07".
      split; [vm_compute; auto | vm_compute; discriminate]. }
    apply T2 in K.
    destruct K as (_ & ND & _ & _ & [(_ & prints & doc & H1 & _ & H2 & _) | (E & _)]).
    + exists prints, doc. split; [exact H1 | rewrite H2; exact ND].
    + vm_compute in E. discriminate E.
Defined.

Lemma transport_keeps_week_in_range_witness :
  let st := fst (handle Demo.SHELTER_DATA Demo.BINS Demo.started PlayClick) in
  Demo.BINS <> [] /\
  in_range Demo.BINS st /\
  in_range Demo.BINS
    (fst (run Demo.SHELTER_DATA Demo.BINS st
              [TimerFire; TimerFire; NextClick; NextClick; PrevClick;
               SliderInput 1; PlayClick; TimerFire])).
Proof.
  intros st.
  assert (Hne : Demo.BINS <> []) by discriminate.
  assert (Hst : in_range Demo.BINS st) by (split; discriminate).
  assert (Hevs : Forall (deliverable Demo.BINS)
                        [TimerFire; TimerFire; NextClick; NextClick; PrevClick;
                         SliderInput 1; PlayClick; TimerFire]).
  { repeat (apply Forall_cons; [first [exact I | split; discriminate]|]).
    apply Forall_nil. }
  pose proof (TransportFacts.transport_keeps_week_in_range
                Demo.SHELTER_DATA Demo.BINS st _ Hne Hst Hevs) as H.
  apply proj1 in H.
  split; [exact Hne|]. split; [exact Hst | exact H].
Defined.

Lemma clean_keeps_values_witness :
  In (mkRow "M5V2T6" "M5V" 70 60 19725) (Demo.clean Demo.rows) /\
  exists raw s,
    In raw Demo.rows /\ raw_code raw = Some s /\
    Text.remove_spaces (Text.upper s) = "M5V2T6" /\
    to_numeric Calendar.parse_number (raw_cap raw) = Some 70.
Proof.
  assert (H : In (mkRow "M5V2T6" "M5V" 70 60 19725) (Demo.clean Demo.rows)).
  { vm_compute. right. left. reflexivity. }
  split; [exact H|].
  destruct (NormalizerFacts.clean_keeps_values
              Calendar.parse_number Calendar.parse_date Demo.rows _ H)
    as (raw & s & H1 & H2 & H3 & _ & H4 & _).
  exists raw, s. cbn [code cap] in H3, H4.
  split; [exact H1|]. split; [exact H2|]. split; [symmetry; exact H3 | exact H4].
Defined.

Lemma duplicate_group_moves_together_witness :
  nth_error Demo.mixed_frame 0 = Some Demo.twin1 /\
  nth_error Demo.mixed_frame 2 = Some Demo.twin2 /\
  same_spot Demo.twin1 Demo.twin2 = true /\
  exists p' q',
    nth_error (jitter_dupes MD5.md5_word Demo.mixed_frame) 0 = Some p' /\
    nth_error (jitter_dupes MD5.md5_word Demo.mixed_frame) 2 = Some q' /\
    same_spot p' q' = true.
Proof.
  assert (Ep : nth_error Demo.mixed_frame 0 = Some Demo.twin1) by reflexivity.
  assert (Eq : nth_error Demo.mixed_frame 2 = Some Demo.twin2) by reflexivity.
  assert (S : same_spot Demo.twin1 Demo.twin2 = true) by reflexivity.
  pose proof (JitterFacts.duplicate_group_moves_together
                MD5.md5_word Demo.mixed_frame 0 Demo.twin1 Ep) as [H _].
  pose proof (H 2%nat Demo.twin2 Eq S) as (p' & q' & H1 & H2 & _ & _ & H3 & _).
  split; [exact Ep|]. split; [exact Eq|]. split; [exact S|].
  exists p', q'.
  split; [exact H1|]. split; [exact H2 | exact H3].
Defined.

End Scenarios.

(* ================================================================== *)
(** * Further properties *)

(* ------------------------------------------------------------------ *)
(** ** Weeks without a frame, and rendering a week again *)

Module RenderMore.
Import Num Timeline Renderer DictFacts RenderFacts TransportFacts.

Section Script.
Variable SHELTER_DATA : shelter_dict.
Variable BINS : list string.

Local Abbreviation render_one := (render_one SHELTER_DATA).
Local Abbreviation frame_at := (frame_at SHELTER_DATA).
Local Abbreviation renderBin := (renderBin SHELTER_DATA BINS).

Lemma render_one_miss bin acc sid :
  frame_at sid bin = None -> render_one bin acc sid = acc.
Proof.
  intros H. destruct acc as [prevs log]. unfold Renderer.render_one.
  rewrite H. reflexivity.
Qed.

Lemma frame_at_no_bin sid : frame_at sid None = None.
Proof. unfold Renderer.frame_at. destruct (Dict.get SHELTER_DATA sid); reflexivity. Qed.

(** The loop only makes calls for shelters that have a frame, and only
    touches their stored rates. *)
Lemma fold_render_hits bin ks prevs log :
  exists ext,
    snd (fold_left (render_one bin) ks (prevs, log)) = log ++ ext /\
    (forall c, In c ext ->
               exists k d, In k ks /\ frame_at k bin = Some d
                           /\ call_sid c = Some k) /\
    (forall sid, frame_at sid bin = None ->
                 Dict.get (fst (fold_left (render_one bin) ks (prevs, log))) sid
                 = Dict.get prevs sid).
Proof.
  revert prevs log. induction ks as [| k r IH]; intros prevs log.
  - exists []. simpl. rewrite app_nil_r. repeat split; auto. intros c [].
  - cbn [fold_left]. destruct (frame_at k bin) as [d|] eqn:E.
    + rewrite (render_one_hit _ _ _ _ _ _ E).
      destruct (IH (Dict.set prevs k (rate d))
                   (log ++ shelter_calls k d (last_rate prevs k d)))
        as (e2 & G1 & G2 & G3).
      exists (shelter_calls k d (last_rate prevs k d) ++ e2).
      rewrite G1, app_assoc. split; [reflexivity|]. split.
      * intros c Hc. apply in_app_or in Hc. destruct Hc as [Hc | Hc].
        -- exists k, d. split; [left; reflexivity|]. split; [exact E|].
           cbn [shelter_calls In] in Hc.
           destruct (changed (rate d) (last_rate prevs k d));
             repeat (destruct Hc as [<- | Hc]; [reflexivity|]); destruct Hc.
        -- destruct (G2 c Hc) as (k' & d' & ? & ? & ?).
           exists k', d'. split; [right; assumption | auto].
      * intros sid Hs. rewrite (G3 sid Hs). apply get_set_other.
        intros ->. congruence.
    + rewrite (render_one_miss _ _ _ E).
      destruct (IH prevs log) as (e2 & G1 & G2 & G3).
      exists e2. split; [exact G1|]. split; [|exact G3].
      intros c Hc. destruct (G2 c Hc) as (k' & d' & ? & ? & ?).
      exists k', d'. split; [right; assumption | auto].
Qed.

Lemma fold_render_no_bin ks acc :
  fold_left (render_one None) ks acc = acc.
Proof.
  revert acc. induction ks as [| k r IH]; intros acc; [reflexivity|].
  cbn [fold_left]. rewrite (render_one_miss _ _ _ (frame_at_no_bin k)). apply IH.
Qed.

Lemma index_outside {A} (l : list A) (i : Z) :
  (i < 0 \/ Z.of_nat (List.length l) <= i)%Z -> index l i = None.
Proof.
  intros H. unfold index. destruct (Z.ltb_spec i 0); [reflexivity|].
  apply nth_error_None. lia.
Qed.

Lemma renderBin_flags st idx :
  playing (fst (renderBin st idx)) = playing st /\
  playTimer (fst (renderBin st idx)) = playTimer st /\
  ui (fst (renderBin st idx)) = ui st.
Proof.
  unfold Renderer.renderBin. destruct (fold_left _ _ _). auto.
Qed.

Lemma renderBin_log st idx :
  exists ext,
    snd (renderBin st idx)
    = (if ui st then [SliderValue idx; LabelText (index BINS idx)] else []) ++ ext /\
    (forall c, In c ext ->
               exists k d, In k (Dict.keys (circles st))
                           /\ frame_at k (index BINS idx) = Some d
                           /\ call_sid c = Some k) /\
    (forall sid, frame_at sid (index BINS idx) = None ->
                 Dict.get (prevRate (fst (renderBin st idx))) sid
                 = Dict.get (prevRate st) sid).
Proof.
  unfold Renderer.renderBin.
  destruct (fold_render_hits (index BINS idx) (Dict.keys (circles st)) (prevRate st)
              (if ui st then [SliderValue idx; LabelText (index BINS idx)] else []))
    as (ext & H1 & H2 & H3).
  destruct (fold_left _ _ _) as [p l]. simpl in *. exists ext. auto.
Qed.

End Script.

(** X1: a shelter that has no frame for the week rendered gets no call
    at all, neither on its circles nor on its tooltip, and the rate
    stored for it stays what it was. *)
Theorem renderBin_skips_shelter_without_frame :
  forall (SHELTER_DATA : shelter_dict) (BINS : list string)
         (st : State) (idx : Z) (sid : string),
    frame_at SHELTER_DATA sid (index BINS idx) = None ->
    (forall c, In c (snd (renderBin SHELTER_DATA BINS st idx)) ->
               call_sid c <> Some sid) /\
    Dict.get (prevRate (fst (renderBin SHELTER_DATA BINS st idx))) sid
    = Dict.get (prevRate st) sid.
Proof.
  intros SD BINS st idx sid Hnone.
  destruct (renderBin_log SD BINS st idx) as (ext & H1 & H2 & H3).
  split; [|apply H3, Hnone].
  intros c Hc. rewrite H1 in Hc. apply in_app_or in Hc. destruct Hc as [Hc | Hc].
  - destruct (ui st); simpl in Hc.
    + destruct Hc as [<- | [<- | []]]; discriminate.
    + destruct Hc.
  - destruct (H2 c Hc) as (k & d & _ & Hk & Ek). rewrite Ek.
    intros E. injection E as ->. congruence.
Qed.

(** X2: [renderBin] does not check its index.  On an index that is no
    position of [BINS] it stores the index as the current week, draws
    nothing, keeps every stored rate, and only sets the slider and
    clears the label when the controls exist. *)
Theorem renderBin_outside_BINS :
  forall (SHELTER_DATA : shelter_dict) (BINS : list string) (st : State) (idx : Z),
    (idx < 0 \/ BINS_length BINS <= idx)%Z ->
    renderBin SHELTER_DATA BINS st idx
    = (mkState idx (playing st) (playTimer st) (circles st) (prevRate st) (ui st),
       if ui st then [SliderValue idx; LabelText None] else []).
Proof.
  intros SD BINS st idx H. unfold renderBin.
  rewrite (index_outside BINS idx H), fold_render_no_bin. reflexivity.
Qed.

(** X3: rendering a week and then the same week again starts no pulse
    the second time, for any shelter: every blue radius is set
    directly. *)
Theorem rerender_never_pulses :
  forall (SHELTER_DATA : shelter_dict) (BINS : list string) (st : State) (idx : Z),
    NoDup (Dict.keys (circles st)) ->
    forall (sid : string) (w : which) (r : Q),
      ~ In (Pulse sid w r)
           (snd (renderBin SHELTER_DATA BINS
                   (fst (renderBin SHELTER_DATA BINS st idx)) idx)).
Proof.
  intros SD BINS st idx ND sid w r Hin.
  set (st' := fst (renderBin SD BINS st idx)) in *.
  assert (Hc : circles st' = circles st) by apply renderBin_circles.
  destruct (renderBin_log SD BINS st' idx) as (ext & H1 & H2 & _).
  rewrite H1 in Hin. apply in_app_or in Hin. destruct Hin as [Hin | Hin].
  { destruct (ui st'); simpl in Hin;
      [destruct Hin as [E | [E | []]]; discriminate E | destruct Hin]. }
  destruct (H2 _ Hin) as (k & d & Hk & Hd & Ek).
  simpl in Ek. injection Ek as <-. rewrite Hc in Hk.
  pose proof (renderBin_effects SD BINS st idx sid d ND Hk Hd) as A.
  cbv zeta in A. destruct A as (_ & _ & _ & _ & _ & _ & _ & _ & Hprev).
  fold st' in Hprev.
  assert (ND' : NoDup (Dict.keys (circles st'))) by (rewrite Hc; exact ND).
  assert (Hk' : In sid (Dict.keys (circles st'))) by (rewrite Hc; exact Hk).
  pose proof (renderBin_effects SD BINS st' idx sid d ND' Hk' Hd) as B.
  cbv zeta in B. unfold last_rate in B. rewrite Hprev in B.
  destruct B as (_ & _ & Hset & _).
  destruct Hset as [_ No].
  - apply changed_false, changed_same.
  - apply (No w r). destruct (renderBin_log SD BINS st' idx) as (e & E1 & _).
    rewrite H1. apply in_or_app. right. exact Hin.
Qed.

End RenderMore.

(* ------------------------------------------------------------------ *)
(** ** Play, pause and the timer *)

Module TransportMore.
Import Timeline Renderer RenderFacts TransportFacts RenderMore ReachFacts.

Section Script.
Variable SHELTER_DATA : shelter_dict.
Variable BINS : list string.

Local Abbreviation renderBin := (renderBin SHELTER_DATA BINS).
Local Abbreviation handle := (handle SHELTER_DATA BINS).
Local Abbreviation run := (run SHELTER_DATA BINS).
Local Abbreviation N := (BINS_length BINS).

Lemma stop_render_flags st idx :
  let st' := fst (let '(st1, l1) := stopPlay st in
                  and_then st1 l1 (fun s => renderBin s (idx s))) in
  playing st' = false /\ playTimer st' = false.
Proof.
  unfold stopPlay, and_then. cbn [fst].
  match goal with
  | |- context [Renderer.renderBin ?a ?b ?c ?d] =>
      pose proof (renderBin_flags a b c d) as H;
      destruct (Renderer.renderBin a b c d)
  end.
  simpl in *. tauto.
Qed.

Lemma tick_flags st :
  playing (fst (tick SHELTER_DATA BINS st)) = playing st /\
  playTimer (fst (tick SHELTER_DATA BINS st)) = true.
Proof.
  unfold tick.
  match goal with
  | |- context [Renderer.renderBin ?a ?b ?c ?d] =>
      pose proof (renderBin_flags a b c d) as H;
      destruct (Renderer.renderBin a b c d)
  end.
  simpl in *. tauto.
Qed.

(** What each event does to the play flag and the timer. *)
Lemma handle_flags st ev :
  let st' := fst (handle st ev) in
  match ev with
  | SliderInput _ | PrevClick | NextClick =>
      playing st' = false /\ playTimer st' = false
  | PlayClick =>
      playing st' = negb (playing st) /\ playTimer st' = negb (playing st)
  | TimerFire =>
      playing st' = playing st /\ playTimer st' = playTimer st
  end.
Proof.
  destruct ev; unfold Renderer.handle.
  - apply (stop_render_flags st (fun _ => value)).
  - apply (stop_render_flags st (fun s => Z.max 0 (currentBin s - 1))).
  - apply (stop_render_flags st (fun s => Z.min (N - 1) (currentBin s + 1))).
  - destruct (playing st); simpl; auto.
  - destruct (playTimer st) eqn:E; [|simpl; auto].
    destruct (tick_flags st) as [H1 H2]. cbv zeta. rewrite H1, H2. auto.
Qed.

Lemma handle_keeps_timer_rule st ev :
  playTimer st = playing st ->
  playTimer (fst (handle st ev)) = playing (fst (handle st ev)).
Proof.
  intros H. pose proof (handle_flags st ev) as F. cbv zeta in F.
  destruct ev; destruct F as [F1 F2]; congruence.
Qed.

Lemma run_keeps_timer_rule st evs :
  playTimer st = playing st ->
  playTimer (fst (run st evs)) = playing (fst (run st evs)).
Proof.
  revert st. induction evs as [| ev r IH]; intros st H; [exact H|].
  simpl. pose proof (handle_keeps_timer_rule st ev H) as H1.
  destruct (Renderer.handle SHELTER_DATA BINS st ev) as [st1 l1].
  specialize (IH st1 H1).
  destruct (Renderer.run SHELTER_DATA BINS st1 r). exact IH.
Qed.

Lemma tick_step st :
  BINS <> [] -> in_range BINS st -> playTimer st = true ->
  currentBin (fst (handle st TimerFire)) = ((currentBin st + 1) mod N)%Z /\
  playTimer (fst (handle st TimerFire)) = true.
Proof.
  intros Hne Hr Ht. split.
  - rewrite handle_currentBin, Ht. unfold in_range in Hr.
    destruct (Z.leb_spec N (currentBin st + 1)).
    + replace (currentBin st + 1)%Z with N by lia.
      rewrite Z.mod_same; lia.
    + rewrite Z.mod_small; lia.
  - pose proof (handle_flags st TimerFire) as F. cbv zeta in F.
    destruct F as [_ F]. congruence.
Qed.

Lemma ticks_advance (k : nat) st :
  BINS <> [] -> in_range BINS st -> playTimer st = true ->
  currentBin (fst (run st (repeat TimerFire k)))
  = ((currentBin st + Z.of_nat k) mod N)%Z /\
  playTimer (fst (run st (repeat TimerFire k))) = true.
Proof.
  intros Hne. revert st. induction k as [| k IH]; intros st Hr Ht.
  - simpl. split; [|exact Ht]. unfold in_range in Hr.
    rewrite Z.add_0_r, Z.mod_small; lia.
  - cbn [repeat Renderer.run].
    destruct (tick_step st Hne Hr Ht) as [A1 A2].
    assert (Hr1 : in_range BINS (fst (handle st TimerFire))).
    { apply handle_in_range; [exact Hne | exact Hr | exact I]. }
    destruct (Renderer.handle SHELTER_DATA BINS st TimerFire) as [st1 l1].
    cbn [fst] in *.
    destruct (IH st1 Hr1 A2) as [B1 B2].
    destruct (Renderer.run SHELTER_DATA BINS st1 (repeat TimerFire k)) as [st2 l2].
    cbn [fst] in *. split; [|exact B2].
    rewrite B1, A1, Z.add_mod_idemp_l by (unfold in_range in Hr; lia).
    f_equal. lia.
Qed.

End Script.

(** X4: in every state the script reaches from [init] a tick is pending
    exactly when the script is playing.  From such a state, a slider
    input and the back and forward buttons leave it paused with no tick
    pending, the play button flips between playing and paused, and a
    tick changes neither. *)
Theorem timer_pending_iff_playing :
  forall (SHELTER_DATA : shelter_dict) (BINS : list string)
         (st0 : State) (log0 : list call) (evs : list event),
    init SHELTER_DATA BINS = Some (st0, log0) ->
    let st := fst (run SHELTER_DATA BINS st0 evs) in
    playTimer st = playing st /\
    (forall ev,
        let st' := fst (handle SHELTER_DATA BINS st ev) in
        match ev with
        | SliderInput _ | PrevClick | NextClick =>
            playing st' = false /\ playTimer st' = false
        | PlayClick =>
            playing st' = negb (playing st) /\ playTimer st' = negb (playing st)
        | TimerFire =>
            playing st' = playing st /\ playTimer st' = playTimer st
        end).
Proof.
  intros SD BINS st0 log0 evs Hinit st. split.
  - apply run_keeps_timer_rule.
    destruct (init_state SD BINS st0 log0 Hinit) as (_ & _ & Hp & Ht). congruence.
  - intros ev. apply handle_flags.
Qed.

(** X5: auto-play goes round the weeks.  From a week of [BINS] with a
    tick pending, [k] ticks in a row show week [(i + k) mod BINS.length]
    and leave a tick pending; so [BINS.length] ticks show the week they
    started from. *)
Theorem autoplay_goes_round :
  forall (SHELTER_DATA : shelter_dict) (BINS : list string) (st : State) (k : nat),
    BINS <> [] ->
    in_range BINS st ->
    playTimer st = true ->
    currentBin (fst (run SHELTER_DATA BINS st (repeat TimerFire k)))
    = ((currentBin st + Z.of_nat k) mod BINS_length BINS)%Z /\
    playTimer (fst (run SHELTER_DATA BINS st (repeat TimerFire k))) = true /\
    currentBin (fst (run SHELTER_DATA BINS st
                       (repeat TimerFire (List.length BINS))))
    = currentBin st.
Proof.
  intros SD BINS st k Hne Hr Ht.
  destruct (ticks_advance SD BINS k st Hne Hr Ht) as [A1 A2].
  split; [exact A1|]. split; [exact A2|].
  destruct (ticks_advance SD BINS (List.length BINS) st Hne Hr Ht) as [B1 _].
  rewrite B1. unfold in_range, BINS_length in *.
  assert (0 < Z.of_nat (List.length BINS))%Z.
  { destruct BINS; [congruence | simpl List.length; lia]. }
  rewrite <- (Z.mul_1_l (Z.of_nat (List.length BINS))) at 1.
  rewrite Z.mod_add by lia. apply Z.mod_small. lia.
Qed.

End TransportMore.

(* ------------------------------------------------------------------ *)
(** ** The pulse and the colours, for every input *)

Module LookMore.
Import Num NumFacts Renderer ColourFacts.

Lemma easeOut_range (t : Q) : 0 <= t <= 1 -> 0 <= easeOut t <= 1.
Proof.
  intros [H0 H1]. unfold easeOut.
  set (u := 1 - t).
  assert (Hu0 : 0 <= u) by (unfold u; lra).
  assert (Hu1 : u <= 1) by (unfold u; lra).
  assert (Huu0 : 0 <= u * u) by nra.
  assert (Huu1 : u * u <= 1) by nra.
  assert (H30 : 0 <= u * u * u) by nra.
  assert (H31 : u * u * u <= 1) by nra.
  lra.
Qed.

(** X6: a pulse never leaves the band between the target radius and the
    overshoot.  For a non-negative target and at any time from its start
    the radius set lies between the target and 1.35 times the target;
    before 650 ms another frame is requested, and from 650 ms on the
    radius set is the target itself and no frame is requested. *)
Theorem pulse_stays_in_band :
  forall targetR el : Q,
    0 <= targetR ->
    0 <= el ->
    targetR <= fst (pulse_step targetR el) <= targetR * (1 + OVERSHOOT) /\
    (el < ANIM_MS -> snd (pulse_step targetR el) = true) /\
    (ANIM_MS <= el -> pulse_step targetR el = (targetR, false)).
Proof.
  intros T el HT Hel. unfold pulse_step, OVERSHOOT, ANIM_MS.
  assert (P1 : 650 * (40 # 100) == 260) by reflexivity.
  assert (P2 : 650 * (40 # 100) + 650 * (60 # 100) == 650) by reflexivity.
  destruct (Qlt_le_dec el (650 * (40 # 100))) as [L1 | G1];
    destruct (Qlt_le_dec el (650 * (40 # 100) + 650 * (60 # 100))) as [L2 | G2];
    cbn [fst snd]; rewrite ?P1, ?P2 in *.
  - split; [|split; [reflexivity | intros; exfalso; lra]].
    assert (Ht : 0 <= el / (650 * (40 # 100)) <= 1).
    { setoid_replace (el / (650 * (40 # 100))) with (el * (1 # 260)) by field.
      lra. }
    pose proof (easeOut_range _ Ht) as [He0 He1].
    set (e := easeOut (el / (650 * (40 # 100)))) in *.
    split; nra.
  - exfalso. lra.
  - split; [|split; [reflexivity | intros; exfalso; lra]].
    assert (Ht : 0 <= (el - 650 * (40 # 100)) / (650 * (60 # 100)) <= 1).
    { setoid_replace ((el - 650 * (40 # 100)) / (650 * (60 # 100)))
        with ((el - 260) * (1 # 390)) by field.
      lra. }
    pose proof (easeOut_range _ Ht) as [He0 He1].
    set (e := easeOut ((el - 650 * (40 # 100)) / (650 * (60 # 100)))) in *.
    split; nra.
  - split; [split; nra|]. split; [intros; exfalso; lra | reflexivity].
Qed.

Lemma pulse_stays_in_band_witness :
  0 <= 120 /\ 0 <= 100 /\
  120 <= fst (pulse_step 120 100) <= 120 * (1 + OVERSHOOT).
Proof.
  assert (H1 : 0 <= 120) by discriminate.
  assert (H2 : 0 <= 100) by discriminate.
  pose proof (pulse_stays_in_band 120 100 H1 H2) as (H & _).
  split; [exact H1|]. split; [exact H2 | exact H].
Defined.

Lemma rateColor_high (r : Q) :
  8 # 10 <= r ->
  rateColor r = index PALETTE (js_round (palette_pos r)) /\
  (0 <= js_round (palette_pos r) <= 8)%Z.
Proof.
  intros H. apply lit_mono in H.
  pose proof (palette_index_range r H) as Hi. split; [|exact Hi].
  rewrite (rateColor_palette r H), last_index.
  rewrite Z.min_l by lia. reflexivity.
Qed.

(** X7: [rateColor] never answers [undefined]: for every rate, also a
    negative one or one above 1, the colour is the green [#2e8b57] or an
    entry of the palette. *)
Theorem rateColor_is_always_a_colour :
  forall rate : Q,
    exists c : string,
      rateColor rate = Some c /\ (c = "#2e8b57"%string \/ In c PALETTE).
Proof.
  intros rate.
  destruct (Qlt_le_dec (Double.lit rate) (Double.lit (8 # 10))) as [L | G].
  - destruct (Qlt_le_dec (Double.lit rate) (Double.lit (5 # 10))) as [L5 | G5].
    + eexists. split; [apply rateColor_green, L5 | left; reflexivity].
    + eexists. split; [apply rateColor_moderate; assumption|].
      right. left. reflexivity.
  - pose proof (palette_index_range rate G) as Hi.
    destruct (palette_entry _ Hi) as (c & Hc & Hin).
    exists c. split; [|right; exact Hin].
    rewrite (rateColor_palette rate G), last_index.
    rewrite Z.min_l by lia. exact Hc.
Qed.

(** X8: from 0.8 on, a higher rate never gets an earlier palette
    entry: for [0.8 <= r1 <= r2] the colours are the entries at indices
    [i <= j]. *)
Theorem palette_index_grows_with_rate :
  forall r1 r2 : Q,
    8 # 10 <= r1 ->
    r1 <= r2 ->
    exists i j : Z,
      (0 <= i <= j)%Z /\ (j <= PALETTE_length - 1)%Z /\
      rateColor r1 = index PALETTE i /\
      rateColor r2 = index PALETTE j.
Proof.
  intros r1 r2 H1 H12.
  assert (H2 : 8 # 10 <= r2) by lra.
  destruct (rateColor_high r1 H1) as [E1 I1].
  destruct (rateColor_high r2 H2) as [E2 I2].
  exists (js_round (palette_pos r1)), (js_round (palette_pos r2)).
  split; [split; [lia|] | split; [rewrite last_index; lia | auto]].
  apply js_round_mono, palette_pos_mono, lit_mono, H12.
Qed.

Lemma palette_index_grows_with_rate_witness :
  8 # 10 <= 85 # 100 /\ 85 # 100 <= 97 # 100 /\
  exists i j : Z,
    (0 <= i <= j)%Z /\
    rateColor (85 # 100) = index PALETTE i /\
    rateColor (97 # 100) = index PALETTE j.
Proof.
  assert (H1 : 8 # 10 <= 85 # 100) by discriminate.
  assert (H2 : 85 # 100 <= 97 # 100) by discriminate.
  pose proof (palette_index_grows_with_rate (85 # 100) (97 # 100) H1 H2)
    as (i & j & A & _ & B & C).
  split; [exact H1|]. split; [exact H2|].
  exists i, j. split; [exact A|]. split; [exact B | exact C].
Defined.

End LookMore.

(* ------------------------------------------------------------------ *)
(** ** The rows that leave the cleaning step *)

Module CleanMore.
Import Text Normalizer NormalizerFacts.

Section Clean.
Variable parse_number : string -> option Q.
Variable parse_date   : string -> option Z.

Local Abbreviation clean_row := (clean_row parse_number parse_date).
Local Abbreviation clean := (clean parse_number parse_date).


End Clean.

Lemma fullmatch_shape (s : string) :
  fullmatch_pattern s = true ->
  String.length s = 6%nat /\
  String.length (take 3 s) = 3%nat /\
  exists rest, s = (take 3 s ++ rest)%string /\ String.length rest = 3%nat.
Proof.
  destruct s as [| a [| b [| c [| d [| e [| f [| g r]]]]]]]; try discriminate.
  intros _. split; [reflexivity|]. split; [reflexivity|].
  exists (String d (String e (String f EmptyString))). split; reflexivity.
Qed.

(** X9: every row that leaves the cleaning step has a postal code that
    matches the pattern: six characters, unchanged by upper-casing and by
    removing spaces; and its FSA is the first three of them. *)
Theorem cleaned_codes_match_the_pattern :
  forall (parse_number : string -> option Q) (parse_date : string -> option Z)
         (rows : list RawRow) (out : Row),
    In out (clean parse_number parse_date rows) ->
    fullmatch_pattern (code out) = true /\
    String.length (code out) = 6%nat /\
    remove_spaces (upper (code out)) = code out /\
    String.length (FSA out) = 3%nat /\
    exists rest, code out = (FSA out ++ rest)%string /\ String.length rest = 3%nat.
Proof.
  intros pn pd rows out H.
  apply clean_In in H. destruct H as (raw & _ & Hrow).
  destruct (clean_row_fields pn pd raw out Hrow)
    as (s & _ & Hm & Hc & Hf & _).
  rewrite <- Hc in Hm.
  destruct (fullmatch_shape _ Hm) as (L6 & L3 & rest & E & Lr).
  rewrite Hf. split; [exact Hm|]. split; [exact L6|].
  split; [apply fullmatch_fixed, Hm|]. split; [exact L3|].
  exists rest. split; assumption.
Qed.


End CleanMore.

(* ------------------------------------------------------------------ *)
(** ** Geocoding *)

Module GeocodeMore.
Import Text Normalizer Resolver SortFacts DictFacts.

Section Geocode.
Variable query_postal_code : string -> option Q * option Q.

Local Abbreviation geo_entry := (geo_entry query_postal_code).
Local Abbreviation geo_map := (geo_map query_postal_code).
Local Abbreviation geo_frame := (geo_frame query_postal_code).

Lemma get_table (f : string -> option Q * option Q) (l : list string) (c : string) :
  In c l -> Dict.get (map (fun c => (c, f c)) l) c = Some (f c).
Proof.
  induction l as [| x r IH]; intros H; [destruct H|].
  simpl. destruct (String.eqb_spec c x) as [-> | N]; [reflexivity|].
  destruct H as [E | H]; [congruence | exact (IH H)].
Qed.

Lemma geo_map_get (df : list Row) (r : Row) :
  In r df -> Dict.get (geo_map df) (code r) = Some (geo_entry (code r)).
Proof.
  intros H. unfold Resolver.geo_map. apply get_table.
  apply unique_In, in_map, H.
Qed.

(** The merge, row by row, against a table that has every code. *)
Lemma merge_geo_spec gm (rows : list Row) :
  (forall r, In r rows -> Dict.get gm (code r) = Some (geo_entry (code r))) ->
  merge_geo gm rows
  = flat_map (fun r => match geo_entry (code r) with
                       | (Some la, Some lo) => [mkPoint r la lo]
                       | _ => []
                       end) rows.
Proof.
  induction rows as [| r rest IH]; intros H; [reflexivity|].
  simpl. rewrite (H r (or_introl eq_refl)).
  rewrite IH by (intros x Hx; apply H; right; exact Hx).
  destruct (geo_entry (code r)) as [[la|] [lo|]]; reflexivity.
Qed.

Lemma geo_frame_spec (df : list Row) :
  geo_frame df
  = flat_map (fun r => match geo_entry (code r) with
                       | (Some la, Some lo) => [mkPoint r la lo]
                       | _ => []
                       end) df.
Proof.
  unfold Resolver.geo_frame. apply merge_geo_spec. intros r. apply geo_map_get.
Qed.

Lemma geo_frame_In (df : list Row) (p : Point) :
  In p (geo_frame df) <->
  In (p_row p) df /\ geo_entry (code (p_row p)) = (Some (lat p), Some (lon p)).
Proof.
  rewrite geo_frame_spec, in_flat_map. split.
  - intros (r & Hr & Hp).
    destruct (geo_entry (code r)) as [[la|] [lo|]] eqn:E;
      try (destruct Hp; fail).
    destruct Hp as [<- | []]. simpl. auto.
  - intros [Hr E]. exists (p_row p). split; [exact Hr|]. rewrite E.
    left. destruct p; reflexivity.
Qed.

Lemma geo_entry_tiers (c : string) (la lo : Q) :
  geo_entry c = (Some la, Some lo) <->
  query_postal_code c = (Some la, Some lo) \/
  (is_missing (query_postal_code c) = true /\
   query_postal_code (take 3 c) = (Some la, Some lo)).
Proof.
  unfold Resolver.geo_entry.
  destruct (query_postal_code c) as [[a|] [b|]] eqn:E; simpl; split;
    try (intros [H | [H1 H2]]; try discriminate; auto); auto.
Qed.

Lemma geocode_cases (df : list Row) :
  (df = [] /\ geocode query_postal_code df = None) \/
  (df <> [] /\ geocode query_postal_code df = Some (geo_frame df)).
Proof.
  destruct df; [left | right]; split; (reflexivity || discriminate).
Qed.

End Geocode.

(** X11: geocoding in two tiers.  On a frame without rows the merge
    raises; on any other frame it goes through, and a row reaches the
    geocoded frame exactly when the geocoder gives both coordinates for
    its postal code, and then with those, or gives them for the first
    three characters of the code while something is missing for the code
    itself, and then with those.  The row is carried unchanged, so every
    row of a postal code gets the same coordinates, and the frame is never
    longer than the cleaned one. *)
Theorem geocode_uses_two_tiers :
  forall (query_postal_code : string -> option Q * option Q)
         (df : list Row) (p : Point),
    (geocode query_postal_code df = None <-> df = []) /\
    (df <> [] -> exists pts, geocode query_postal_code df = Some pts) /\
    (forall pts : list Point,
        geocode query_postal_code df = Some pts ->
        (In p pts <->
         In (p_row p) df /\
         (query_postal_code (p_code p) = (Some (lat p), Some (lon p)) \/
          (is_missing (query_postal_code (p_code p)) = true /\
           query_postal_code (take 3 (p_code p)) = (Some (lat p), Some (lon p))))) /\
        (forall q, In p pts -> In q pts ->
                   p_code p = p_code q -> lat p = lat q /\ lon p = lon q) /\
        (List.length pts <= List.length df)%nat).
Proof.
  intros qpc df p. split; [|split].
  - destruct df; simpl; split; congruence.
  - intros N. destruct (geocode_cases qpc df) as [[E _] | [_ E]]; [contradiction|].
    eexists. exact E.
  - intros pts Hpts.
    destruct (geocode_cases qpc df) as [[_ E] | [_ E]]; rewrite E in Hpts;
      [discriminate|]. injection Hpts as <-.
    split; [|split].
    + rewrite geo_frame_In, geo_entry_tiers. reflexivity.
    + intros q Hp Hq E'. apply geo_frame_In in Hp, Hq.
      destruct Hp as [_ Ep]. destruct Hq as [_ Eq].
      unfold p_code in E'. rewrite E', Eq in Ep. injection Ep as -> ->. auto.
    + rewrite geo_frame_spec. clear E. induction df as [| r rest IH]; [simpl; lia|].
      cbn [flat_map]. rewrite length_app.
      destruct (geo_entry qpc (code r)) as [[la|] [lo|]]; simpl List.length in *; lia.
Qed.

End GeocodeMore.

(* ------------------------------------------------------------------ *)
(** ** What the jitter step leaves alone *)

Module JitterMore.
Import Normalizer Resolver JitterFacts.

Lemma Qabs_zero : Qabs 0 <= 2 # 1000.
Proof. discriminate. Qed.

(** X12: the jitter step changes coordinates only.  The frame keeps its
    length and its order; the row at each position keeps its postal code,
    capacities and date; and its latitude and its longitude each move by
    at most 0.002 degrees. *)
Theorem jitter_changes_only_coordinates :
  forall (md5_word : string -> Z) (df : list Point),
    List.length (jitter_dupes md5_word df) = List.length df /\
    (forall (i : nat) (p : Point),
        nth_error df i = Some p ->
        exists p',
          nth_error (jitter_dupes md5_word df) i = Some p' /\
          p_row p' = p_row p /\
          Qabs (lat p' - lat p) <= 2 # 1000 /\
          Qabs (lon p' - lon p) <= 2 # 1000).
Proof.
  intros md5 df. split.
  - rewrite jitter_dupes_map. apply length_map.
  - intros i p Hi. exists (jitter_row md5 df p).
    split; [apply jitter_dupes_nth, Hi|].
    destruct (dupe df p) eqn:D.
    + destruct (jitter_row_dupe md5 df p D) as (A1 & A2 & A3).
      destruct (jitter_bound md5 (p_code p)) as [J1 J2].
      rewrite A1, A2. split; [exact A3|].
      setoid_replace (lat p + fst (jitter md5 (p_code p)) - lat p)
        with (fst (jitter md5 (p_code p))) by ring.
      setoid_replace (lon p + snd (jitter md5 (p_code p)) - lon p)
        with (snd (jitter md5 (p_code p))) by ring.
      split; assumption.
    + rewrite (jitter_row_single md5 df p D). split; [reflexivity|].
      setoid_replace (lat p - lat p) with 0 by ring.
      setoid_replace (lon p - lon p) with 0 by ring.
      split; apply Qabs_zero.
Qed.

Lemma jitter_changes_only_coordinates_witness :
  nth_error Demo.mixed_frame 2 = Some Demo.twin2 /\
  exists p',
    nth_error (jitter_dupes MD5.md5_word Demo.mixed_frame) 2 = Some p' /\
    p_row p' = p_row Demo.twin2.
Proof.
  assert (H : nth_error Demo.mixed_frame 2 = Some Demo.twin2) by reflexivity.
  pose proof (jitter_changes_only_coordinates MD5.md5_word Demo.mixed_frame)
    as [_ A].
  pose proof (A 2%nat Demo.twin2 H) as (p' & A1 & A2 & _).
  split; [exact H|]. exists p'. split; [exact A1 | exact A2].
Defined.

End JitterMore.

(* ------------------------------------------------------------------ *)
(** ** A file with nothing to show *)

Module EmptyInput.
Import Text Normalizer Resolver Pipeline NormalizerFacts GeocodeMore.





End EmptyInput.

(* ------------------------------------------------------------------ *)
(** ** The rows of [agg] *)

Module AggMore.
Import Normalizer Resolver Binner SortFacts AggregateFacts.

Lemma dropna_In (l : list (option Sample)) (s : Sample) :
  In s (dropna l) <-> In (Some s) l.
Proof.
  induction l as [| [x|] r IH]; simpl; [tauto | |].
  - rewrite IH. split; [intros [-> | H]; auto | intros [E | H]; [left; congruence | auto]].
  - rewrite IH. split; [auto | intros [E | H]; [discriminate | exact H]].
Qed.

Lemma unique_keys_In (l : list key) (k : key) : In k (unique_keys l) -> In k l.
Proof.
  induction l as [| x r IH]; simpl; [tauto|].
  intros [E | H]; [auto|]. apply filter_In in H. right. apply IH, H.
Qed.

Lemma agg_all_In (df : list Binned) (s : Sample) :
  In s (agg_all df) ->
  exists r, In r df /\ aggregate df (key_of r) = Some s.
Proof.
  unfold agg_all. rewrite dropna_In, in_map_iff.
  intros (k & E & Hk). apply sort_In, unique_keys_In, in_map_iff in Hk.
  destruct Hk as (r & <- & Hr). eauto.
Qed.

Lemma sum_le {A} (f g : A -> Q) (l : list A) :
  (forall x, In x l -> f x <= g x) -> sum (map f l) <= sum (map g l).
Proof.
  induction l as [| x r IH]; intros H; simpl; [apply Qle_refl|].
  pose proof (H x (or_introl eq_refl)).
  assert (sum (map f r) <= sum (map g r)) by (apply IH; intros y Hy; apply H; right; exact Hy).
  unfold sum in *. lra.
Qed.

Lemma sum_nonneg {A} (f : A -> Q) (l : list A) :
  (forall x, In x l -> 0 <= f x) -> 0 <= sum (map f l).
Proof.
  induction l as [| x r IH]; intros H; simpl; [apply Qle_refl|].
  pose proof (H x (or_introl eq_refl)).
  assert (0 <= sum (map f r)) by (apply IH; intros y Hy; apply H; right; exact Hy).
  unfold sum in *. lra.
Qed.

Lemma mean_as_product (xs : list Q) :
  xs <> [] ->
  mean xs * inject_Z (Z.of_nat (List.length xs)) == sum xs /\
  0 < inject_Z (Z.of_nat (List.length xs)).
Proof.
  intros H.
  assert (Hn : 0 < inject_Z (Z.of_nat (List.length xs))).
  { change 0 with (inject_Z 0). rewrite <- Zlt_Qlt.
    destruct xs; [congruence | simpl List.length; lia]. }
  split; [|exact Hn]. unfold mean. field. lra.
Qed.

(** The rows of a group and what [aggregate] makes of them. *)
Lemma aggregate_fields (df : list Binned) (r : Binned) (s : Sample) :
  In r df ->
  aggregate df (key_of r) = Some s ->
  let members := filter (fun x => key_eqb (key_of x) (key_of r)) df in
  members <> [] /\
  (s_bin s, s_code s, s_lat s, s_lon s) = key_of r /\
  total_cap s = mean (map (fun x => cap (p_row (b_point x))) members) /\
  occupied s = mean (map (fun x => occ (p_row (b_point x))) members) /\
  Binner.rate s = occupied s / total_cap s /\
  ~ total_cap s == 0.
Proof.
  intros Hr. unfold aggregate.
  set (members := filter (fun x => key_eqb (key_of x) (key_of r)) df).
  assert (Hm : In r members) by (apply filter_In; split; [exact Hr | apply key_eqb_refl]).
  destruct (key_of r) as [[[b c] la] lo] eqn:K.
  destruct (Qeq_bool (mean (map (fun x => cap (p_row (b_point x))) members)) 0) eqn:Z;
    [discriminate|].
  intros E. injection E as <-. cbv zeta. simpl.
  split; [intros N; rewrite N in Hm; destruct Hm|].
  repeat split.
  intros C. apply Qeq_bool_iff in C. congruence.
Qed.

(** X14: every row of [agg] has a defined rate.  It comes from at least
    one row of the frame with its key; its capacity is not zero and its
    rate times its capacity is its occupied value.  If in every row of the
    frame the occupied value lies between 0 and the capacity, the capacity
    of the group is positive and its rate lies between 0 and 1. *)
Theorem rates_are_defined_and_bounded :
  forall (df : list Binned) (s : Sample),
    In s (agg_all df) ->
    (exists r, In r df /\ key_of r = (s_bin s, s_code s, s_lat s, s_lon s)) /\
    ~ total_cap s == 0 /\
    Binner.rate s * total_cap s == occupied s /\
    ((forall r, In r df ->
                0 <= occ (p_row (b_point r)) <= cap (p_row (b_point r))) ->
     0 < total_cap s /\ 0 <= Binner.rate s <= 1).
Proof.
  intros df s Hs. apply agg_all_In in Hs. destruct Hs as (r & Hr & Ha).
  pose proof (aggregate_fields df r s Hr Ha) as H. cbv zeta in H.
  set (members := filter (fun x => key_eqb (key_of x) (key_of r)) df) in *.
  destruct H as (Hne & Hk & Hc & Ho & Hrate & Hnz).
  split; [exists r; auto|]. split; [exact Hnz|].
  split; [rewrite Hrate; field; exact Hnz|].
  intros Hrows.
  assert (Hin : forall x, In x members -> In x df).
  { intros x Hx. apply filter_In in Hx. apply Hx. }
  assert (Hlen : map (fun x => cap (p_row (b_point x))) members <> []).
  { destruct members; [congruence | discriminate]. }
  assert (Hlen' : map (fun x => occ (p_row (b_point x))) members <> []).
  { destruct members; [congruence | discriminate]. }
  destruct (mean_as_product _ Hlen) as [Pc Nc].
  destruct (mean_as_product _ Hlen') as [Po No].
  rewrite !length_map in *.
  set (n := inject_Z (Z.of_nat (List.length members))) in *.
  pose proof (sum_le (fun x => occ (p_row (b_point x)))
                     (fun x => cap (p_row (b_point x))) members
                     (fun x Hx => proj2 (Hrows x (Hin x Hx)))) as Hle.
  pose proof (sum_nonneg (fun x => occ (p_row (b_point x))) members
                         (fun x Hx => proj1 (Hrows x (Hin x Hx)))) as Hge.
  rewrite <- Hc in Pc. rewrite <- Ho in Po.
  assert (Ho0 : 0 <= occupied s) by nra.
  assert (Hoc : occupied s <= total_cap s) by nra.
  assert (Hpos : 0 < total_cap s).
  { destruct (Qlt_le_dec 0 (total_cap s)) as [L | G]; [exact L|].
    exfalso. apply Hnz. lra. }
  split; [exact Hpos|]. rewrite Hrate.
  assert (Hinv : 0 < / total_cap s) by (apply Qinv_lt_0_compat, Hpos).
  assert (E1 : total_cap s * / total_cap s == 1) by (field; exact Hnz).
  unfold Qdiv. split; nra.
Qed.

Lemma rates_are_defined_and_bounded_witness :
  let df := add_bin Calendar.week_label Demo.frame in
  exists s,
    In s (agg_all df) /\ s_code s = "M4C1B5"%string /\
    Binner.rate s * total_cap s == occupied s /\ 0 <= Binner.rate s <= 1.
Proof.
  intros df.
  assert (E : exists s l, agg_all df = s :: l /\ s_code s = "M4C1B5"%string).
  { eexists. eexists. split; vm_compute; reflexivity. }
  destruct E as (s & l & E & Ec).
  assert (Hs : In s (agg_all df)) by (rewrite E; left; reflexivity).
  pose proof (rates_are_defined_and_bounded df s Hs) as (_ & _ & H1 & H2).
  exists s. split; [exact Hs|]. split; [exact Ec|]. split; [exact H1|].
  apply H2. intros r Hr. vm_compute in Hr.
  destruct Hr as [<- | [<- | [<- | [<- | []]]]]; split; discriminate.
Defined.

End AggMore.

(* ------------------------------------------------------------------ *)
(** ** The ends of the capacity range, and what rounding costs *)

Module ScaleMore.
Import Num NumFacts Mapper MapperFacts Timeline.

Lemma cap_bounds_max (caps : list Q) (lo hi M : Q) :
  cap_bounds caps = Some (lo, hi) -> series_max caps = Some M -> lo < M ->
  hi = M.
Proof.
  unfold cap_bounds. intros H HM L. rewrite HM in H.
  destruct (series_min caps) as [m|]; [|discriminate].
  destruct (Qle_bool M m) eqn:E; injection H as <- <-; [|reflexivity].
  apply Qle_bool_iff in E. lra.
Qed.

Lemma unit_pos_inside (lo hi c : Q) :
  lo < hi -> lo <= c <= hi -> unit_pos lo hi c == (c - lo) / (hi - lo).
Proof.
  intros L [H1 H2]. unfold unit_pos.
  set (v := (c - lo) / (hi - lo)).
  assert (Hd : 0 < / (hi - lo)) by (apply Qinv_lt_0_compat; lra).
  assert (Ev : v == (c - lo) * / (hi - lo)) by reflexivity.
  assert (E1 : (hi - lo) * / (hi - lo) == 1) by (field; lra).
  assert (V0 : 0 <= v) by (rewrite Ev; nra).
  assert (V1 : v <= 1) by (rewrite Ev; nra).
  pose proof (py_min_spec 1 v) as (A1 & A2 & A3).
  pose proof (py_max_spec 0 (py_min 1 v)) as (B1 & B2 & B3).
  destruct A3, B3; lra.
Qed.

(** X15: the smallest and the largest capacity of a data set get the
    ends of both radius ranges.  With more than one capacity value in the
    data set, [cap_max] is the largest value, no capacity of the data set
    is clamped, the smallest gets the radii 80 and 1207.0 and the largest
    the radii 500 and 3218.7. *)
Theorem range_ends_get_the_bounds :
  forall (caps : list Q) (lo hi M : Q),
    cap_bounds caps = Some (lo, hi) ->
    series_max caps = Some M ->
    lo < M ->
    hi = M /\
    (forall c, In c caps -> unit_pos lo hi c == (c - lo) / (hi - lo)) /\
    (forall c, c == lo ->
               cap_radius lo hi c == CAP_MIN_R /\ green_radius lo hi c == 1207) /\
    (forall c, c == M ->
               cap_radius lo hi c == CAP_MAX_R /\ green_radius lo hi c == 32187 # 10).
Proof.
  intros caps lo hi M Hb HM L.
  pose proof (cap_bounds_max caps lo hi M Hb HM L) as ->.
  pose proof (cap_bounds_min caps lo M Hb) as Hm.
  split; [reflexivity|]. split; [|split].
  - intros c Hc. apply unit_pos_inside; [exact L|].
    split; [apply (series_min_le caps lo Hm c Hc) | apply (series_max_ge caps M HM c Hc)].
  - intros c E.
    assert (U : unit_pos lo M c == 0) by (apply unit_pos_at_min; exact E).
    unfold cap_radius, green_radius. split.
    + rewrite (py_round_eq _ CAP_MIN_R 1); [reflexivity|]. rewrite U. ring.
    + rewrite (py_round_eq _ GREEN_MIN_M 1); [reflexivity|]. rewrite U. ring.
  - intros c E.
    assert (U : unit_pos lo M c == 1).
    { rewrite unit_pos_inside by lra.
      setoid_replace (c - lo) with (M - lo) by lra. field. lra. }
    unfold cap_radius, green_radius. split.
    + rewrite (py_round_eq _ CAP_MAX_R 1); [reflexivity|]. rewrite U. ring.
    + rewrite (py_round_eq _ GREEN_MAX_M 1); [reflexivity|]. rewrite U. ring.
Qed.

Lemma range_ends_get_the_bounds_witness :
  cap_bounds [10; 20; 35] = Some (10, 35) /\
  series_max [10; 20; 35] = Some 35 /\
  cap_radius 10 35 10 == CAP_MIN_R /\ cap_radius 10 35 35 == CAP_MAX_R.
Proof.
  assert (Hb : cap_bounds [10; 20; 35] = Some (10, 35)) by reflexivity.
  assert (HM : series_max [10; 20; 35] = Some 35) by reflexivity.
  assert (L : 10 < 35) by reflexivity.
  pose proof (range_ends_get_the_bounds [10; 20; 35] 10 35 35 Hb HM L)
    as (_ & _ & A & B).
  split; [exact Hb|]. split; [exact HM|].
  split; [apply (A 10); reflexivity | apply (B 35); reflexivity].
Defined.

Lemma py_round_close (x : Q) (n : nat) :
  Qabs (py_round x n - x) <= (1 # 2) / pow10 n /\
  py_round x n * pow10 n == inject_Z (round_half_even (x * pow10 n)).
Proof.
  pose proof (pow10_pos n) as Hp.
  pose proof (round_half_even_close (x * pow10 n)) as H.
  apply Qabs_Qle_condition in H. destruct H as [H1 H2].
  unfold py_round.
  set (z := inject_Z (round_half_even (x * pow10 n))) in *.
  set (p := pow10 n) in *.
  assert (Hi : 0 < / p) by (apply Qinv_lt_0_compat, Hp).
  assert (E1 : p * / p == 1) by (field; lra).
  split; [|field; lra].
  apply Qabs_Qle_condition. unfold Qdiv.
  assert (K : z * / p - x == (z - x * p) * / p) by (field; lra).
  rewrite K. split.
  - setoid_replace (- ((1 # 2) * / p)) with (- (1 # 2) * / p) by ring.
    apply Qmult_le_compat_r; lra.
  - apply Qmult_le_compat_r; lra.
Qed.

(** X16: what the timeline stores is the aggregate rounded to the
    nearest decimal.  The stored rate is a whole number of ten-thousandths
    and lies within 0.00005 of the rate of the row; the stored latitude
    and longitude are whole numbers of millionths within 0.0000005 of
    those of the row; the two radii are stored as they were computed. *)
Theorem stored_values_are_nearest_decimals :
  forall r : Scaled,
    let f := frame_of r in
    Qabs (rate f - Binner.rate (sample r)) <= 5 # 100000 /\
    Qabs (lat f - Binner.s_lat (sample r)) <= 5 # 10000000 /\
    Qabs (lon f - Binner.s_lon (sample r)) <= 5 # 10000000 /\
    (exists z : Z, rate f * 10000 == inject_Z z) /\
    (exists z : Z, lat f * 1000000 == inject_Z z) /\
    (exists z : Z, lon f * 1000000 == inject_Z z) /\
    radius_m f = s_radius r /\ green_r f = s_green r.
Proof.
  intros r f. subst f. unfold frame_of. cbn [rate lat lon radius_m green_r].
  destruct (py_round_close (Binner.rate (sample r)) 4) as [A1 A2].
  destruct (py_round_close (Binner.s_lat (sample r)) 6) as [B1 B2].
  destruct (py_round_close (Binner.s_lon (sample r)) 6) as [C1 C2].
  split; [eapply Qle_trans; [exact A1 | vm_compute; discriminate]|].
  split; [eapply Qle_trans; [exact B1 | vm_compute; discriminate]|].
  split; [eapply Qle_trans; [exact C1 | vm_compute; discriminate]|].
  split; [eexists; exact A2|]. split; [eexists; exact B2|].
  split; [eexists; exact C2|]. split; reflexivity.
Qed.

End ScaleMore.

(* ------------------------------------------------------------------ *)
(** ** The timeline dict: shape, lookup and where frames come from *)

Module TimelineMore.
Import Binner Timeline Renderer DictFacts Shape.

Lemma get_In {V} (d : Dict.t V) (k : string) (v : V) :
  Dict.get d k = Some v -> In (k, v) d.
Proof.
  induction d as [| [k' v'] r IH]; simpl; [discriminate|].
  destruct (String.eqb_spec k k') as [-> | N].
  - intros H. injection H as ->. left. reflexivity.
  - intros H. right. apply IH, H.
Qed.

Lemma In_get {V} (d : Dict.t V) (k : string) (v : V) :
  NoDup (Dict.keys d) -> In (k, v) d -> Dict.get d k = Some v.
Proof.
  induction d as [| [k' v'] r IH]; simpl; [intros _ []|].
  intros ND [E | H].
  - injection E as -> ->. rewrite String.eqb_refl. reflexivity.
  - inversion ND as [| ? ? Hnot ND']; subst.
    destruct (String.eqb_spec k k') as [-> | N].
    + exfalso. apply Hnot. change k' with (fst (k', v)). apply in_map, H.
    + apply IH; assumption.
Qed.

Lemma set_not_empty {V} (d : Dict.t V) (k : string) (v : V) : Dict.set d k v <> [].
Proof.
  destruct d as [| [k' v'] r]; simpl; [discriminate|].
  destruct (String.eqb k k'); discriminate.
Qed.

(** Assigning keeps a property that all values have, when the new value
    has it. *)
Lemma set_values {V} (P : V -> Prop) (d : Dict.t V) (k : string) (v : V) :
  Forall (fun e => P (snd e)) d -> P v ->
  Forall (fun e => P (snd e)) (Dict.set d k v).
Proof.
  intros H Hv. induction H as [| [k' v'] r Hh Ht IH]; simpl.
  - constructor; [exact Hv | constructor].
  - destruct (String.eqb k k'); constructor; auto.
Qed.

Lemma add_row_shape (sd : shelter_dict) (r : Scaled) :
  NoDup (Dict.keys sd) /\ Forall (fun e => good_weeks (snd e)) sd ->
  NoDup (Dict.keys (add_row sd r))
  /\ Forall (fun e => good_weeks (snd e)) (add_row sd r).
Proof.
  intros [ND F]. unfold add_row. split; [apply set_NoDup, ND|].
  apply (set_values good_weeks); [exact F|]. split; [apply set_not_empty|].
  apply set_NoDup.
  destruct (Dict.get sd (s_code (sample r))) as [w|] eqn:G; [|constructor].
  apply get_In in G. rewrite Forall_forall in F. apply (F _ G).
Qed.

Lemma shelter_data_shape (rows : list Scaled) :
  NoDup (Dict.keys (shelter_data rows))
  /\ Forall (fun e => good_weeks (snd e)) (shelter_data rows).
Proof.
  unfold shelter_data.
  assert (G : forall sd,
             NoDup (Dict.keys sd) /\ Forall (fun e => good_weeks (snd e)) sd ->
             NoDup (Dict.keys (fold_left add_row rows sd))
             /\ Forall (fun e => good_weeks (snd e)) (fold_left add_row rows sd)).
  { induction rows as [| r rest IH]; intros sd H; [exact H|].
    simpl. apply IH, add_row_shape, H. }
  apply G. split; constructor.
Qed.

(** The frame under a shelter and a week after one more row. *)
Lemma add_row_frame (sd : shelter_dict) (r : Scaled) (sid b : string) :
  frame_at (add_row sd r) sid (Some b)
  = if String.eqb (s_code (sample r)) sid && String.eqb (s_bin (sample r)) b
    then Some (frame_of r)
    else frame_at sd sid (Some b).
Proof.
  unfold frame_at, add_row.
  destruct (String.eqb_spec (s_code (sample r)) sid) as [E | N]; simpl.
  - rewrite E, get_set_same.
    destruct (String.eqb_spec (s_bin (sample r)) b) as [-> | Nb].
    + apply get_set_same.
    + rewrite get_set_other by exact Nb.
      destruct (Dict.get sd sid); reflexivity.
  - rewrite get_set_other by exact N. reflexivity.
Qed.

Lemma fold_frame_origin (rows : list Scaled) (sd : shelter_dict)
      (sid b : string) (f : Frame) :
  frame_at (fold_left add_row rows sd) sid (Some b) = Some f ->
  frame_at sd sid (Some b) = Some f \/
  exists r, In r rows /\ s_code (sample r) = sid /\ s_bin (sample r) = b
            /\ f = frame_of r.
Proof.
  revert sd. induction rows as [| r rest IH]; intros sd H; [left; exact H|].
  simpl in H. destruct (IH _ H) as [H1 | (x & Hx & ?)].
  - rewrite add_row_frame in H1.
    destruct (String.eqb_spec (s_code (sample r)) sid) as [E | N]; simpl in H1.
    + destruct (String.eqb_spec (s_bin (sample r)) b) as [Eb | Nb].
      * right. exists r. injection H1 as <-. simpl. auto.
      * left. exact H1.
    + left. exact H1.
  - right. exists x. split; [right; exact Hx | assumption].
Qed.

Lemma fold_frame_kept (rows : list Scaled) (sd : shelter_dict) (sid b : string) :
  (forall x, In x rows ->
             ~ (s_code (sample x) = sid /\ s_bin (sample x) = b)) ->
  frame_at (fold_left add_row rows sd) sid (Some b) = frame_at sd sid (Some b).
Proof.
  revert sd. induction rows as [| r rest IH]; intros sd H; [reflexivity|].
  simpl. rewrite IH by (intros x Hx; apply H; right; exact Hx).
  rewrite add_row_frame.
  destruct (String.eqb_spec (s_code (sample r)) sid) as [E | N]; [|reflexivity].
  destruct (String.eqb_spec (s_bin (sample r)) b) as [Eb | Nb]; [|reflexivity].
  exfalso. apply (H r (or_introl eq_refl)). auto.
Qed.

(** X17: the timeline dict is well-formed whatever the rows: no shelter
    occurs twice, no shelter has an empty week map, and no week occurs
    twice under a shelter. *)
Theorem timeline_is_well_formed :
  forall rows : list Scaled,
    NoDup (Dict.keys (shelter_data rows)) /\
    (forall sid weeks,
        In (sid, weeks) (shelter_data rows) ->
        weeks <> [] /\ NoDup (Dict.keys weeks)
        /\ Dict.get (shelter_data rows) sid = Some weeks).
Proof.
  intros rows. destruct (shelter_data_shape rows) as [ND F].
  split; [exact ND|]. intros sid weeks H.
  rewrite Forall_forall in F. destruct (F _ H) as [A B].
  split; [exact A|]. split; [exact B | apply In_get; assumption].
Qed.

(** X18: looking a row up again.  Every frame of the timeline is
    [frame_of] of a row with that shelter and week; and a row is found
    under its shelter and week unless a later row has the same shelter
    and week, which then takes its place. *)
Theorem timeline_lookup :
  forall rows : list Scaled,
    (forall sid b f,
        frame_at (shelter_data rows) sid (Some b) = Some f ->
        exists r, In r rows /\ s_code (sample r) = sid /\ s_bin (sample r) = b
                  /\ f = frame_of r) /\
    (forall before r after,
        rows = before ++ r :: after ->
        (forall x, In x after ->
                   ~ (s_code (sample x) = s_code (sample r)
                      /\ s_bin (sample x) = s_bin (sample r))) ->
        frame_at (shelter_data rows) (s_code (sample r)) (Some (s_bin (sample r)))
        = Some (frame_of r)).
Proof.
  intros rows. split.
  - intros sid b f H. unfold shelter_data in H.
    destruct (fold_frame_origin rows [] sid b f H) as [H0 | H1]; [discriminate | exact H1].
  - intros before r after -> Hafter. unfold shelter_data.
    rewrite fold_left_app. cbn [fold_left].
    rewrite fold_frame_kept by exact Hafter.
    rewrite add_row_frame, !String.eqb_refl. reflexivity.
Qed.

End TimelineMore.

(* ------------------------------------------------------------------ *)
(** ** Starting the script *)

Module InitMore.
Import Num Timeline Renderer DictFacts RenderFacts TransportFacts RenderMore
       ReachFacts TimelineMore Shape.

Lemma first_week (weeks : Dict.t Frame) (b : string) (d : Frame) rest :
  weeks = (b, d) :: rest ->
  Dict.keys weeks = b :: Dict.keys rest /\ Dict.get weeks b = Some d.
Proof. intros ->. simpl. rewrite String.eqb_refl. auto. Qed.

Lemma init_circles_fails (sd : shelter_dict) acc :
  init_circles sd acc = None <-> exists sid, In (sid, []) sd.
Proof.
  revert acc. induction sd as [| [sid weeks] rest IH]; intros acc.
  - simpl. split; [discriminate | intros (s & [])].
  - simpl. destruct weeks as [| [b d] more].
    + simpl. split; [intros _; exists sid; left; reflexivity | reflexivity].
    + cbn [Dict.keys map fst Dict.get]. rewrite String.eqb_refl.
      destruct acc as [[cs prevs] log]. rewrite IH. split.
      * intros (s & H). exists s. right. exact H.
      * intros (s & [E | H]); [discriminate | exists s; exact H].
Qed.

Lemma init_fails (SD : shelter_dict) (BINS : list string) :
  init SD BINS = None <-> init_circles SD ([], [], []) = None.
Proof.
  unfold init. destruct (init_circles SD ([], [], [])) as [[[cs prevs] l0]|].
  - destruct (renderBin SD BINS _ 0). split; discriminate.
  - tauto.
Qed.

Lemma init_circles_result (sd : shelter_dict) cs prevs log cs' prevs' log' :
  init_circles sd (cs, prevs, log) = Some (cs', prevs', log') ->
  NoDup (Dict.keys cs ++ Dict.keys sd) ->
  Dict.keys cs' = Dict.keys cs ++ Dict.keys sd /\
  (forall sid b d more,
      In (sid, (b, d) :: more) sd -> Dict.get prevs' sid = Some (rate d)) /\
  (forall sid, ~ In sid (Dict.keys sd) -> Dict.get prevs' sid = Dict.get prevs sid) /\
  (exists ext, log' = log ++ ext /\
               forall c, In c ext -> exists s w la lo r col,
                   c = AddCircle s w la lo r col).
Proof.
  revert cs prevs log. induction sd as [| [k weeks] rest IH]; intros cs prevs log.
  - simpl. intros H _. injection H as <- <- <-. rewrite app_nil_r.
    split; [reflexivity|]. split; [intros ? ? ? ? []|]. split; [reflexivity|].
    exists []. rewrite app_nil_r. split; [reflexivity | intros c []].
  - simpl. destruct weeks as [| [b d] more]; [discriminate|].
    cbn [Dict.keys map fst Dict.get]. rewrite String.eqb_refl.
    intros H ND.
    assert (Hk : Dict.mem cs k = false).
    { unfold Dict.mem. destruct (Dict.get cs k) eqn:G; [|reflexivity].
      exfalso. apply NoDup_remove_2 in ND. apply ND, in_or_app. left.
      apply get_in_keys. congruence. }
    assert (ND1 : NoDup (Dict.keys (Dict.set cs k tt) ++ Dict.keys rest)).
    { rewrite keys_set, Hk, <- app_assoc. exact ND. }
    destruct (IH _ _ _ H ND1) as (A1 & A2 & A3 & (ext & A4 & A5)).
    assert (Hfresh : ~ In k (Dict.keys rest)).
    { apply NoDup_remove_2 in ND. intros C. apply ND, in_or_app. right. exact C. }
    split; [rewrite A1, keys_set, Hk, <- app_assoc; reflexivity|].
    split; [|split].
    + intros sid b' d' more' [E | Hin].
      * injection E as -> -> -> ->. rewrite (A3 sid Hfresh). apply get_set_same.
      * eapply A2. exact Hin.
    + intros sid Hs. rewrite A3 by (intros C; apply Hs; right; exact C).
      apply get_set_other. intros ->. apply Hs. left. reflexivity.
    + eexists. split; [rewrite A4, <- app_assoc; reflexivity|].
      intros c Hc. apply in_app_or in Hc.
      destruct Hc as [[<- | [<- | []]] | Hc]; [| | apply A5, Hc];
        do 6 eexists; reflexivity.
Qed.

(** X19: [init] throws exactly when some shelter of [SHELTER_DATA] has
    no week at all.  When it does not throw and no shelter occurs twice,
    it leaves one circle pair per shelter, in the order of
    [SHELTER_DATA], shows week 0, is paused, and has built the
    controls. *)
Theorem init_throws_only_on_empty_shelter :
  forall (SHELTER_DATA : shelter_dict) (BINS : list string),
    (init SHELTER_DATA BINS = None <-> exists sid, In (sid, []) SHELTER_DATA) /\
    (forall st log,
        init SHELTER_DATA BINS = Some (st, log) ->
        NoDup (Dict.keys SHELTER_DATA) ->
        Dict.keys (circles st) = Dict.keys SHELTER_DATA /\
        currentBin st = 0%Z /\ playing st = false /\ playTimer st = false
        /\ ui st = true).
Proof.
  intros SD BINS. split.
  - rewrite init_fails. apply init_circles_fails.
  - intros st log H ND.
    destruct (init_state SD BINS st log H) as (_ & H0 & Hp & Ht).
    unfold init in H.
    destruct (init_circles SD ([], [], [])) as [[[cs prevs] l0]|] eqn:E;
      [|discriminate].
    destruct (init_circles_result SD [] [] [] cs prevs l0 E ND) as (A1 & _).
    pose proof (renderBin_circles SD BINS (mkState 0 false false cs prevs false) 0) as Hc.
    destruct (renderBin SD BINS (mkState 0 false false cs prevs false) 0) as [s1 l1].
    injection H as <- <-. simpl in *. rewrite Hc. auto.
Qed.

Lemma init_starts_on_circles (rows : list Scaled) (BINS : list string) :
  exists st log,
    init (shelter_data rows) BINS = Some (st, log) /\
    Dict.keys (circles st) = Dict.keys (shelter_data rows).
Proof.
  destruct (shelter_data_shape rows) as [ND F].
  destruct (init (shelter_data rows) BINS) as [[st log]|] eqn:E.
  - exists st, log. split; [reflexivity|].
    unfold init in E.
    destruct (init_circles (shelter_data rows) ([], [], [])) as [[[cs prevs] l0]|] eqn:E1;
      [|discriminate].
    destruct (init_circles_result _ [] [] [] cs prevs l0 E1 ND) as (A1 & _).
    pose proof (renderBin_circles (shelter_data rows) BINS
                  (mkState 0 false false cs prevs false) 0) as Hc.
    destruct (renderBin (shelter_data rows) BINS
                (mkState 0 false false cs prevs false) 0) as [s1 l1].
    injection E as <- <-. simpl in *. rewrite Hc. exact A1.
  - exfalso. apply init_fails, init_circles_fails in E. destruct E as (sid & Hin).
    rewrite Forall_forall in F. destruct (F _ Hin) as [Hne _]. apply Hne. reflexivity.
Qed.

(** X20: the script can always start on a timeline that [shelter_data]
    built: [init] does not throw, and it leaves one circle pair for each
    shelter of the timeline. *)
Theorem init_starts_on_every_timeline :
  forall (rows : list Scaled) (BINS : list string),
    exists st log,
      init (shelter_data rows) BINS = Some (st, log) /\
      Dict.keys (circles st) = Dict.keys (shelter_data rows) /\
      NoDup (Dict.keys (circles st)).
Proof.
  intros rows BINS. destruct (shelter_data_shape rows) as [ND F].
  destruct (init (shelter_data rows) BINS) as [[st log]|] eqn:E.
  - exists st, log. split; [reflexivity|].
    destruct (init_state _ _ st log E) as (ND' & _).
    split; [|exact ND'].
    unfold init in E.
    destruct (init_circles (shelter_data rows) ([], [], [])) as [[[cs prevs] l0]|] eqn:E1;
      [|discriminate].
    destruct (init_circles_result _ [] [] [] cs prevs l0 E1 ND) as (A1 & _).
    pose proof (renderBin_circles (shelter_data rows) BINS
                  (mkState 0 false false cs prevs false) 0) as Hc.
    destruct (renderBin (shelter_data rows) BINS
                (mkState 0 false false cs prevs false) 0) as [s1 l1].
    injection E as <- <-. simpl in *. rewrite Hc. exact A1.
  - exfalso. apply init_fails, init_circles_fails in E. destruct E as (sid & Hin).
    rewrite Forall_forall in F. destruct (F _ Hin) as [Hne _]. apply Hne. reflexivity.
Qed.

End InitMore.

(* ------------------------------------------------------------------ *)
(** ** The first frame *)

Module FirstFrame.
Import Num Resolver Binner Timeline Pipeline Renderer DictFacts SortFacts
       RenderFacts TransportFacts RenderMore ReachFacts TimelineMore InitMore
       PipelineFacts AggMore Shape.

(** *** In the browser *)

Lemma first_render_quiet (SD : shelter_dict) (BINS : list string)
      (st : State) (log : list call) :
  NoDup (Dict.keys SD) ->
  (forall sid b d more d0,
      In (sid, (b, d) :: more) SD ->
      frame_at SD sid (index BINS 0) = Some d0 ->
      index BINS 0 = Some b) ->
  init SD BINS = Some (st, log) ->
  (forall sid w r, ~ In (Pulse sid w r) log) /\
  (forall sid d0,
      frame_at SD sid (index BINS 0) = Some d0 ->
      In (SetRadius sid blue (radius_m d0)) log /\
      Dict.get (prevRate st) sid = Some (rate d0)).
Proof.
  intros ND Hfirst Hinit. unfold init in Hinit.
  destruct (init_circles SD ([], [], [])) as [[[cs prevs] l0]|] eqn:E; [|discriminate].
  destruct (init_circles_result SD [] [] [] cs prevs l0 E ND)
    as (Hkeys & Hseed & _ & (ext & Hl0 & Hext)).
  simpl in Hkeys, Hl0. subst l0.
  set (s1 := mkState 0 false false cs prevs false) in *.
  assert (ND1 : NoDup (Dict.keys (circles s1))) by (simpl; rewrite Hkeys; exact ND).
  (* a shelter with a frame for week 0 has that frame's rate stored *)
  assert (Hsame : forall sid d0,
             frame_at SD sid (index BINS 0) = Some d0 ->
             In sid (Dict.keys (circles s1)) /\
             last_rate (prevRate s1) sid d0 = rate d0).
  { intros sid d0 Hd. pose proof Hd as Hd'. unfold frame_at in Hd'.
    destruct (Dict.get SD sid) as [weeks|] eqn:G; [|discriminate].
    destruct (index BINS 0) as [b0|] eqn:I; [|discriminate].
    split; [simpl; rewrite Hkeys; apply get_in_keys; congruence|].
    apply get_In in G. destruct weeks as [| [b d] more]; [discriminate|].
    pose proof (Hfirst sid b d more d0 G Hd) as Hb. injection Hb as ->.
    simpl in Hd'. rewrite String.eqb_refl in Hd'. injection Hd' as ->.
    unfold last_rate. simpl. rewrite (Hseed sid b d0 more G). reflexivity. }
  pose proof (renderBin_log SD BINS s1 0) as (e1 & Hlog & Hcalls & _).
  assert (Hquiet : forall sid d0,
             frame_at SD sid (index BINS 0) = Some d0 ->
             In (SetRadius sid blue (radius_m d0)) (snd (renderBin SD BINS s1 0)) /\
             (forall w r, ~ In (Pulse sid w r) (snd (renderBin SD BINS s1 0))) /\
             Dict.get (prevRate (fst (renderBin SD BINS s1 0))) sid = Some (rate d0)).
  { intros sid d0 Hd. destruct (Hsame sid d0 Hd) as [Hin Hlast].
    pose proof (renderBin_effects SD BINS s1 0 sid d0 ND1 Hin Hd) as A.
    cbv zeta in A. rewrite Hlast in A.
    destruct A as (_ & _ & Hset & _ & _ & _ & _ & _ & Hprev).
    destruct Hset as [S1 S2].
    { apply changed_false, changed_same. }
    auto. }
  destruct (renderBin SD BINS s1 0) as [s2 l1] eqn:R. cbn [fst snd] in *.
  injection Hinit as <- <-. cbn [prevRate]. split.
  - intros sid w r Hin. rewrite in_app_iff in Hin. destruct Hin as [Hin | Hin].
    + destruct (Hext _ Hin) as (s & w' & la & lo & r' & col & C). discriminate C.
    + pose proof Hin as Hin'. rewrite Hlog in Hin'.
      apply in_app_or in Hin'. destruct Hin' as [H | H]; [destruct H|].
      destruct (Hcalls _ H) as (k & d0 & _ & Hd & Ek).
      simpl in Ek. injection Ek as <-.
      destruct (Hquiet sid d0 Hd) as (_ & No & _). apply (No w r Hin).
  - intros sid d0 Hd. destruct (Hquiet sid d0 Hd) as (S & _ & P).
    split; [apply in_or_app; right; exact S | exact P].
Qed.

(** X21: when every shelter that has a frame for week 0 has week 0 as
    the first key of its week map, [init] starts no pulse: the first
    frame sets every blue radius directly, and stores the rate of week 0
    for each shelter shown. *)
Theorem first_render_never_pulses :
  forall (SHELTER_DATA : shelter_dict) (BINS : list string)
         (st : State) (log : list call),
    NoDup (Dict.keys SHELTER_DATA) ->
    (forall sid b d more d0,
        In (sid, (b, d) :: more) SHELTER_DATA ->
        frame_at SHELTER_DATA sid (index BINS 0) = Some d0 ->
        index BINS 0 = Some b) ->
    init SHELTER_DATA BINS = Some (st, log) ->
    (forall sid w r, ~ In (Pulse sid w r) log) /\
    (forall sid d0,
        frame_at SHELTER_DATA sid (index BINS 0) = Some d0 ->
        In (SetRadius sid blue (radius_m d0)) log /\
        Dict.get (prevRate st) sid = Some (rate d0)).
Proof. exact first_render_quiet. Qed.

Lemma first_render_never_pulses_witness :
  NoDup (Dict.keys Demo.SHELTER_DATA) /\
  init Demo.SHELTER_DATA Demo.BINS = Some (Demo.started, Demo.boot_log) /\
  forall sid w r, ~ In (Pulse sid w r) Demo.boot_log.
Proof.
  assert (ND : NoDup (Dict.keys Demo.SHELTER_DATA)).
  { simpl. constructor; [intros [] | constructor]. }
  assert (Hinit : init Demo.SHELTER_DATA Demo.BINS
                  = Some (Demo.started, Demo.boot_log)) by reflexivity.
  assert (Hfirst : forall sid b d more d0,
             In (sid, (b, d) :: more) Demo.SHELTER_DATA ->
             frame_at Demo.SHELTER_DATA sid (index Demo.BINS 0) = Some d0 ->
             index Demo.BINS 0 = Some b).
  { intros sid b d more d0 [E | []] _. injection E as <- <- <- <-. reflexivity. }
  pose proof (first_render_never_pulses Demo.SHELTER_DATA Demo.BINS
                Demo.started Demo.boot_log ND Hfirst Hinit) as [H _].
  split; [exact ND|]. split; [exact Hinit | exact H].
Defined.

End FirstFrame.

(* ------------------------------------------------------------------ *)
(** ** Week order, from [agg] to the first frame *)

Module WeekOrder.
Import Num Resolver Binner Timeline Pipeline Renderer DictFacts SortFacts
       RenderFacts TransportFacts RenderMore ReachFacts TimelineMore InitMore
       PipelineFacts AggMore FirstFrame Shape.

(** *** Sorting by a key orders every column the key starts with *)

Section SortBy.
Context {A : Type} (leb : A -> A -> bool) (R : A -> A -> Prop).
Hypothesis R_trans : forall x y z, R x y -> R y z -> R x z.
Hypothesis leb_R : forall x y, leb x y = true -> R x y.
Hypothesis not_leb_R : forall x y, leb x y = false -> R y x.

Lemma insert_sorted_by (x : A) (l : list A) :
  StronglySorted R l -> StronglySorted R (insert_sorted leb x l).
Proof.
  induction 1 as [| y r Hr IH Hy]; simpl.
  - repeat constructor.
  - destruct (leb x y) eqn:E.
    + constructor; [constructor; assumption|].
      constructor; [apply leb_R, E|].
      rewrite Forall_forall in *. intros z Hz. eapply R_trans; [apply leb_R, E | auto].
    + constructor; [exact IH|].
      rewrite Forall_forall in *. intros z Hz.
      apply (Permutation_in _ (Permutation_sym (insert_perm leb x r))) in Hz.
      destruct Hz as [<- | Hz]; [apply not_leb_R, E | auto].
Qed.

Lemma sort_by (l : list A) : StronglySorted R (sort leb l).
Proof.
  induction l as [| x r IH]; simpl; [constructor | apply insert_sorted_by, IH].
Qed.
End SortBy.

Lemma StronglySorted_filter {A} (R : A -> A -> Prop) (f : A -> bool) (l : list A) :
  StronglySorted R l -> StronglySorted R (filter f l).
Proof.
  induction 1 as [| x r Hr IH Hx]; simpl; [constructor|].
  destruct (f x); [|exact IH]. constructor; [exact IH|].
  rewrite Forall_forall in *. intros y Hy. apply filter_In in Hy. apply Hx, Hy.
Qed.

Lemma StronglySorted_map {A B} (R : B -> B -> Prop) (g : A -> B) (l : list A) :
  StronglySorted (fun x y => R (g x) (g y)) l -> StronglySorted R (map g l).
Proof.
  induction 1 as [| x r Hr IH Hx]; simpl; constructor; [exact IH|].
  rewrite Forall_forall in *. intros y Hy. apply in_map_iff in Hy.
  destruct Hy as (z & <- & Hz). apply Hx, Hz.
Qed.

Lemma string_leb_refl (s : string) : String.leb s s = true.
Proof. unfold String.leb. rewrite string_compare_refl. reflexivity. Qed.

Lemma key_leb_week (k1 k2 : key) :
  key_leb k1 k2 = true -> week_le (bin_of k1) (bin_of k2).
Proof.
  destruct k1 as [[[b1 c1] la1] lo1], k2 as [[[b2 c2] la2] lo2].
  unfold key_leb, week_le, bin_of, String.leb. simpl.
  destruct (String.compare b1 b2); auto.
Qed.

Lemma not_key_leb_week (k1 k2 : key) :
  key_leb k1 k2 = false -> week_le (bin_of k2) (bin_of k1).
Proof.
  destruct k1 as [[[b1 c1] la1] lo1], k2 as [[[b2 c2] la2] lo2].
  unfold key_leb, week_le, bin_of, String.leb. simpl.
  pose proof (String.compare_antisym b1 b2) as A.
  destruct (String.compare b1 b2); destruct (String.compare b2 b1);
    simpl in A; try discriminate A; auto; discriminate.
Qed.

Lemma week_le_trans (a b c : string) : week_le a b -> week_le b c -> week_le a c.
Proof. apply string_leb_trans. Qed.

Lemma sorted_keys_in_week_order (ks : list key) :
  StronglySorted (fun k1 k2 => week_le (bin_of k1) (bin_of k2)) (sort key_leb ks).
Proof.
  apply sort_by.
  - intros x y z. apply week_le_trans.
  - apply key_leb_week.
  - apply not_key_leb_week.
Qed.

Lemma aggregate_bin (df : list Binned) (k : key) (s : Sample) :
  aggregate df k = Some s -> s_bin s = bin_of k.
Proof.
  unfold aggregate. destruct k as [[[b c] la] lo].
  destruct (Qeq_bool _ 0); [discriminate|].
  intros H. injection H as <-. reflexivity.
Qed.

Lemma dropna_in_week_order (df : list Binned) (ks : list key) :
  StronglySorted (fun k1 k2 => week_le (bin_of k1) (bin_of k2)) ks ->
  StronglySorted (fun s1 s2 => week_le (s_bin s1) (s_bin s2))
                 (dropna (map (aggregate df) ks)).
Proof.
  induction 1 as [| k r Hr IH Hk]; simpl; [constructor|].
  destruct (aggregate df k) as [s|] eqn:E; [|exact IH].
  constructor; [exact IH|].
  rewrite Forall_forall in *. intros s' Hs'.
  apply dropna_In, in_map_iff in Hs'. destruct Hs' as (k' & E' & Hk').
  rewrite (aggregate_bin _ _ _ E), (aggregate_bin _ _ _ E'). apply Hk, Hk'.
Qed.

Lemma agg_in_week_order (df : list Binned) (bs : list string) :
  StronglySorted (fun s1 s2 => week_le (s_bin s1) (s_bin s2)) (agg df bs).
Proof.
  unfold agg, agg_all.
  apply StronglySorted_filter, dropna_in_week_order, sorted_keys_in_week_order.
Qed.

Lemma scale_in_week_order (a : list Sample) :
  StronglySorted (fun s1 s2 => week_le (s_bin s1) (s_bin s2)) a ->
  StronglySorted (fun r1 r2 => week_le (s_bin (sample r1)) (s_bin (sample r2)))
                 (scale a).
Proof.
  intros H. unfold scale.
  destruct (Mapper.cap_bounds _) as [[lo hi]|]; [|constructor].
  induction H as [| x r Hr IH Hx]; simpl; constructor; [exact IH|].
  rewrite Forall_forall in *. intros y Hy. apply in_map_iff in Hy.
  destruct Hy as (z & <- & Hz). simpl. apply Hx, Hz.
Qed.

(** *** The week maps of the timeline *)

Lemma StronglySorted_snoc {A} (R : A -> A -> Prop) (l : list A) (b : A) :
  StronglySorted R l -> Forall (fun y => R y b) l -> StronglySorted R (l ++ [b]).
Proof.
  induction 1 as [| x r Hr IH Hx]; intros F; simpl.
  - repeat constructor.
  - inversion F as [| ? ? Fx Fr]; subst. constructor; [apply IH, Fr|].
    apply Forall_app. split; [exact Hx | constructor; [exact Fx | constructor]].
Qed.

(** While the rows come in week order, every week map is in week order
    and none of its weeks is after a row still to come. *)
Local Abbreviation in_order_before :=
  (fun (sd : shelter_dict) (rows : list Scaled) =>
     forall sid weeks,
       Dict.get sd sid = Some weeks ->
       StronglySorted week_le (Dict.keys weeks) /\
       forall b x, In b (Dict.keys weeks) -> In x rows ->
                   week_le b (s_bin (sample x))).

Lemma add_row_in_order (sd : shelter_dict) (r : Scaled) (rest : list Scaled) :
  StronglySorted (fun r1 r2 => week_le (s_bin (sample r1)) (s_bin (sample r2)))
                 (r :: rest) ->
  in_order_before sd (r :: rest) ->
  in_order_before (add_row sd r) rest.
Proof.
  intros Hs Hinv sid weeks Hget.
  inversion Hs as [| ? ? Hrest Hr]; subst. rewrite Forall_forall in Hr.
  unfold add_row in Hget.
  destruct (string_dec (s_code (sample r)) sid) as [E | N].
  - rewrite E, get_set_same in Hget. injection Hget as <-.
    rewrite keys_set.
    destruct (Dict.get sd sid) as [w0|] eqn:G.
    + destruct (Hinv sid w0 G) as [S0 B0].
      destruct (Dict.mem w0 (s_bin (sample r))).
      * split; [exact S0|]. intros b x Hb Hx. apply (B0 b x Hb). right. exact Hx.
      * split.
        -- apply StronglySorted_snoc; [exact S0|].
           apply Forall_forall. intros y Hy. apply (B0 y r Hy). left. reflexivity.
        -- intros b x Hb Hx. apply in_app_or in Hb. destruct Hb as [Hb | [<- | []]].
           ++ apply (B0 b x Hb). right. exact Hx.
           ++ apply Hr, Hx.
    + simpl. split; [repeat constructor|].
      intros b x [<- | []] Hx. apply Hr, Hx.
  - rewrite get_set_other in Hget by exact N.
    destruct (Hinv sid weeks Hget) as [S0 B0]. split; [exact S0|].
    intros b x Hb Hx. apply (B0 b x Hb). right. exact Hx.
Qed.

Lemma fold_in_order (rows : list Scaled) (sd : shelter_dict) :
  StronglySorted (fun r1 r2 => week_le (s_bin (sample r1)) (s_bin (sample r2))) rows ->
  in_order_before sd rows ->
  in_order_before (fold_left add_row rows sd) [].
Proof.
  revert sd. induction rows as [| r rest IH]; intros sd Hs Hinv; [exact Hinv|].
  simpl. apply IH.
  - inversion Hs; assumption.
  - apply add_row_in_order; assumption.
Qed.

Lemma shelter_data_in_order (rows : list Scaled) (sid : string) (weeks : Dict.t Frame) :
  StronglySorted (fun r1 r2 => week_le (s_bin (sample r1)) (s_bin (sample r2))) rows ->
  Dict.get (shelter_data rows) sid = Some weeks ->
  StronglySorted week_le (Dict.keys weeks).
Proof.
  intros Hs Hget.
  apply (fold_in_order rows [] Hs (fun s w H => ltac:(discriminate H)) sid weeks Hget).
Qed.

(** X22: the rows of [agg] are in week order, and so the weeks of every
    shelter in the timeline built from them are in week order: the first
    key of a week map is the earliest week of the shelter. *)
Theorem weeks_are_in_order :
  forall (df : list Binned) (bs : list string),
    StronglySorted (fun s1 s2 => week_le (s_bin s1) (s_bin s2)) (agg df bs) /\
    (forall sid weeks,
        Dict.get (shelter_data (scale (agg df bs))) sid = Some weeks ->
        StronglySorted week_le (Dict.keys weeks)).
Proof.
  intros df bs. split; [apply agg_in_week_order|].
  intros sid weeks. apply shelter_data_in_order, scale_in_week_order, agg_in_week_order.
Qed.

(** *** The document the script saves *)

Lemma tail2_inj {A} (l1 l2 : list A) (a b c d : A) :
  l1 ++ [a; b] = l2 ++ [c; d] -> a = c.
Proof.
  change [a; b] with ([a] ++ [b]). change [c; d] with ([c] ++ [d]).
  rewrite !app_assoc. intros H.
  apply app_inj_tail in H. destruct H as [H _].
  apply app_inj_tail in H. apply H.
Qed.

Lemma week0_is_first (df : list Binned) (bs : list string) :
  StronglySorted week_le bs ->
  let SD := shelter_data (scale (agg df bs)) in
  forall sid b d more d0,
    In (sid, (b, d) :: more) SD ->
    frame_at SD sid (index bs 0) = Some d0 ->
    index bs 0 = Some b.
Proof.
  intros Hbs SD sid b d more d0 Hin Hd.
  destruct (shelter_data_shape (scale (agg df bs))) as [ND _].
  pose proof (In_get _ _ _ ND Hin) as Hget. fold SD in Hget.
  unfold frame_at in Hd. rewrite Hget in Hd.
  destruct (index bs 0) as [b0|] eqn:I; [|discriminate].
  f_equal.
  (* the first week of the shelter is not after week 0 ... *)
  pose proof (shelter_data_in_order _ sid _
                (scale_in_week_order _ (agg_in_week_order df bs)) Hget) as Hs.
  assert (H1 : week_le b b0).
  { assert (Hk : In b0 (Dict.keys ((b, d) :: more))) by (apply get_in_keys; congruence).
    simpl in Hs. inversion Hs as [| ? ? _ F]; subst. rewrite Forall_forall in F.
    destruct Hk as [<- | Hk]; [apply string_leb_refl | apply F, Hk]. }
  (* ... and week 0 is not after any week of the timeline *)
  assert (H2 : week_le b0 b).
  { assert (Hb : In b bs).
    { apply (build_weeks (fun x => In x bs) (scale (agg df bs))) with (sid := sid)
                                                                   (weeks := (b, d) :: more).
      - intros r Hr. apply scale_sample in Hr. apply (agg_bin df bs _ Hr).
      - exact Hget.
      - left. reflexivity. }
    unfold index in I. simpl in I. destruct bs as [| x xs]; [discriminate|].
    injection I as ->. inversion Hbs as [| ? ? _ F]; subst. rewrite Forall_forall in F.
    destruct Hb as [<- | Hb]; [apply string_leb_refl | apply F, Hb]. }
  symmetry. apply String.leb_antisym; assumption.
Qed.

(** X23: the document the script saves starts quietly.  On its
    timeline and its list of weeks [init] does not throw, leaves one
    circle pair per shelter, and starts no pulse: what is stored for a
    shelter before the first frame is the rate of its earliest week, and
    that is week 0 whenever the shelter has a frame for week 0. *)
Theorem saved_document_starts_quietly :
  forall (week_label : Z -> string) (period_of : string -> Z)
         (geo_file_exists : bool) (df : list Point)
         (prints : list effect) (doc : Document),
    Pipeline.run week_label period_of geo_file_exists df
    = (prints ++ [SaveMap doc; PrintSaved], None) ->
    exists st log,
      init (SHELTER_DATA doc) (BINS doc) = Some (st, log) /\
      Dict.keys (circles st) = Dict.keys (SHELTER_DATA doc) /\
      (forall sid w r, ~ In (Pulse sid w r) log).
Proof.
  intros wl po geo df prints doc Hrun. unfold Pipeline.run in Hrun.
  set (dfb := add_bin wl df) in *.
  pose proof (bins_sorted po dfb) as Hbs.
  destruct (bins po dfb) as [| first rest] eqn:E; [discriminate|].
  set (bs := first :: rest) in *.
  destruct (center_of (agg dfb bs)) as [c|]; [|discriminate].
  apply (f_equal fst) in Hrun. cbn [fst] in Hrun.
  apply (tail2_inj ([PrintBins first (last bs first) (List.length bs)]
                      ++ (if geo then [] else [PrintNoShapefile]))
                   prints _ PrintSaved _ PrintSaved) in Hrun.
  injection Hrun as <-.
  cbn [SHELTER_DATA BINS].
  destruct (init_starts_on_circles (scale (agg dfb bs)) bs) as (st & log & Hinit & Hk).
  exists st, log. split; [exact Hinit|]. split; [exact Hk|].
  destruct (shelter_data_shape (scale (agg dfb bs))) as [ND _].
  apply (first_render_quiet _ bs st log ND (week0_is_first dfb bs Hbs) Hinit).
Qed.

End WeekOrder.

(* ------------------------------------------------------------------ *)
(** ** The centre of the map *)

Module CentreMore.
Import Num Binner Pipeline AggMore.

Lemma sum_const {A} (c : Q) (l : list A) :
  sum (map (fun _ => c) l) == inject_Z (Z.of_nat (List.length l)) * c.
Proof.
  induction l as [| x r IH].
  - simpl. ring.
  - cbn [map List.length]. rewrite Nat2Z.inj_succ. unfold Z.succ.
    rewrite inject_Z_plus. change (inject_Z 1) with 1.
    unfold sum in *. simpl. rewrite IH. ring.
Qed.

Lemma mean_between {A} (f : A -> Q) (l : list A) (lo hi : Q) :
  l <> [] ->
  (forall x, In x l -> lo <= f x <= hi) ->
  lo <= mean (map f l) <= hi.
Proof.
  intros Hne Hb.
  assert (Hne' : map f l <> []) by (destruct l; [congruence | discriminate]).
  destruct (mean_as_product (map f l) Hne') as [Hm Hn].
  rewrite length_map in Hm, Hn.
  pose proof (sum_le (fun _ => lo) f l (fun x Hx => proj1 (Hb x Hx))) as L.
  pose proof (sum_le f (fun _ => hi) l (fun x Hx => proj2 (Hb x Hx))) as U.
  rewrite sum_const in L, U. rewrite <- Hm in L, U.
  set (n := inject_Z (Z.of_nat (List.length l))) in *.
  set (m := mean (map f l)) in *.
  split.
  - apply Qnot_lt_le. intros C.
    assert (m * n < n * lo) by (setoid_replace (n * lo) with (lo * n) by ring;
                                apply Qmult_lt_compat_r; assumption).
    lra.
  - apply Qnot_lt_le. intros C.
    assert (n * hi < m * n) by (setoid_replace (n * hi) with (hi * n) by ring;
                                apply Qmult_lt_compat_r; assumption).
    lra.
Qed.

(** X24: the map is centred inside every box that holds the shelters:
    the centre is the mean latitude and the mean longitude of the rows
    of [agg], each row counted once whatever its capacity. *)
Theorem centre_is_inside_the_box :
  forall (a : list Sample) (clat clon : Q),
    center_of a = Some (clat, clon) ->
    forall south north west east : Q,
      (forall s, In s a -> south <= s_lat s <= north /\ west <= s_lon s <= east) ->
      south <= clat <= north /\ west <= clon <= east.
Proof.
  intros a clat clon Hc south north west east Hbox.
  destruct a as [| s0 rest]; [discriminate|].
  unfold center_of in Hc. injection Hc as <- <-.
  split.
  - apply (mean_between s_lat (s0 :: rest)); [discriminate|].
    intros x Hx. apply (Hbox x Hx).
  - apply (mean_between s_lon (s0 :: rest)); [discriminate|].
    intros x Hx. apply (Hbox x Hx).
Qed.

End CentreMore.

(* ------------------------------------------------------------------ *)
(** ** Worked examples *)

Module MoreScenarios.
Import Num Text Normalizer Resolver Binner Timeline Pipeline Renderer Shape.
Local Open Scope string_scope.

(** In week W2 shelter Z has no frame: rendering W2 leaves its stored
    rate alone. *)
Lemma renderBin_skips_shelter_without_frame_witness :
  frame_at Gap.SHELTER_DATA "Z" (index Demo.BINS 1) = None /\
  Dict.get (prevRate (fst (renderBin Gap.SHELTER_DATA Demo.BINS Gap.started 1))) "Z"
  = Some (70 # 100).
Proof.
  assert (Hd : frame_at Gap.SHELTER_DATA "Z" (index Demo.BINS 1) = None)
    by reflexivity.
  pose proof (RenderMore.renderBin_skips_shelter_without_frame
                Gap.SHELTER_DATA Demo.BINS Gap.started 1 "Z" Hd) as (_ & H).
  split; [exact Hd | exact H].
Defined.

(** Index 5 is past the two weeks. *)
Lemma renderBin_outside_BINS_witness :
  (BINS_length Demo.BINS <= 5)%Z /\
  renderBin Demo.SHELTER_DATA Demo.BINS Demo.started 5
  = (mkState 5 false false [("Y", tt)] [("Y", 70 # 100)] true,
     [SliderValue 5; LabelText None]).
Proof.
  assert (H5 : (BINS_length Demo.BINS <= 5)%Z) by (vm_compute; discriminate).
  split; [exact H5|].
  exact (RenderMore.renderBin_outside_BINS
           Demo.SHELTER_DATA Demo.BINS Demo.started 5 (or_intror H5)).
Defined.

Lemma rerender_never_pulses_witness :
  NoDup (Dict.keys (circles Demo.started)) /\
  ~ In (Pulse "Y" blue 120)
       (snd (renderBin Demo.SHELTER_DATA Demo.BINS
               (fst (renderBin Demo.SHELTER_DATA Demo.BINS Demo.started 1)) 1)).
Proof.
  assert (ND : NoDup (Dict.keys (circles Demo.started))).
  { apply NoDup_cons; [intros [] | apply NoDup_nil]. }
  split; [exact ND|].
  exact (RenderMore.rerender_never_pulses
           Demo.SHELTER_DATA Demo.BINS Demo.started 1 ND "Y" blue 120).
Defined.

Lemma timer_pending_iff_playing_witness :
  init Demo.SHELTER_DATA Demo.BINS = Some (Demo.started, Demo.boot_log) /\
  playTimer (fst (run Demo.SHELTER_DATA Demo.BINS Demo.started
                      [PlayClick; TimerFire; NextClick]))
  = playing (fst (run Demo.SHELTER_DATA Demo.BINS Demo.started
                      [PlayClick; TimerFire; NextClick])).
Proof.
  assert (Hinit : init Demo.SHELTER_DATA Demo.BINS
                  = Some (Demo.started, Demo.boot_log)) by reflexivity.
  split; [exact Hinit|].
  pose proof (TransportMore.timer_pending_iff_playing
                Demo.SHELTER_DATA Demo.BINS Demo.started Demo.boot_log
                [PlayClick; TimerFire; NextClick] Hinit) as H.
  cbv zeta in H. exact (proj1 H).
Defined.

(** After Play, three timer fires over two weeks end on week 1. *)
Lemma autoplay_goes_round_witness :
  let st := fst (handle Demo.SHELTER_DATA Demo.BINS Demo.started PlayClick) in
  Demo.BINS <> [] /\
  in_range Demo.BINS st /\
  playTimer st = true /\
  currentBin (fst (run Demo.SHELTER_DATA Demo.BINS st (repeat TimerFire 3)))
  = ((currentBin st + 3) mod BINS_length Demo.BINS)%Z.
Proof.
  intros st.
  assert (Hne : Demo.BINS <> []) by discriminate.
  assert (Hst : in_range Demo.BINS st) by (split; discriminate).
  assert (Ht : playTimer st = true) by reflexivity.
  split; [exact Hne|]. split; [exact Hst|]. split; [exact Ht|].
  exact (proj1 (TransportMore.autoplay_goes_round
                  Demo.SHELTER_DATA Demo.BINS st 3 Hne Hst Ht)).
Defined.

Lemma cleaned_codes_match_the_pattern_witness :
  In (mkRow "M5V2T6" "M5V" 50 40 19724) (Demo.clean Demo.rows) /\
  fullmatch_pattern "M5V2T6" = true.
Proof.
  assert (Hin : In (mkRow "M5V2T6" "M5V" 50 40 19724) (Demo.clean Demo.rows))
    by (vm_compute; left; reflexivity).
  split; [exact Hin|].
  exact (proj1 (CleanMore.cleaned_codes_match_the_pattern
                  Calendar.parse_number Calendar.parse_date Demo.rows _ Hin)).
Defined.

(** The eight rows: the script saves a document, and the page starts on
    it without a pulse. *)
Lemma saved_document_starts_quietly_witness :
  exists prints doc st log,
    Demo.script Demo.rows = ((prints ++ [SaveMap doc; PrintSaved])%list, None) /\
    init (SHELTER_DATA doc) (BINS doc) = Some (st, log) /\
    forall sid w r, ~ In (Pulse sid w r) log.
Proof.
  pose (df := jitter_dupes MD5.md5_word (Demo.points Demo.rows)).
  pose (dfb := add_bin Calendar.week_label df).
  pose (bs := bins Calendar.period_of dfb).
  pose (doc := mkDocument (match center_of (agg dfb bs) with
                           | Some c => c
                           | None => (0, 0)
                           end)
                          (shelter_data (scale (agg dfb bs))) bs).
  pose (prints := [PrintBins (hd "" bs) (last bs "") (List.length bs)]).
  assert (Hrun : Pipeline.run Calendar.week_label Calendar.period_of true df
                 = ((prints ++ [SaveMap doc; PrintSaved])%list, None))
    by (vm_compute; reflexivity).
  assert (Es : Demo.script Demo.rows
               = Pipeline.run Calendar.week_label Calendar.period_of true df)
    by (vm_compute; reflexivity).
  pose proof (WeekOrder.saved_document_starts_quietly
                Calendar.week_label Calendar.period_of true df prints doc Hrun)
    as (st & log & H1 & _ & H2).
  exists prints, doc, st, log.
  split; [rewrite Es; exact Hrun|]. split; [exact H1 | exact H2].
Defined.

(** Two shelters, at latitudes 43.6 and 43.7: the centre is between. *)
Lemma centre_is_inside_the_box_witness :
  center_of [mkSample "W1" "A" (436 # 10) (-794 # 10) 50 40 (8 # 10);
             mkSample "W1" "B" (437 # 10) (-793 # 10) 30 12 (4 # 10)]
  = Some (mean [436 # 10; 437 # 10], mean [-794 # 10; -793 # 10]) /\
  436 # 10 <= mean [436 # 10; 437 # 10] <= 437 # 10.
Proof.
  assert (Hc : center_of [mkSample "W1" "A" (436 # 10) (-794 # 10) 50 40 (8 # 10);
                          mkSample "W1" "B" (437 # 10) (-793 # 10) 30 12 (4 # 10)]
               = Some (mean [436 # 10; 437 # 10], mean [-794 # 10; -793 # 10]))
    by reflexivity.
  split; [exact Hc|].
  refine (proj1 (CentreMore.centre_is_inside_the_box
                   _ _ _ Hc (436 # 10) (437 # 10) (-794 # 10) (-793 # 10) _)).
  intros s [<- | [<- | []]]; vm_compute; repeat split; discriminate.
Defined.

End MoreScenarios.
